(** * The enhanced creature index and its criteria query engine

    A shallow embedding of the index cache of [data-access.ts]
    ([PersistentCreatureIndex] and the query methods of [FoundryDataAccess]):
    pack fingerprints, the validity check, the two dialect builders with
    their per-document extraction, the persistence write, the criteria
    filter, the sort, the limit and the free-text search.

    Conventions of the embedding.
    - A JS string is the list of its UTF-16 code units ([list N]); [js "npc"]
      writes a literal.  Case mapping is modelled on the ASCII letters only.
    - A JS number is an exact rational ([Q]); NaN appears only as the [None]
      of a conversion, infinities are not modelled.
    - A value of unknown shape (the [system] data of a document) is a [JVal];
      [JThrows] stored in a property stands for an accessor that throws.
    - A function that can throw returns a [result]; asynchronous host calls
      (index loading, document loading, file upload) carry their outcome in
      the [World] they run in, and every method that mutates state takes a
      [World] and returns the next one. *)

From Stdlib Require Import QArith ZArith NArith List String Ascii Lia.
From Stdlib Require Import Permutation Sorted.
From stdpp Require Import base option list numbers strings gmap.

#[local] Set Warnings "-register-all".
Local Open Scope Z_scope.

(** ** Exceptions *)

Inductive exn : Type :=
| Error (message : list N)          (* [new Error(message)] *)
| TypeError                         (* property read on null/undefined, call of a non-function *)
| AccessorError                     (* thrown by a property accessor of a document *)
| InvalidCharacterError             (* [btoa] on a code unit above 0xFF *)
| Rejected (what : list N).         (* a host promise that rejects *)

Inductive result (A : Type) : Type :=
| Ok (a : A)
| Throw (e : exn).
Arguments Ok {A} a.
Arguments Throw {A} e.

#[global] Instance result_ret : MRet result := fun A a => Ok a.
#[global] Instance result_bind : MBind result := fun A B f m =>
  match m with
  | Ok a => f a
  | Throw e => Throw e
  end.

#[global] Instance result_fmap : FMap result := fun A B f m =>
  match m with
  | Ok a => Ok (f a)
  | Throw e => Throw e
  end.

Definition is_ok {A} (r : result A) : bool :=
  match r with Ok _ => true | Throw _ => false end.

(** ** Strings *)

Module JS.

Abbreviation jsstring := (list N) (only parsing).

Definition js (s : string) : jsstring := map N_of_ascii (list_ascii_of_string s).

Definition streq (a b : jsstring) : bool := bool_decide (a = b).

(** White space and line terminators, the code units [trim] strips. *)
Definition isWhiteSpace (u : N) : bool :=
  ((9 <=? u) && (u <=? 13))%N || (u =? 32)%N || (u =? 160)%N || (u =? 5760)%N
  || ((8192 <=? u) && (u <=? 8202))%N || (u =? 8232)%N || (u =? 8233)%N
  || (u =? 8239)%N || (u =? 8287)%N || (u =? 12288)%N || (u =? 65279)%N.

Fixpoint trimStart (s : jsstring) : jsstring :=
  match s with
  | [] => []
  | c :: r => if isWhiteSpace c then trimStart r else s
  end.

Definition trimEnd (s : jsstring) : jsstring := rev (trimStart (rev s)).

Definition trim (s : jsstring) : jsstring := trimEnd (trimStart s).

(** [toLowerCase] and [toUpperCase] on the ASCII letters; other code units
    are left as they are.  That is the JS function on plain text, text
    whose code units are all below 128.  On other text JS also maps the
    cased letters beyond ASCII (and some of them to ASCII letters), which
    is not modelled: a statement that depends on the case of letters is
    made for plain text. *)
Definition plain (s : jsstring) : bool := forallb (fun u => (u <? 128)%N) s.

Definition lowerUnit (u : N) : N :=
  if ((65 <=? u) && (u <=? 90))%N then (u + 32)%N else u.

Definition upperUnit (u : N) : N :=
  if ((97 <=? u) && (u <=? 122))%N then (u - 32)%N else u.

Definition toLowerCase (s : jsstring) : jsstring := map lowerUnit s.
Definition toUpperCase (s : jsstring) : jsstring := map upperUnit s.

Fixpoint startsWith (p s : jsstring) : bool :=
  match p, s with
  | [], _ => true
  | _ :: _, [] => false
  | a :: p', b :: s' => (a =? b)%N && startsWith p' s'
  end.

(** [s.includes(sub)] *)
Fixpoint includes (s sub : jsstring) : bool :=
  startsWith sub s ||
  match s with
  | [] => false
  | _ :: r => includes r sub
  end.

(** [s.split(sep)] for a separator of one code unit. *)
Fixpoint split (sep : N) (s : jsstring) : list jsstring :=
  match s with
  | [] => [[]]
  | c :: r =>
      if (c =? sep)%N then [] :: split sep r
      else match split sep r with
           | [] => [[c]]
           | w :: ws => (c :: w) :: ws
           end
  end.

(** [parts.join(sep)] *)
Fixpoint join (sep : jsstring) (parts : list jsstring) : jsstring :=
  match parts with
  | [] => []
  | [p] => p
  | p :: ps => p ++ sep ++ join sep ps
  end.

(** [a.slice(0, n)] on a string or an array, for an integer [n]: a negative
    [n] counts from the end. *)
Definition slice0 {A} (l : list A) (n : Z) : list A :=
  if n <? 0 then firstn (Z.to_nat (Z.max (Z.of_nat (length l) + n) 0)) l
  else firstn (Z.to_nat n) l.

(** *** Numbers and their text *)

Fixpoint uintUnits (d : Decimal.uint) : jsstring :=
  match d with
  | Decimal.Nil => []
  | Decimal.D0 r => 48%N :: uintUnits r
  | Decimal.D1 r => 49%N :: uintUnits r
  | Decimal.D2 r => 50%N :: uintUnits r
  | Decimal.D3 r => 51%N :: uintUnits r
  | Decimal.D4 r => 52%N :: uintUnits r
  | Decimal.D5 r => 53%N :: uintUnits r
  | Decimal.D6 r => 54%N :: uintUnits r
  | Decimal.D7 r => 55%N :: uintUnits r
  | Decimal.D8 r => 56%N :: uintUnits r
  | Decimal.D9 r => 57%N :: uintUnits r
  end.

(** Decimal text of a natural number, as a template literal prints it. *)
Definition natToString (n : nat) : jsstring := uintUnits (Nat.to_uint n).

Fixpoint fracDigits (fuel : nat) (r d : Z) : jsstring :=
  match fuel with
  | O => []
  | S fuel' =>
      if r =? 0 then []
      else Z.to_N (48 + (r * 10) / d) :: fracDigits fuel' ((r * 10) mod d) d
  end.

(** [String(x)] for a number: sign, integer part and the decimal expansion
    (cut after twenty digits); the exponent forms JS prints for very large
    and very small magnitudes are not modelled. *)
Definition numberToString (q : Q) : jsstring :=
  let n := Qnum q in
  let d := Z.pos (Qden q) in
  let a := Z.abs n in
  (if n <? 0 then [45%N] else [])
    ++ uintUnits (N.to_uint (Z.to_N (a / d)))
    ++ (if a mod d =? 0 then [] else 46%N :: fracDigits 20 (a mod d) d).

Definition isDigit (u : N) : bool := ((48 <=? u) && (u <=? 57))%N.

Fixpoint spanDigits (s : jsstring) : jsstring * jsstring :=
  match s with
  | [] => ([], [])
  | c :: r =>
      if isDigit c then let '(ds, rest) := spanDigits r in (c :: ds, rest)
      else ([], s)
  end.

Definition digitsValue (ds : jsstring) : Z :=
  fold_left (fun acc d => acc * 10 + (Z.of_N d - 48)) ds 0.

(** The value [m * 10^t]. *)
Definition scale10 (m t : Z) : Q :=
  if t <? 0 then Qmake m (Z.to_pos (10 ^ (- t))) else Qmake (m * 10 ^ t) 1.

(** The longest prefix of [s] that is a decimal literal
    ([+-]digits[.digits][e[+-]digits] or [+-].digits[...]), with its value
    and the text left over. *)
Definition parseDecimalPrefix (s : jsstring) : option (Q * jsstring) :=
  let '(neg, s1) :=
    match s with
    | 45%N :: r => (true, r)
    | 43%N :: r => (false, r)
    | _ => (false, s)
    end in
  let '(ip, s2) := spanDigits s1 in
  let mantissa : option (jsstring * jsstring) :=
    match s2 with
    | 46%N :: r =>
        let '(fp, s3) := spanDigits r in
        match ip, fp with
        | [], [] => None
        | _, _ => Some (fp, s3)
        end
    | _ => match ip with [] => None | _ => Some ([], s2) end
    end in
  match mantissa with
  | None => None
  | Some (fp, s3) =>
      let '(e, s4) :=
        match s3 with
        | c :: r =>
            if ((c =? 101) || (c =? 69))%N then
              let '(eneg, r1) :=
                match r with
                | 45%N :: r' => (true, r')
                | 43%N :: r' => (false, r')
                | _ => (false, r)
                end in
              match spanDigits r1 with
              | ([], _) => (0, s3)
              | (ds, rest) => ((if eneg then - digitsValue ds else digitsValue ds), rest)
              end
            else (0, s3)
        | [] => (0, s3)
        end in
      let m := digitsValue (ip ++ fp) in
      Some (scale10 (if neg then - m else m) (e - Z.of_nat (length fp)), s4)
  end.

(** [parseFloat(s)]; [None] is NaN.  The value is the exact decimal, and
    [Infinity] is not read. *)
Definition parseFloat (s : jsstring) : option Q :=
  fst <$> parseDecimalPrefix (trimStart s).

(** [Number(s)] for a string; [None] is NaN.  Hexadecimal, octal and binary
    literals and [Infinity] are not modelled. *)
Definition stringToNumber (s : jsstring) : option Q :=
  match trim s with
  | [] => Some 0%Q
  | t => match parseDecimalPrefix t with
         | Some (q, []) => Some q
         | _ => None
         end
  end.

(** *** [btoa] *)

Definition b64Unit (i : N) : N :=
  if (i <? 26)%N then (65 + i)%N
  else if (i <? 52)%N then (97 + (i - 26))%N
  else if (i <? 62)%N then (48 + (i - 52))%N
  else if (i =? 62)%N then 43%N else 47%N.

Fixpoint base64 (bytes : list N) : jsstring :=
  match bytes with
  | [] => []
  | [a] => [b64Unit (a / 4); b64Unit ((a mod 4) * 16); 61; 61]%N
  | [a; b] =>
      [b64Unit (a / 4); b64Unit ((a mod 4) * 16 + b / 16);
       b64Unit ((b mod 16) * 4); 61]%N
  | a :: b :: c :: r =>
      ([b64Unit (a / 4); b64Unit ((a mod 4) * 16 + b / 16);
        b64Unit ((b mod 16) * 4 + c / 64); b64Unit (c mod 64)]%N)
        ++ base64 r
  end.

(** [btoa(data)] throws on a code unit outside Latin-1. *)
Definition btoa (data : jsstring) : result jsstring :=
  if forallb (fun u => (u <? 256)%N) data then Ok (base64 data)
  else Throw InvalidCharacterError.

End JS.
Import JS.

(** ** Values of unknown shape *)

Inductive JVal : Type :=
| JUndefined
| JNull
| JBool (b : bool)
| JNum (q : Q)
| JStr (s : jsstring)
| JArr (elems : list JVal)
| JObj (props : list (jsstring * JVal))
| JThrows.   (* as the value of a property: reading that property throws *)

Definition nullish (v : JVal) : bool :=
  match v with JUndefined | JNull => true | _ => false end.

Definition truthy (v : JVal) : bool :=
  match v with
  | JUndefined | JNull => false
  | JBool b => b
  | JNum q => negb (Qeq_bool q 0)
  | JStr s => negb (bool_decide (s = []))
  | JArr _ | JObj _ | JThrows => true
  end.

Fixpoint assoc (k : jsstring) (props : list (jsstring * JVal)) : option JVal :=
  match props with
  | [] => None
  | (k', v) :: r => if streq k k' then Some v else assoc k r
  end.

(** [v.k]: a TypeError on null and undefined, the stored value of an own
    property of an object, undefined otherwise (none of the keys the code
    reads is a prototype property of a string, number, boolean or array). *)
Definition get (v : JVal) (k : jsstring) : result JVal :=
  match v with
  | JUndefined | JNull => Throw TypeError
  | JThrows => Throw AccessorError
  | JObj props =>
      match assoc k props with
      | Some JThrows => Throw AccessorError
      | Some x => Ok x
      | None => Ok JUndefined
      end
  | _ => Ok JUndefined
  end.

(** [e.k] and [e?.k] after an expression [e] that may have thrown. *)
Definition dot (e : result JVal) (k : string) : result JVal :=
  v ← e; get v (js k).

Definition qdot (e : result JVal) (k : string) : result JVal :=
  v ← e; if nullish v then Ok JUndefined else get v (js k).

(** [a ?? b], [a || b] and [a && b]; the right operand is looked at only
    when JS evaluates it. *)
Definition coalesce (a b : result JVal) : result JVal :=
  v ← a; if nullish v then b else Ok v.

Definition orElse (a b : result JVal) : result JVal :=
  v ← a; if truthy v then Ok v else b.

Definition andAlso (a b : result JVal) : result JVal :=
  v ← a; if truthy v then b else Ok v.

Infix "<??>" := coalesce (at level 67, right associativity).
Infix "<||>" := orElse (at level 66, right associativity).
Infix "<&&>" := andAlso (at level 65, right associativity).

(** [String(v)] *)
Fixpoint toStringJ (v : JVal) : jsstring :=
  match v with
  | JUndefined => js "undefined"
  | JNull => js "null"
  | JBool true => js "true"
  | JBool false => js "false"
  | JNum q => numberToString q
  | JStr s => s
  | JArr l =>
      join (js ",")
        (map (fun x => match x with
                       | JUndefined | JNull => []
                       | _ => toStringJ x
                       end) l)
  | JObj _ => js "[object Object]"
  | JThrows => []
  end.

(** [Number(v)]; [None] is NaN. *)
Definition toNumber (v : JVal) : option Q :=
  match v with
  | JUndefined => None
  | JNull => Some 0%Q
  | JBool b => Some (if b then 1%Q else 0%Q)
  | JNum q => Some q
  | JStr s => stringToNumber s
  | JArr _ => stringToNumber (toStringJ v)
  | JObj _ | JThrows => None
  end.

(** [Number(v) || 0] *)
Definition numberOrZero (v : JVal) : Q :=
  match toNumber v with
  | Some q => q
  | None => 0%Q
  end.

(** [v > 0] *)
Definition gtZero (v : JVal) : bool :=
  match toNumber v with
  | Some q => negb (Qle_bool q 0)
  | None => false
  end.

Definition isString (v : JVal) : bool :=
  match v with JStr _ => true | _ => false end.

(** ** Data model *)

(** A compendium document.  [_id], [name], [type] and [img] are schema fields
    of the host; [system] is the game system's own data. *)
Record Doc : Type := {
  doc_id : jsstring;
  doc_name : jsstring;
  doc_type : jsstring;
  doc_img : option jsstring;
  doc_system : JVal
}.

(** A record of a pack's lightweight index. *)
Record IndexEntry : Type := {
  entry_id : option jsstring;
  entry_name : option jsstring;
  entry_type : option jsstring;
  entry_img : option jsstring;
  entry_description : option jsstring
}.

(** A compendium pack: its metadata, the state of its index, and what the
    host answers when asked to load the index ([getIndex]) or the documents
    ([getDocuments]); [None] there is a promise that rejects.
    [pack_lastModified] is the time value of [metadata.lastModified] when
    that field is truthy. *)
Record Pack : Type := {
  pack_id : jsstring;
  pack_label : jsstring;
  pack_type : jsstring;
  pack_lastModified : option Z;
  pack_indexed : bool;
  pack_index : option (list IndexEntry);
  pack_getIndex : option (list IndexEntry);
  pack_getDocuments : option (list Doc)
}.

Record PackFingerprint : Type := {
  fp_packId : jsstring;
  fp_packLabel : jsstring;
  fp_lastModified : Z;
  fp_documentCount : nat;
  fp_checksum : jsstring
}.

Record DnD5eCreatureIndex : Type := {
  d5_id : jsstring;
  d5_name : jsstring;
  d5_type : jsstring;
  d5_pack : jsstring;
  d5_packLabel : jsstring;
  d5_challengeRating : Q;
  d5_creatureType : jsstring;
  d5_size : jsstring;
  d5_hitPoints : JVal;
  d5_armorClass : JVal;
  d5_hasSpells : bool;
  d5_hasLegendaryActions : bool;
  d5_alignment : jsstring;
  d5_description : JVal;
  d5_img : option jsstring
}.

Record PF2eCreatureIndex : Type := {
  pf_id : jsstring;
  pf_name : jsstring;
  pf_type : jsstring;
  pf_pack : jsstring;
  pf_packLabel : jsstring;
  pf_level : Q;
  pf_traits : list JVal;
  pf_creatureType : jsstring;
  pf_rarity : JVal;
  pf_size : jsstring;
  pf_hitPoints : JVal;
  pf_armorClass : JVal;
  pf_hasSpells : bool;
  pf_alignment : jsstring;
  pf_description : JVal;
  pf_img : option jsstring
}.

(** [EnhancedCreatureIndex]; the code tells the variants apart by
    ['level' in creature]. *)
Inductive EnhancedCreatureIndex : Type :=
| DnD5e (c : DnD5eCreatureIndex)
| PF2e (c : PF2eCreatureIndex).

Record PersistentIndexMetadata : Type := {
  md_version : jsstring;
  md_timestamp : Z;
  md_packFingerprints : gmap (list N) PackFingerprint;
  md_totalCreatures : nat;
  md_gameSystem : jsstring
}.

Record PersistentEnhancedIndex : Type := {
  metadata : PersistentIndexMetadata;
  creatures : list EnhancedCreatureIndex
}.

(** The JSON written to the world directory: the fingerprint map as an
    array of entries. *)
Record SavedIndex : Type := {
  saved_version : jsstring;
  saved_timestamp : Z;
  saved_packFingerprints : list (jsstring * PackFingerprint);
  saved_totalCreatures : nat;
  saved_gameSystem : jsstring;
  saved_creatures : list EnhancedCreatureIndex
}.

(** What lies at the index file path: a file this module wrote, or one that
    cannot be fetched or parsed. *)
Inductive StoredFile : Type :=
| IndexFile (s : SavedIndex)
| Unreadable.

(** What the host does with an upload: it stores the file and answers with
    a response, answers with nothing, or rejects. *)
Inductive UploadOutcome : Type :=
| UploadStores
| UploadAnswersNothing
| UploadRejects.

(** The state the index code runs in. *)
Record World : Type := {
  systemId : jsstring;                  (* game.system.id *)
  packs : list Pack;                    (* game.packs, keyed by metadata.id *)
  buildInProgress : bool;
  indexFile : option StoredFile;        (* worlds/<id>/enhanced-creature-index.json *)
  now : Z;                              (* Date.now() *)
  uploadOutcome : UploadOutcome;
  uploads : list SavedIndex;            (* every upload asked of the host, oldest first *)
  enableEnhancedCreatureIndex : bool    (* the module setting *)
}.

Definition INDEX_VERSION : jsstring := js "1.0.0".

Definition isActorPack (p : Pack) : bool := streq (pack_type p) (js "Actor").

(** [game.packs.get(packId)] *)
Definition packs_get (w : World) (packId : jsstring) : option Pack :=
  find (fun p => streq (pack_id p) packId) (packs w).

(** ** Fingerprints *)

(** [pack.index?.size || 0] *)
Definition indexSize (p : Pack) : nat :=
  match pack_index p with
  | Some entries => length entries
  | None => O
  end.

Definition generatePackChecksum (p : Pack) : result jsstring :=
  let data := pack_id p ++ js "-" ++ pack_label p ++ js "-" ++ natToString (indexSize p) in
  encoded ← btoa data;
  Ok (slice0 encoded 16).

Definition generatePackFingerprint (w : World) (p : Pack) : result PackFingerprint :=
  let lastModified :=
    match pack_lastModified p with
    | Some t => t
    | None => now w
    end in
  checksum ← generatePackChecksum p;
  Ok {| fp_packId := pack_id p;
        fp_packLabel := pack_label p;
        fp_lastModified := lastModified;
        fp_documentCount := indexSize p;
        fp_checksum := checksum |}.

Definition fingerprintsMatch (current saved : PackFingerprint) : bool :=
  Nat.eqb (fp_documentCount current) (fp_documentCount saved)
  && streq (fp_checksum current) (fp_checksum saved).

(** ** The validity check *)

(** The loop over the Actor packs of [isIndexValid]. *)
Fixpoint checkPackFingerprints (w : World)
    (saved : gmap (list N) PackFingerprint) (actorPacks : list Pack) : result bool :=
  match actorPacks with
  | [] => Ok true
  | pack :: rest =>
      currentFingerprint ← generatePackFingerprint w pack;
      match saved !! pack_id pack with
      | None => Ok false
      | Some savedFingerprint =>
          if negb (fingerprintsMatch currentFingerprint savedFingerprint)
          then Ok false
          else checkPackFingerprints w saved rest
      end
  end.

Definition isIndexValid (w : World) (existingIndex : PersistentEnhancedIndex) : result bool :=
  if negb (streq (md_version (metadata existingIndex)) INDEX_VERSION) then Ok false
  else if negb (streq (md_gameSystem (metadata existingIndex)) (systemId w)) then Ok false
  else
    let saved := md_packFingerprints (metadata existingIndex) in
    let actorPacks := filter (fun p => isActorPack p = true) (packs w) in
    packsOk ← checkPackFingerprints w saved actorPacks;
    if negb packsOk then Ok false
    else
      if forallb (fun packId => bool_decide (is_Some (packs_get w packId)))
                 (map fst (map_to_list saved))
      then Ok true else Ok false.

(** ** Persistence *)

(** [new Map(entries)]: a later entry overwrites an earlier one with the
    same key. *)
Definition mapOfEntries (entries : list (jsstring * PackFingerprint))
    : gmap (list N) PackFingerprint :=
  fold_left (fun m kv => <[fst kv := snd kv]> m) entries ∅.

Definition serializeIndex (index : PersistentEnhancedIndex) : SavedIndex :=
  {| saved_version := md_version (metadata index);
     saved_timestamp := md_timestamp (metadata index);
     saved_packFingerprints := map_to_list (md_packFingerprints (metadata index));
     saved_totalCreatures := md_totalCreatures (metadata index);
     saved_gameSystem := md_gameSystem (metadata index);
     saved_creatures := creatures index |}.

Definition deserializeIndex (s : SavedIndex) : PersistentEnhancedIndex :=
  {| metadata :=
       {| md_version := saved_version s;
          md_timestamp := saved_timestamp s;
          md_packFingerprints := mapOfEntries (saved_packFingerprints s);
          md_totalCreatures := saved_totalCreatures s;
          md_gameSystem := saved_gameSystem s |};
     creatures := saved_creatures s |}.

(** Every failure to find, fetch or parse the file is "no index".  The
    file is kept as the record that was saved: the JSON text between
    [JSON.stringify] and [response.json()] is not modelled, so of an index
    read back only what that text keeps is stated below (the number of
    profiles, their ids, the metadata and the fingerprints). *)
Definition loadPersistedIndex (w : World) : option PersistentEnhancedIndex :=
  match indexFile w with
  | Some (IndexFile s) => Some (deserializeIndex s)
  | _ => None
  end.

Definition recordUpload (w : World) (s : SavedIndex) (file : option StoredFile) : World :=
  {| systemId := systemId w;
     packs := packs w;
     buildInProgress := buildInProgress w;
     indexFile := file;
     now := now w;
     uploadOutcome := uploadOutcome w;
     uploads := uploads w ++ [s];
     enableEnhancedCreatureIndex := enableEnhancedCreatureIndex w |}.

(** One upload of the whole serialized index; the error of a failed upload
    is thrown on to the caller. *)
Definition savePersistedIndex (w : World) (index : PersistentEnhancedIndex)
    : result unit * World :=
  let saveData := serializeIndex index in
  match uploadOutcome w with
  | UploadStores => (Ok tt, recordUpload w saveData (Some (IndexFile saveData)))
  | UploadAnswersNothing =>
      (Throw (Error (js "File upload failed")), recordUpload w saveData (indexFile w))
  | UploadRejects =>
      (Throw (Rejected (js "upload")), recordUpload w saveData (indexFile w))
  end.

(** ** Extraction, D&D 5e *)

(** [doc.system] *)
Definition readSystem (doc : Doc) : result JVal :=
  match doc_system doc with
  | JThrows => Throw AccessorError
  | v => Ok v
  end.

(** [e > 0] *)
Definition gt0 (e : result JVal) : result JVal :=
  v ← e; Ok (JBool (gtZero v)).

(** [if (typeof x !== 'string') x = String(x || fallback)] *)
Definition asStringOr (v : JVal) (fallback : string) : jsstring :=
  match v with
  | JStr s => s
  | _ => toStringJ (if truthy v then v else JStr (js fallback))
  end.

Definition lit (s : string) : result JVal := Ok (JStr (js s)).

(** The [try] block of [extractDnD5eCreatureData]. *)
Definition extractDnD5eCreatureData_try (doc : Doc) (pack : Pack)
    : result DnD5eCreatureIndex :=
  s ← readSystem doc;
  let system : result JVal := Ok (if truthy s then s else JObj []) in
  cr0 ← qdot (dot system "details") "cr"
        <??> qdot (qdot (dot system "details") "cr") "value"
        <??> qdot (dot system "cr") "value" <??> dot system "cr"
        <??> qdot (qdot (dot system "attributes") "cr") "value"
        <??> qdot (dot system "attributes") "cr"
        <??> qdot (dot system "challenge") "rating"
        <??> qdot (dot system "challenge") "cr" <??> Ok (JNum 0);
  let cr1 := if nullish cr0 then JNum 0 else cr0 in
  let cr2 :=
    match cr1 with
    | JStr t =>
        if streq t (js "1/8") then JNum (1 # 8)
        else if streq t (js "1/4") then JNum (1 # 4)
        else if streq t (js "1/2") then JNum (1 # 2)
        else JNum (match parseFloat t with Some q => q | None => 0%Q end)
    | _ => cr1
    end in
  let challengeRating := numberOrZero cr2 in
  ct0 ← qdot (qdot (dot system "details") "type") "value"
        <??> qdot (dot system "details") "type"
        <??> qdot (dot system "type") "value" <??> dot system "type"
        <??> qdot (dot system "race") "value" <??> dot system "race"
        <??> qdot (dot system "details") "race" <??> lit "unknown";
  let ct1 :=
    if nullish ct0 || match ct0 with JStr [] => true | _ => false end
    then JStr (js "unknown") else ct0 in
  let creatureType := asStringOr ct1 "unknown" in
  size0 ← qdot (qdot (dot system "traits") "size") "value"
          <||> qdot (dot system "traits") "size"
          <||> qdot (dot system "size") "value" <||> dot system "size"
          <||> qdot (dot system "details") "size" <||> lit "medium";
  let size := asStringOr size0 "medium" in
  hitPoints ← qdot (qdot (dot system "attributes") "hp") "max"
              <||> qdot (dot system "hp") "max"
              <||> qdot (qdot (dot system "attributes") "hp") "value"
              <||> qdot (dot system "hp") "value"
              <||> qdot (dot system "health") "max"
              <||> qdot (dot system "health") "value" <||> Ok (JNum 0);
  armorClass ← qdot (qdot (dot system "attributes") "ac") "value"
               <||> qdot (dot system "ac") "value"
               <||> qdot (dot system "attributes") "ac" <||> dot system "ac"
               <||> qdot (dot system "armor") "value" <||> dot system "armor"
               <||> Ok (JNum 10);
  alignment0 ← qdot (qdot (dot system "details") "alignment") "value"
               <||> qdot (dot system "details") "alignment"
               <||> qdot (dot system "alignment") "value"
               <||> dot system "alignment" <||> lit "unaligned";
  let alignment := asStringOr alignment0 "unaligned" in
  spells ← dot system "spells"
           <||> qdot (dot system "attributes") "spellcasting"
           <||> (qdot (dot system "details") "spellLevel"
                 <&&> gt0 (dot (dot system "details") "spellLevel"))
           <||> (qdot (dot system "resources") "spell"
                 <&&> gt0 (dot (dot (dot system "resources") "spell") "max"))
           <||> dot system "spellcasting"
           <||> qdot (dot system "traits") "spellcasting"
           <||> qdot (dot system "details") "spellcaster";
  legendary ← qdot (dot system "resources") "legact"
              <||> dot system "legendary"
              <||> (qdot (dot system "resources") "legres"
                    <&&> gt0 (dot (dot (dot system "resources") "legres") "value"))
              <||> qdot (dot system "details") "legendary"
              <||> qdot (dot system "traits") "legendary"
              <||> (qdot (dot system "resources") "legendary"
                    <&&> gt0 (dot (dot (dot system "resources") "legendary") "max"));
  description ← qdot (qdot (readSystem doc) "details") "biography"
                <||> qdot (readSystem doc) "description" <||> lit "";
  Ok {| d5_id := doc_id doc;
        d5_name := doc_name doc;
        d5_type := doc_type doc;
        d5_pack := pack_id pack;
        d5_packLabel := pack_label pack;
        d5_challengeRating := challengeRating;
        d5_creatureType := toLowerCase creatureType;
        d5_size := toLowerCase size;
        d5_hitPoints := hitPoints;
        d5_armorClass := armorClass;
        d5_hasSpells := truthy spells;
        d5_hasLegendaryActions := truthy legendary;
        d5_alignment := toLowerCase alignment;
        d5_description := description;
        d5_img := doc_img doc |}.

(** [doc.img || ''] *)
Definition imgOrEmpty (doc : Doc) : option jsstring :=
  match doc_img doc with
  | Some ((_ :: _) as i) => Some i
  | _ => Some []
  end.

(** The record of the [catch] block of [extractDnD5eCreatureData]. *)
Definition fallbackDnD5e (doc : Doc) (pack : Pack) : DnD5eCreatureIndex :=
  {| d5_id := doc_id doc;
     d5_name := doc_name doc;
     d5_type := doc_type doc;
     d5_pack := pack_id pack;
     d5_packLabel := pack_label pack;
     d5_challengeRating := 0;
     d5_creatureType := js "unknown";
     d5_size := js "medium";
     d5_hitPoints := JNum 1;
     d5_armorClass := JNum 10;
     d5_hasSpells := false;
     d5_hasLegendaryActions := false;
     d5_alignment := js "unaligned";
     d5_description := JStr (js "Data extraction failed");
     d5_img := imgOrEmpty doc |}.

(** [{ creature, errors }]; the function never returns null. *)
Definition extractDnD5eCreatureData (doc : Doc) (pack : Pack)
    : DnD5eCreatureIndex * nat :=
  match extractDnD5eCreatureData_try doc pack with
  | Ok creature => (creature, O)
  | Throw _ => (fallbackDnD5e doc pack, 1%nat)
  end.

(** [doc.type !== 'npc' && doc.type !== 'character'] decides the [continue]. *)
Definition isCreatureDoc (doc : Doc) : bool :=
  streq (doc_type doc) (js "npc") || streq (doc_type doc) (js "character").

(** The loop over the documents of a pack: [creatures] and [errors] are the
    two accumulators of [extractDnD5eDataFromPack]. *)
Fixpoint extractDnD5eDocs (pack : Pack) (documents : list Doc)
    (creatures : list DnD5eCreatureIndex) (errors : nat)
    : list DnD5eCreatureIndex * nat :=
  match documents with
  | [] => (creatures, errors)
  | doc :: rest =>
      if negb (isCreatureDoc doc) then extractDnD5eDocs pack rest creatures errors
      else
        let '(creature, e) := extractDnD5eCreatureData doc pack in
        extractDnD5eDocs pack rest (creatures ++ [creature]) (errors + e)%nat
  end.

Definition extractDnD5eDataFromPack (pack : Pack) : list DnD5eCreatureIndex * nat :=
  match pack_getDocuments pack with
  | Some documents => extractDnD5eDocs pack documents [] O
  | None => ([], 1%nat)
  end.

(** ** Extraction, Pathfinder 2e *)

Definition creatureTraits : list jsstring :=
  map js ["aberration"; "animal"; "beast"; "celestial"; "construct"; "dragon";
          "elemental"; "fey"; "fiend"; "fungus"; "humanoid"; "monitor"; "ooze";
          "plant"; "undead"]%string.

(** [traits.find(t => creatureTraits.includes(t.toLowerCase()))]: the
    callback throws on the first element that is not a string. *)
Fixpoint findCreatureTrait (traits : list JVal) : result (option jsstring) :=
  match traits with
  | [] => Ok None
  | JStr t :: rest =>
      if existsb (streq (toLowerCase t)) creatureTraits then Ok (Some t)
      else findCreatureTrait rest
  | _ :: _ => Throw TypeError
  end.

Definition sizeMap : list (jsstring * jsstring) :=
  [(js "tiny", js "tiny"); (js "sm", js "small"); (js "med", js "medium");
   (js "lg", js "large"); (js "huge", js "huge"); (js "grg", js "gargantuan")].

(** [sizeMap[key] || 'medium'], for the keys of the table itself: the names
    an object literal inherits ([constructor], [__proto__]) are not keys
    here. *)
Definition sizeMapLookup (key : jsstring) : jsstring :=
  match find (fun kv => streq (fst kv) key) sizeMap with
  | Some kv => snd kv
  | None => js "medium"
  end.

(** [Object.keys(v).length > 0] for a truthy [v]. *)
Definition hasOwnKeys (v : JVal) : bool :=
  match v with
  | JObj props => negb (bool_decide (props = []))
  | JArr elems => negb (bool_decide (elems = []))
  | JStr s => negb (bool_decide (s = []))
  | _ => false
  end.

(** The [try] block of [extractPF2eCreatureData]. *)
Definition extractPF2eCreatureData_try (doc : Doc) (pack : Pack)
    : result PF2eCreatureIndex :=
  s ← readSystem doc;
  let system : result JVal := Ok (if truthy s then s else JObj []) in
  level0 ← qdot (qdot (dot system "details") "level") "value" <??> Ok (JNum 0);
  let level := numberOrZero level0 in
  traitsValue ← qdot (dot system "traits") "value" <||> Ok (JArr []);
  let traits := match traitsValue with JArr l => l | _ => [] end in
  found ← findCreatureTrait traits;
  let creatureType :=
    match found with
    | Some t => match toLowerCase t with [] => js "unknown" | l => l end
    | None => js "unknown"
    end in
  rarity ← qdot (dot system "traits") "rarity" <||> lit "common";
  size0 ← qdot (qdot (dot system "traits") "size") "value" <||> lit "med";
  size ← match size0 with
         | JStr z => Ok (sizeMapLookup (toLowerCase z))
         | _ => Throw TypeError
         end;
  hitPoints ← qdot (qdot (dot system "attributes") "hp") "max" <||> Ok (JNum 0);
  armorClass ← qdot (qdot (dot system "attributes") "ac") "value" <||> Ok (JNum 10);
  spellcasting ← dot system "spellcasting" <||> Ok (JObj []);
  let hasSpells := hasOwnKeys spellcasting in
  alignment0 ← qdot (qdot (dot system "details") "alignment") "value" <||> lit "N";
  let alignment := asStringOr alignment0 "N" in
  description ← qdot (dot system "details") "publicNotes"
                <||> qdot (dot system "details") "biography" <||> lit "";
  Ok {| pf_id := doc_id doc;
        pf_name := doc_name doc;
        pf_type := doc_type doc;
        pf_pack := pack_id pack;
        pf_packLabel := pack_label pack;
        pf_level := level;
        pf_traits := traits;
        pf_creatureType := creatureType;
        pf_rarity := rarity;
        pf_size := size;
        pf_hitPoints := hitPoints;
        pf_armorClass := armorClass;
        pf_hasSpells := hasSpells;
        pf_alignment := toUpperCase alignment;
        pf_description := description;
        pf_img := doc_img doc |}.

Definition fallbackPF2e (doc : Doc) (pack : Pack) : PF2eCreatureIndex :=
  {| pf_id := doc_id doc;
     pf_name := doc_name doc;
     pf_type := doc_type doc;
     pf_pack := pack_id pack;
     pf_packLabel := pack_label pack;
     pf_level := 0;
     pf_traits := [];
     pf_creatureType := js "unknown";
     pf_rarity := JStr (js "common");
     pf_size := js "medium";
     pf_hitPoints := JNum 1;
     pf_armorClass := JNum 10;
     pf_hasSpells := false;
     pf_alignment := js "N";
     pf_description := JStr (js "Data extraction failed");
     pf_img := imgOrEmpty doc |}.

Definition extractPF2eCreatureData (doc : Doc) (pack : Pack)
    : PF2eCreatureIndex * nat :=
  match extractPF2eCreatureData_try doc pack with
  | Ok creature => (creature, O)
  | Throw _ => (fallbackPF2e doc pack, 1%nat)
  end.

Fixpoint extractPF2eDocs (pack : Pack) (documents : list Doc)
    (creatures : list PF2eCreatureIndex) (errors : nat)
    : list PF2eCreatureIndex * nat :=
  match documents with
  | [] => (creatures, errors)
  | doc :: rest =>
      if negb (isCreatureDoc doc) then extractPF2eDocs pack rest creatures errors
      else
        let '(creature, e) := extractPF2eCreatureData doc pack in
        extractPF2eDocs pack rest (creatures ++ [creature]) (errors + e)%nat
  end.

Definition extractPF2eDataFromPack (pack : Pack) : list PF2eCreatureIndex * nat :=
  match pack_getDocuments pack with
  | Some documents => extractPF2eDocs pack documents [] O
  | None => ([], 1%nat)
  end.

(** ** The index builders *)

Definition setBuildInProgress (b : bool) (w : World) : World :=
  {| systemId := systemId w;
     packs := packs w;
     buildInProgress := b;
     indexFile := indexFile w;
     now := now w;
     uploadOutcome := uploadOutcome w;
     uploads := uploads w;
     enableEnhancedCreatureIndex := enableEnhancedCreatureIndex w |}.

Definition setPacks (ps : list Pack) (w : World) : World :=
  {| systemId := systemId w;
     packs := ps;
     buildInProgress := buildInProgress w;
     indexFile := indexFile w;
     now := now w;
     uploadOutcome := uploadOutcome w;
     uploads := uploads w;
     enableEnhancedCreatureIndex := enableEnhancedCreatureIndex w |}.

(** [await pack.getIndex({})]: the loaded index replaces the pack's index. *)
Definition getIndex (pack : Pack) : option Pack :=
  match pack_getIndex pack with
  | Some entries =>
      Some {| pack_id := pack_id pack;
              pack_label := pack_label pack;
              pack_type := pack_type pack;
              pack_lastModified := pack_lastModified pack;
              pack_indexed := true;
              pack_index := Some entries;
              pack_getIndex := pack_getIndex pack;
              pack_getDocuments := pack_getDocuments pack |}
  | None => None
  end.

(** [if (!pack.indexed) await pack.getIndex({})] *)
Definition ensureIndexed (pack : Pack) : option Pack :=
  if pack_indexed pack then Some pack else getIndex pack.

(** What a build has gathered so far: [enhancedCreatures], [packFingerprints]
    and [totalErrors]. *)
Record BuildAcc : Type := {
  enhancedCreatures : list EnhancedCreatureIndex;
  packFingerprints : gmap (list N) PackFingerprint;
  totalErrors : nat
}.

Definition emptyAcc : BuildAcc :=
  {| enhancedCreatures := []; packFingerprints := ∅; totalErrors := O |}.

(** The body of the pack loop of [buildDnD5eIndex], a [try] whose [catch]
    only warns: a pack whose index cannot be loaded or whose fingerprint
    cannot be computed leaves the accumulators as they are.  The calls to
    [ui.notifications], which only display progress, are left out. *)
Definition processPackDnD5e (w : World) (pack : Pack) (acc : BuildAcc)
    : Pack * BuildAcc :=
  match ensureIndexed pack with
  | None => (pack, acc)
  | Some pack1 =>
      match generatePackFingerprint w pack1 with
      | Throw _ => (pack1, acc)
      | Ok fingerprint =>
          let packResult := extractDnD5eDataFromPack pack1 in
          (pack1,
           {| enhancedCreatures :=
                enhancedCreatures acc ++ map DnD5e (fst packResult);
              packFingerprints :=
                <[pack_id pack1 := fingerprint]> (packFingerprints acc);
              totalErrors := (totalErrors acc + snd packResult)%nat |})
      end
  end.

(** The loop over [game.packs], taking the packs of type Actor in order;
    the first component is [game.packs] after the loop. *)
Fixpoint buildDnD5ePacks (w : World) (ps : list Pack) (acc : BuildAcc)
    : list Pack * BuildAcc :=
  match ps with
  | [] => ([], acc)
  | pack :: rest =>
      if isActorPack pack then
        let '(pack1, acc1) := processPackDnD5e w pack acc in
        let '(rest1, acc2) := buildDnD5ePacks w rest acc1 in
        (pack1 :: rest1, acc2)
      else
        let '(rest1, acc2) := buildDnD5ePacks w rest acc in
        (pack :: rest1, acc2)
  end.

Definition makePersistentIndex (w : World) (gameSystem : string) (acc : BuildAcc)
    : PersistentEnhancedIndex :=
  {| metadata :=
       {| md_version := INDEX_VERSION;
          md_timestamp := now w;
          md_packFingerprints := packFingerprints acc;
          md_totalCreatures := length (enhancedCreatures acc);
          md_gameSystem := js gameSystem |};
     creatures := enhancedCreatures acc |}.

(** The write and the [return] that end both builders; [finally] clears the
    flag whatever happened. *)
Definition saveAndReturn (w : World) (gameSystem : string) (acc : BuildAcc)
    : result (list EnhancedCreatureIndex) * World :=
  let '(saved, w1) := savePersistedIndex w (makePersistentIndex w gameSystem acc) in
  (match saved with
   | Ok _ => Ok (enhancedCreatures acc)
   | Throw error => Throw error
   end,
   setBuildInProgress false w1).

Definition buildDnD5eIndex (w : World) : result (list EnhancedCreatureIndex) * World :=
  let w1 := setBuildInProgress true w in
  let '(packs1, acc) := buildDnD5ePacks w1 (packs w1) emptyAcc in
  saveAndReturn (setPacks packs1 w1) "dnd5e" acc.

(** The pack loop of [buildPF2eIndex]: nothing inside it is caught. *)
Fixpoint buildPF2ePacks (w : World) (ps : list Pack) (acc : BuildAcc)
    : result BuildAcc :=
  match ps with
  | [] => Ok acc
  | pack :: rest =>
      if isActorPack pack then
        fingerprint ← generatePackFingerprint w pack;
        let result := extractPF2eDataFromPack pack in
        buildPF2ePacks w rest
          {| enhancedCreatures := enhancedCreatures acc ++ map PF2e (fst result);
             packFingerprints := <[pack_id pack := fingerprint]> (packFingerprints acc);
             totalErrors := (totalErrors acc + snd result)%nat |}
      else buildPF2ePacks w rest acc
  end.

Definition buildPF2eIndex (w : World) : result (list EnhancedCreatureIndex) * World :=
  let w1 := setBuildInProgress true w in
  match buildPF2ePacks w1 (packs w1) emptyAcc with
  | Ok acc => saveAndReturn w1 "pf2e" acc
  | Throw error => (Throw error, setBuildInProgress false w1)
  end.

Definition buildInProgressMessage : jsstring := js "Index build already in progress".

Definition buildEnhancedIndex (force : bool) (w : World)
    : result (list EnhancedCreatureIndex) * World :=
  if buildInProgress w && negb force then (Throw (Error buildInProgressMessage), w)
  else
    let gameSystem := systemId w in
    if streq gameSystem (js "pf2e") then buildPF2eIndex w
    else if streq gameSystem (js "dnd5e") then buildDnD5eIndex w
    else
      (Throw (Error (js "Enhanced creature index not supported for system: "
                       ++ gameSystem
                       ++ js ". Only D&D 5e and Pathfinder 2e are currently supported.")),
       w).

(** ** Entry points of the index *)

Definition getEnhancedIndex (w : World) : result (list EnhancedCreatureIndex) * World :=
  match loadPersistedIndex w with
  | Some existingIndex =>
      match isIndexValid w existingIndex with
      | Ok true => (Ok (creatures existingIndex), w)
      | Ok false => buildEnhancedIndex false w
      | Throw error => (Throw error, w)
      end
  | None => buildEnhancedIndex false w
  end.

(** [rebuildIndex()] takes no argument and always forces. *)
Definition rebuildIndex (w : World) : result (list EnhancedCreatureIndex) * World :=
  buildEnhancedIndex true w.

(** ** Query criteria *)

(** [number | { min?: number; max?: number }] *)
Inductive NumericCriterion : Type :=
| Exact (n : Q)
| Range (min max : option Q).

(** The criteria object; [None] is a field left out. *)
Record Criteria : Type := {
  c_challengeRating : option NumericCriterion;
  c_level : option NumericCriterion;
  c_traits : option (list jsstring);
  c_rarity : option jsstring;
  c_creatureType : option jsstring;
  c_size : option jsstring;
  c_hasSpells : option bool;
  c_hasLegendaryActions : option bool;
  c_limit : option Z
}.

(** [if (criteria.field)] on an optional string: set and not empty. *)
Definition given (field : option jsstring) : option jsstring :=
  match field with
  | Some ((_ :: _) as v) => Some v
  | _ => None
  end.

Definition differsIgnoringCase (a b : jsstring) : bool :=
  negb (streq (toLowerCase a) (toLowerCase b)).

Definition passesDnD5eCriteria (creature : DnD5eCreatureIndex) (criteria : Criteria) : bool :=
  if match c_challengeRating criteria with
     | Some (Exact n) => negb (Qeq_bool (d5_challengeRating creature) n)
     | Some (Range min max) =>
         match min with
         | Some lo => negb (Qle_bool lo (d5_challengeRating creature))
         | None => false
         end
         || match max with
            | Some hi => negb (Qle_bool (d5_challengeRating creature) hi)
            | None => false
            end
     | None => false
     end
  then false
  else if match given (c_creatureType criteria) with
          | Some t => differsIgnoringCase (d5_creatureType creature) t
          | None => false
          end
  then false
  else if match given (c_size criteria) with
          | Some z => differsIgnoringCase (d5_size creature) z
          | None => false
          end
  then false
  else if match c_hasSpells criteria with
          | Some b => negb (Bool.eqb (d5_hasSpells creature) b)
          | None => false
          end
  then false
  else if match c_hasLegendaryActions criteria with
          | Some b => negb (Bool.eqb (d5_hasLegendaryActions creature) b)
          | None => false
          end
  then false
  else true.

(** [creature.traits.some(t => t.toLowerCase() === requiredTrait.toLowerCase())] *)
Fixpoint someTrait (traits : list JVal) (requiredTrait : jsstring) : result bool :=
  match traits with
  | [] => Ok false
  | JStr t :: rest =>
      if streq (toLowerCase t) (toLowerCase requiredTrait) then Ok true
      else someTrait rest requiredTrait
  | _ :: _ => Throw TypeError
  end.

(** [criteria.traits.every(requiredTrait => ...)] *)
Fixpoint everyTrait (traits : list JVal) (required : list jsstring) : result bool :=
  match required with
  | [] => Ok true
  | requiredTrait :: rest =>
      found ← someTrait traits requiredTrait;
      if (found : bool) then everyTrait traits rest else Ok false
  end.

Definition passesPF2eCriteria (creature : PF2eCreatureIndex) (criteria : Criteria)
    : result bool :=
  if match c_level criteria with
     | Some (Exact n) => negb (Qeq_bool (pf_level creature) n)
     | Some (Range min max) =>
         let lo := match min with Some m => m | None => (-1)%Q end in
         let hi := match max with Some m => m | None => 25%Q end in
         negb (Qle_bool lo (pf_level creature)) || negb (Qle_bool (pf_level creature) hi)
     | None => false
     end
  then Ok false
  else
    hasAllTraits ←
      match c_traits criteria return result bool with
      | Some ((_ :: _) as required) => everyTrait (pf_traits creature) required
      | _ => Ok true
      end;
    if negb (hasAllTraits : bool) then Ok false
    else if match given (c_rarity criteria) with
            | Some r => match pf_rarity creature with
                        | JStr own => negb (streq own r)
                        | _ => true
                        end
            | None => false
            end
    then Ok false
    else if match given (c_creatureType criteria) with
            | Some t => differsIgnoringCase (pf_creatureType creature) t
            | None => false
            end
    then Ok false
    else if match given (c_size criteria) with
            | Some z => differsIgnoringCase (pf_size creature) z
            | None => false
            end
    then Ok false
    else if match c_hasSpells criteria with
            | Some b => negb (Bool.eqb (pf_hasSpells creature) b)
            | None => false
            end
    then Ok false
    else Ok true.

Definition passesEnhancedCriteria (creature : EnhancedCreatureIndex) (criteria : Criteria)
    : result bool :=
  match creature with
  | PF2e c => passesPF2eCriteria c criteria
  | DnD5e c => Ok (passesDnD5eCriteria c criteria)
  end.

(** [enhancedCreatures.filter(creature => this.passesEnhancedCriteria(...))] *)
Fixpoint filterByCriteria (l : list EnhancedCreatureIndex) (criteria : Criteria)
    : result (list EnhancedCreatureIndex) :=
  match l with
  | [] => Ok []
  | creature :: rest =>
      keep ← passesEnhancedCriteria creature criteria;
      kept ← filterByCriteria rest criteria;
      Ok (if (keep : bool) then creature :: kept else kept)
  end.

(** ** Fields shared by the two dialects *)

Definition power (c : EnhancedCreatureIndex) : Q :=
  match c with PF2e p => pf_level p | DnD5e d => d5_challengeRating d end.
Definition creatureId (c : EnhancedCreatureIndex) : jsstring :=
  match c with PF2e p => pf_id p | DnD5e d => d5_id d end.
Definition creatureName (c : EnhancedCreatureIndex) : jsstring :=
  match c with PF2e p => pf_name p | DnD5e d => d5_name d end.
Definition creatureDocType (c : EnhancedCreatureIndex) : jsstring :=
  match c with PF2e p => pf_type p | DnD5e d => d5_type d end.
Definition creaturePack (c : EnhancedCreatureIndex) : jsstring :=
  match c with PF2e p => pf_pack p | DnD5e d => d5_pack d end.
Definition creaturePackLabel (c : EnhancedCreatureIndex) : jsstring :=
  match c with PF2e p => pf_packLabel p | DnD5e d => d5_packLabel d end.
Definition creatureKind (c : EnhancedCreatureIndex) : jsstring :=
  match c with PF2e p => pf_creatureType p | DnD5e d => d5_creatureType d end.
Definition creatureDescription (c : EnhancedCreatureIndex) : JVal :=
  match c with PF2e p => pf_description p | DnD5e d => d5_description d end.
Definition creatureImg (c : EnhancedCreatureIndex) : option jsstring :=
  match c with PF2e p => pf_img p | DnD5e d => d5_img d end.

(** ** Sorting *)

(** [Array.prototype.sort] is stable and, for a consistent comparator,
    returns the one sorted stable arrangement; insertion from the right
    computes it.  [cmp a b] is the sign of the comparator's number. *)
Section Sort.
Context {A : Type} (cmp : A -> A -> comparison).

Fixpoint insertSorted (x : A) (l : list A) : list A :=
  match l with
  | [] => [x]
  | y :: r =>
      match cmp x y with
      | Gt => y :: insertSorted x r
      | _ => x :: l
      end
  end.

Fixpoint sortBy (l : list A) : list A :=
  match l with
  | [] => []
  | x :: r => insertSorted x (sortBy r)
  end.

(** The comparator answers zero: a tie. *)
Definition tiedWith (z y : A) : bool :=
  match cmp z y with Eq => true | _ => false end.
End Sort.

(** ** Query results *)

Record CompendiumSearchResult : Type := {
  sr_id : jsstring;
  sr_name : jsstring;
  sr_type : jsstring;
  sr_img : option jsstring;
  sr_pack : jsstring;
  sr_packLabel : jsstring;
  sr_description : jsstring;
  sr_hasImage : bool;
  sr_summary : jsstring
}.

(** An entry of the structured result; [er_creature] carries the fields the
    code copies over unchanged (power metric, traits, rarity, creature type,
    size, hit points, armor class, spell and legendary flags, alignment). *)
Record EnhancedResult : Type := {
  er_id : jsstring;
  er_name : jsstring;
  er_type : jsstring;
  er_pack : jsstring;
  er_packLabel : jsstring;
  er_description : JVal;
  er_hasImage : bool;
  er_summary : jsstring;
  er_creature : EnhancedCreatureIndex
}.

Inductive ResultEntry : Type :=
| EnhancedEntry (r : EnhancedResult)
| BasicEntry (r : CompendiumSearchResult).

Record SearchSummary : Type := {
  packsSearched : nat;
  topPacks : list (jsstring * jsstring);       (* id and label *)
  totalCreaturesFound : nat;
  resultsByPack : gmap (list N) nat;
  summaryCriteria : Criteria;                   (* the criteria, echoed *)
  totalIndexedCreatures : option nat;
  fallback : bool;
  searchMethod : jsstring
}.

Record QueryResult : Type := {
  qr_creatures : list ResultEntry;
  searchSummary : SearchSummary
}.

(** [!!img] *)
Definition hasImg (img : option jsstring) : bool :=
  match img with Some (_ :: _) => true | _ => false end.

Definition toEnhancedResult (creature : EnhancedCreatureIndex) : EnhancedResult :=
  {| er_id := creatureId creature;
     er_name := creatureName creature;
     er_type := creatureDocType creature;
     er_pack := creaturePack creature;
     er_packLabel := creaturePackLabel creature;
     er_description :=
       if truthy (creatureDescription creature) then creatureDescription creature
       else JStr [];
     er_hasImage := hasImg (creatureImg creature);
     er_summary :=
       match creature with
       | PF2e p =>
           js "Level " ++ numberToString (pf_level p) ++ js " " ++ pf_creatureType p
             ++ js " (" ++ toStringJ (pf_rarity p) ++ js ") from " ++ pf_packLabel p
       | DnD5e d =>
           js "CR " ++ numberToString (d5_challengeRating d) ++ js " "
             ++ d5_creatureType d ++ js " from " ++ d5_packLabel d
       end;
     er_creature := creature |}.

(** [Array.from(new Set(xs))]: first occurrences, in order. *)
Definition unique (xs : list jsstring) : list jsstring :=
  fold_left (fun seen x => if existsb (streq x) seen then seen else seen ++ [x]) xs [].

(** The per-label counts gathered in [packResults]. *)
Definition countByPack (results : list EnhancedResult) : gmap (list N) nat :=
  fold_left
    (fun (m : gmap (list N) nat) r =>
       <[er_packLabel r := (default O (m !! er_packLabel r) + 1)%nat]> m)
    results ∅.

(** [criteria.limit || 500] *)
Definition effectiveLimit (criteria : Criteria) : Z :=
  match c_limit criteria with
  | Some l => if l =? 0 then 500 else l
  | None => 500
  end.

(** [if (xs.length > limit) xs = xs.slice(0, limit)] *)
Definition applyLimit {A} (xs : list A) (limit : Z) : list A :=
  if Z.of_nat (length xs) >? limit then slice0 xs limit else xs.

Section Query.

(** [a.localeCompare(b)], the sign of it: the collation of the host's
    locale. *)
Variable localeCompare : jsstring -> jsstring -> comparison.

(** The comparator of the structured query: power metric, then name. *)
Definition compareCreatures (a b : EnhancedCreatureIndex) : comparison :=
  match Qcompare (power a) (power b) with
  | Eq => localeCompare (creatureName a) (creatureName b)
  | c => c
  end.

(** The [try] block of [listCreaturesByCriteria] once the index is there. *)
Definition listFromIndex (enhancedCreatures : list EnhancedCreatureIndex)
    (criteria : Criteria) (limit : Z) : result QueryResult :=
  filteredCreatures ← filterByCriteria enhancedCreatures criteria;
  let sorted := sortBy compareCreatures filteredCreatures in
  let limited := applyLimit sorted limit in
  let results := map toEnhancedResult limited in
  let uniquePacks := unique (map creaturePack enhancedCreatures) in
  let topPacks :=
    map (fun packId =>
           (packId,
            match find (fun c => streq (creaturePack c) packId) enhancedCreatures with
            | Some (sample) =>
                match creaturePackLabel sample with
                | [] => js "Unknown Pack"
                | label => label
                end
            | None => js "Unknown Pack"
            end))
        (slice0 uniquePacks 5) in
  Ok {| qr_creatures := map EnhancedEntry results;
        searchSummary :=
          {| packsSearched := length uniquePacks;
             topPacks := topPacks;
             totalCreaturesFound := length results;
             resultsByPack := countByPack results;
             summaryCriteria := criteria;
             totalIndexedCreatures := Some (length enhancedCreatures);
             fallback := false;
             searchMethod := js "enhanced_persistent_index" |} |}.

(** *** Free-text search *)

Definition queryTooShortMessage : jsstring :=
  js "Search query must be a string with at least 2 characters".
Definition noTermsMessage : jsstring :=
  js "Search query must contain valid search terms".

(** [cleanQuery.split(' ').filter(term => term && ... term.length > 0)] *)
Definition searchTermsOf (query : jsstring) : list jsstring :=
  filter (fun term => term ≠ []) (split 32 (trim (toLowerCase query))).

(** The pack filter of [searchCompendium]. *)
Definition packSearched (packType : option jsstring) (pack : Pack) : bool :=
  match given packType with
  | Some t => if negb (streq (pack_type pack) t) then false
              else negb (streq (pack_type pack) (js "Scene"))
  | None => negb (streq (pack_type pack) (js "Scene"))
  end.

Definition toSearchResult (pack : Pack) (name : jsstring) (entry : IndexEntry)
    : CompendiumSearchResult :=
  {| sr_id := default [] (entry_id entry);
     sr_name := name;
     sr_type := match given (entry_type entry) with
                | Some t => t
                | None => js "unknown"
                end;
     sr_img := given (entry_img entry);
     sr_pack := pack_id pack;
     sr_packLabel := pack_label pack;
     sr_description := default [] (entry_description entry);
     sr_hasImage := hasImg (entry_img entry);
     sr_summary := default (js "undefined") (entry_type entry)
                     ++ js " from " ++ pack_label pack |}.

(** The loop over the index entries of one pack; [results] is shared by
    all packs and the loop stops at a hundred. *)
Fixpoint searchEntries (pack : Pack) (searchTerms : list jsstring)
    (entries : list IndexEntry) (results : list CompendiumSearchResult)
    : list CompendiumSearchResult :=
  match entries with
  | [] => results
  | entry :: rest =>
      match entry_name entry with
      | Some name =>
          if bool_decide (name = []) || bool_decide (trim name = [])
          then searchEntries pack searchTerms rest results
          else
            let entryNameLower := toLowerCase name in
            let nameMatch := forallb (fun term => includes entryNameLower term) searchTerms in
            let results1 :=
              if nameMatch then results ++ [toSearchResult pack name entry] else results in
            if (100 <=? length results1)%nat then results1
            else searchEntries pack searchTerms rest results1
      | None => searchEntries pack searchTerms rest results
      end
  end.

(** The [try] around one pack: a pack whose index cannot be loaded adds
    nothing. *)
Definition searchPack (searchTerms : list jsstring) (pack : Pack)
    (results : list CompendiumSearchResult) : Pack * list CompendiumSearchResult :=
  match ensureIndexed pack with
  | None => (pack, results)
  | Some pack1 =>
      match pack_index pack1 with
      | None => (pack1, results)
      | Some entries => (pack1, searchEntries pack1 searchTerms entries results)
      end
  end.

Fixpoint searchPacks (packType : option jsstring) (searchTerms : list jsstring)
    (ps : list Pack) (results : list CompendiumSearchResult)
    : list Pack * list CompendiumSearchResult :=
  match ps with
  | [] => ([], results)
  | pack :: rest =>
      if packSearched packType pack then
        let '(pack1, results1) := searchPack searchTerms pack results in
        if (100 <=? length results1)%nat then (pack1 :: rest, results1)
        else
          let '(rest1, results2) := searchPacks packType searchTerms rest results1 in
          (pack1 :: rest1, results2)
      else
        let '(rest1, results2) := searchPacks packType searchTerms rest results in
        (pack :: rest1, results2)
  end.

(** The comparator of the free-text search without filters: exact name
    first, then alphabetical. *)
Definition compareSearchResults (query : jsstring) (a b : CompendiumSearchResult)
    : comparison :=
  let aExact := streq (toLowerCase (sr_name a)) (toLowerCase query) in
  let bExact := streq (toLowerCase (sr_name b)) (toLowerCase query) in
  if aExact && negb bExact then Lt
  else if negb aExact && bExact then Gt
  else localeCompare (sr_name a) (sr_name b).

(** [searchCompendium(query, packType)], the call without filters. *)
Definition searchCompendium (query : jsstring) (packType : option jsstring) (w : World)
    : result (list CompendiumSearchResult) * World :=
  if bool_decide (query = []) || (length (trim query) <? 2)%nat
  then (Throw (Error queryTooShortMessage), w)
  else
    let searchTerms := searchTermsOf query in
    if (length searchTerms =? 0)%nat then (Throw (Error noTermsMessage), w)
    else
      let '(packs1, results) := searchPacks packType searchTerms (packs w) [] in
      (Ok (slice0 (sortBy (compareSearchResults query) results) 50), setPacks packs1 w).

Definition fallbackBasicCreatureSearch (criteria : Criteria) (limit : Z) (w : World)
    : result QueryResult * World :=
  let typeTerms :=
    match given (c_creatureType criteria) with
    | Some t => [t]
    | None => []
    end in
  let crTerms :=
    match c_challengeRating criteria with
    | Some (Exact n) =>
        if Qeq_bool n 0 then []
        else if Qle_bool 15 n then [js "ancient"; js "legendary"]
        else if Qle_bool 10 n then [js "adult"; js "champion"]
        else if Qle_bool 5 n then [js "captain"; js "knight"]
        else []
    | _ => []
    end in
  let searchQuery :=
    match join (js " ") (typeTerms ++ crTerms) with
    | [] => js "monster"
    | q => q
    end in
  let '(found, w1) := searchCompendium searchQuery (Some (js "Actor")) w in
  (basicResults ← found;
   Ok {| qr_creatures := map BasicEntry (slice0 basicResults limit);
         searchSummary :=
           {| packsSearched := O;
              topPacks := [];
              totalCreaturesFound := length basicResults;
              resultsByPack := ∅;
              summaryCriteria := criteria;
              totalIndexedCreatures := None;
              fallback := true;
              searchMethod := js "basic_fallback" |} |},
   w1).

Definition listCreaturesByCriteria (criteria : Criteria) (w : World)
    : result QueryResult * World :=
  let limit := effectiveLimit criteria in
  if negb (enableEnhancedCreatureIndex w) then fallbackBasicCreatureSearch criteria limit w
  else
    let '(index, w1) := getEnhancedIndex w in
    match (enhancedCreatures ← index; listFromIndex enhancedCreatures criteria limit) with
    | Ok answer => (Ok answer, w1)
    | Throw _ => fallbackBasicCreatureSearch criteria limit w1
    end.

End Query.

(** ** Notions the statements use *)

(** Criteria that ask for nothing. *)
Definition noCriteria : Criteria :=
  {| c_challengeRating := None; c_level := None; c_traits := None;
     c_rarity := None; c_creatureType := None; c_size := None;
     c_hasSpells := None; c_hasLegendaryActions := None; c_limit := None |}.

Definition withChallengeRating (criteria : Criteria)
    (challengeRating : option NumericCriterion) : Criteria :=
  {| c_challengeRating := challengeRating;
     c_level := c_level criteria;
     c_traits := c_traits criteria;
     c_rarity := c_rarity criteria;
     c_creatureType := c_creatureType criteria;
     c_size := c_size criteria;
     c_hasSpells := c_hasSpells criteria;
     c_hasLegendaryActions := c_hasLegendaryActions criteria;
     c_limit := c_limit criteria |}.

Definition setLimit (criteria : Criteria) (limit : option Z) : Criteria :=
  {| c_challengeRating := c_challengeRating criteria;
     c_level := c_level criteria;
     c_traits := c_traits criteria;
     c_rarity := c_rarity criteria;
     c_creatureType := c_creatureType criteria;
     c_size := c_size criteria;
     c_hasSpells := c_hasSpells criteria;
     c_hasLegendaryActions := c_hasLegendaryActions criteria;
     c_limit := limit |}.

(** The criteria with the power metric asked to lie in [[lo, hi]], in the
    field of either dialect. *)
Definition withPowerRange (criteria : Criteria) (lo hi : Q) : Criteria :=
  {| c_challengeRating := Some (Range (Some lo) (Some hi));
     c_level := Some (Range (Some lo) (Some hi));
     c_traits := c_traits criteria;
     c_rarity := c_rarity criteria;
     c_creatureType := c_creatureType criteria;
     c_size := c_size criteria;
     c_hasSpells := c_hasSpells criteria;
     c_hasLegendaryActions := c_hasLegendaryActions criteria;
     c_limit := c_limit criteria |}.

Definition powerRange (lo hi : Q) : Criteria := withPowerRange noCriteria lo hi.

(** *** Validity *)

(** A live pack is matched when its fresh fingerprint can be computed and a
    stored one agrees with it on document count and checksum. *)
Definition packMatched (w : World) (saved : gmap (list N) PackFingerprint)
    (p : Pack) : Prop :=
  exists current stored,
    generatePackFingerprint w p = Ok current /\
    saved !! pack_id p = Some stored /\
    fp_documentCount current = fp_documentCount stored /\
    fp_checksum current = fp_checksum stored.

(** The rule of the validity check: version, game system, every live Actor
    pack matched, no stored fingerprint of a pack that is gone. *)
Definition ValidIndex (w : World) (index : PersistentEnhancedIndex) : Prop :=
  md_version (metadata index) = INDEX_VERSION /\
  md_gameSystem (metadata index) = systemId w /\
  (forall p, p ∈ packs w -> isActorPack p = true ->
             packMatched w (md_packFingerprints (metadata index)) p) /\
  (forall packId, is_Some (md_packFingerprints (metadata index) !! packId) ->
                  is_Some (packs_get w packId)).

(** *** Builds *)

(** The pack as the D&D builder sees it once its index is loaded. *)
Definition indexedPack (p : Pack) : Pack :=
  match ensureIndexed p with Some p1 => p1 | None => p end.

(** The D&D builder gets through a pack: it is an Actor pack, its index
    loads and its fingerprint can be computed. *)
Definition completedDnD5e (w : World) (p : Pack) : bool :=
  isActorPack p &&
  match ensureIndexed p with
  | Some p1 => is_ok (generatePackFingerprint w p1)
  | None => false
  end.







(** The two errors a failed upload is thrown on as. *)
Definition uploadFailed : exn := Error (js "File upload failed").
Definition uploadRejected : exn := Rejected (js "upload").

(** The whole index of a build whose pack loop runs to its end; [None] when
    the loop throws or the game system has no builder. *)
Definition allPacksBuilt (w : World) : option PersistentEnhancedIndex :=
  let w1 := setBuildInProgress true w in
  if streq (systemId w) (js "pf2e") then
    match buildPF2ePacks w1 (packs w) emptyAcc with
    | Ok acc => Some (makePersistentIndex w1 "pf2e" acc)
    | Throw _ => None
    end
  else if streq (systemId w) (js "dnd5e") then
    let '(packs1, acc) := buildDnD5ePacks w1 (packs w) emptyAcc in
    Some (makePersistentIndex (setPacks packs1 w1) "dnd5e" acc)
  else None.

(** *** Criteria *)

(** What each kind of criterion asks of a profile. *)
Definition withinBounds (x : Q) (lo hi : option Q) : Prop :=
  match lo with Some m => (m <= x)%Q | None => True end /\
  match hi with Some m => (x <= m)%Q | None => True end.

Definition challengeRatingOk (x : Q) (wanted : option NumericCriterion) : Prop :=
  match wanted with
  | None => True
  | Some (Exact n) => (x == n)%Q
  | Some (Range lo hi) => withinBounds x lo hi
  end.

(** In dialect B a bound left out is -1 below and 25 above. *)
Definition levelOk (x : Q) (wanted : option NumericCriterion) : Prop :=
  match wanted with
  | None => True
  | Some (Exact n) => (x == n)%Q
  | Some (Range lo hi) =>
      withinBounds x (Some (default (-1)%Q lo)) (Some (default 25%Q hi))
  end.

Definition textOk (own : jsstring) (wanted : option jsstring) : Prop :=
  match given wanted with
  | Some t => toLowerCase own = toLowerCase t
  | None => True
  end.

Definition flagOk (own : bool) (wanted : option bool) : Prop :=
  match wanted with
  | Some b => own = b
  | None => True
  end.

Definition traitsOk (own : list jsstring) (wanted : option (list jsstring)) : Prop :=
  match wanted with
  | Some required =>
      forall r, r ∈ required -> exists t, t ∈ own /\ toLowerCase t = toLowerCase r
  | None => True
  end.

Definition rarityOk (own : JVal) (wanted : option jsstring) : Prop :=
  match given wanted with
  | Some r => own = JStr r
  | None => True
  end.

(** Whether the criteria predicate says yes. *)
Definition passes (criteria : Criteria) (creature : EnhancedCreatureIndex) : bool :=
  match passesEnhancedCriteria creature criteria with
  | Ok b => b
  | Throw _ => false
  end.

(** The predicate as the specification words it: in both dialects a bound
    of the range that is left out excludes nothing. *)
Definition claimedPowerOk (x : Q) (wanted : option NumericCriterion) : bool :=
  match wanted with
  | None => true
  | Some (Exact n) => Qeq_bool x n
  | Some (Range lo hi) =>
      match lo with Some m => Qle_bool m x | None => true end
      && match hi with Some m => Qle_bool x m | None => true end
  end.

Definition claimedTextOk (own : jsstring) (wanted : option jsstring) : bool :=
  match wanted with
  | Some t => streq (toLowerCase own) (toLowerCase t)
  | None => true
  end.

Definition claimedFlagOk (own : bool) (wanted : option bool) : bool :=
  match wanted with
  | Some b => Bool.eqb own b
  | None => true
  end.

Definition claimedTraitsOk (own : list JVal) (wanted : option (list jsstring)) : bool :=
  match wanted with
  | Some required =>
      forallb (fun r =>
                 existsb (fun t => match t with
                                   | JStr s => streq (toLowerCase s) (toLowerCase r)
                                   | _ => false
                                   end) own)
              required
  | None => true
  end.

Definition claimedPasses (creature : EnhancedCreatureIndex) (criteria : Criteria) : bool :=
  match creature with
  | DnD5e c =>
      claimedPowerOk (d5_challengeRating c) (c_challengeRating criteria)
      && claimedTextOk (d5_creatureType c) (c_creatureType criteria)
      && claimedTextOk (d5_size c) (c_size criteria)
      && claimedFlagOk (d5_hasSpells c) (c_hasSpells criteria)
      && claimedFlagOk (d5_hasLegendaryActions c) (c_hasLegendaryActions criteria)
  | PF2e c =>
      claimedPowerOk (pf_level c) (c_level criteria)
      && claimedTextOk (pf_creatureType c) (c_creatureType criteria)
      && claimedTextOk (pf_size c) (c_size criteria)
      && claimedTraitsOk (pf_traits c) (c_traits criteria)
      && claimedFlagOk (pf_hasSpells c) (c_hasSpells criteria)
  end.

(** *** Results *)

(** The profiles behind the entries of a structured answer. *)
Definition answerCreatures (answer : QueryResult) : list EnhancedCreatureIndex :=
  omap (fun e => match e with
                 | EnhancedEntry r => Some (er_creature r)
                 | BasicEntry _ => None
                 end) (qr_creatures answer).

(** Power metric ascending, then name ascending in the host's collation. *)
Definition inOrder (localeCompare : jsstring -> jsstring -> comparison)
    (a b : EnhancedCreatureIndex) : Prop :=
  (power a < power b)%Q \/
  ((power a == power b)%Q /\ localeCompare (creatureName a) (creatureName b) <> Gt).

(** Equal on both keys. *)
Definition tiedOnKeys (localeCompare : jsstring -> jsstring -> comparison)
    (a b : EnhancedCreatureIndex) : bool :=
  Qeq_bool (power a) (power b) &&
  match localeCompare (creatureName a) (creatureName b) with
  | Eq => true
  | _ => false
  end.

(** The number of code units of a query that are not white space. *)
Definition nonWhiteSpace (s : jsstring) : nat :=
  length (List.filter (fun u => negb (isWhiteSpace u)) s).

(** ** Sample data *)

Module Sample.

Definition obj (props : list (string * JVal)) : JVal :=
  JObj (map (fun kv => (js (fst kv), snd kv)) props).

Definition goblin : Doc :=
  {| doc_id := js "g1"; doc_name := js "Goblin"; doc_type := js "npc";
     doc_img := None;
     doc_system :=
       obj [("details"%string,
             obj [("cr"%string, JStr (js "1/4"));
                  ("type"%string, obj [("value"%string, JStr (js "Humanoid"))])]);
            ("attributes"%string,
             obj [("hp"%string, obj [("max"%string, JNum 7)]);
                  ("ac"%string, obj [("value"%string, JNum 15)])])] |}.

(** A document whose [system.details] accessor throws. *)
Definition broken : Doc :=
  {| doc_id := js "b1"; doc_name := js "Broken"; doc_type := js "npc";
     doc_img := Some (js "x.png");
     doc_system := obj [("details"%string, JThrows)] |}.

Definition sword : Doc :=
  {| doc_id := js "i1"; doc_name := js "Sword"; doc_type := js "weapon";
     doc_img := None; doc_system := JNull |}.

Definition entry (name kind : string) : IndexEntry :=
  {| entry_id := Some (js name); entry_name := Some (js name);
     entry_type := Some (js kind); entry_img := None;
     entry_description := None |}.

Definition monsters : Pack :=
  {| pack_id := js "world.monsters"; pack_label := js "Monsters";
     pack_type := js "Actor"; pack_lastModified := None;
     pack_indexed := false; pack_index := None;
     pack_getIndex := Some [entry "Goblin" "npc"; entry "Sword" "weapon";
                            entry "Knight" "npc"];
     pack_getDocuments := Some [goblin; sword; broken] |}.


Definition world (system : string) (ps : list Pack) (running : bool)
    (upload : UploadOutcome) : World :=
  {| systemId := js system; packs := ps; buildInProgress := running;
     indexFile := None; now := 1000; uploadOutcome := upload; uploads := [];
     enableEnhancedCreatureIndex := true |}.

Definition quiet : World := world "dnd5e" [monsters] false UploadStores.
Definition diskFull : World := world "dnd5e" [monsters] false UploadRejects.
Definition busy : World := world "dnd5e" [monsters] true UploadStores.

(** What the build of [quiet] returns and leaves behind. *)
Definition quietProfiles : list EnhancedCreatureIndex :=
  match fst (buildDnD5eIndex quiet) with
  | Ok profiles => profiles
  | Throw _ => []
  end.

Definition built : World := snd (buildDnD5eIndex quiet).

Definition emptyIndex : PersistentEnhancedIndex :=
  {| metadata :=
       {| md_version := INDEX_VERSION; md_timestamp := 0;
          md_packFingerprints := ∅; md_totalCreatures := O;
          md_gameSystem := js "dnd5e" |};
     creatures := [] |}.

(** The index [built] reads back from its file. *)
Definition builtIndex : PersistentEnhancedIndex :=
  default emptyIndex (loadPersistedIndex built).

(** [built] after its pack gained a fourth index entry. *)
Definition grown : World :=
  setPacks
    (map (fun p : Pack =>
            {| pack_id := pack_id p; pack_label := pack_label p;
               pack_type := pack_type p;
               pack_lastModified := pack_lastModified p;
               pack_indexed := pack_indexed p;
               pack_index := (fun es => es ++ [entry "Orc" "npc"]) <$> pack_index p;
               pack_getIndex := pack_getIndex p;
               pack_getDocuments := pack_getDocuments p |})
         (packs built))
    built.

Definition d5Record (name : string) (cr : Q) : DnD5eCreatureIndex :=
  {| d5_id := js name; d5_name := js name; d5_type := js "npc";
     d5_pack := js "world.monsters"; d5_packLabel := js "Monsters";
     d5_challengeRating := cr; d5_creatureType := js "beast";
     d5_size := js "medium"; d5_hitPoints := JNum 10;
     d5_armorClass := JNum 12; d5_hasSpells := false;
     d5_hasLegendaryActions := false; d5_alignment := js "unaligned";
     d5_description := JStr []; d5_img := None |}.

Definition creature5e (name : string) (cr : Q) : EnhancedCreatureIndex :=
  DnD5e (d5Record name cr).

Definition pfRecord (name : string) (level : Q) : PF2eCreatureIndex :=
  {| pf_id := js name; pf_name := js name; pf_type := js "npc";
     pf_pack := js "pf2e.bestiary"; pf_packLabel := js "Bestiary";
     pf_level := level; pf_traits := [JStr (js "dragon")];
     pf_creatureType := js "dragon"; pf_rarity := JStr (js "common");
     pf_size := js "huge"; pf_hitPoints := JNum 500;
     pf_armorClass := JNum 50; pf_hasSpells := false;
     pf_alignment := js "N"; pf_description := JStr []; pf_img := None |}.

Definition creaturePf (name : string) (level : Q) : EnhancedCreatureIndex :=
  PF2e (pfRecord name level).

(** An index file written by an earlier build. *)
Definition oldIndex : SavedIndex :=
  {| saved_version := INDEX_VERSION; saved_timestamp := 1;
     saved_packFingerprints := []; saved_totalCreatures := 1;
     saved_gameSystem := js "pf2e";
     saved_creatures := [creaturePf "Wyrm" 20] |}.

(** A Pathfinder world with a pack whose label holds the code unit
    U+2122, which [btoa] refuses. *)
Definition bestiary : Pack :=
  {| pack_id := js "pf2e.bestiary"; pack_label := js "Bestiary" ++ [8482%N];
     pack_type := js "Actor"; pack_lastModified := None;
     pack_indexed := true; pack_index := Some [];
     pack_getIndex := Some []; pack_getDocuments := Some [] |}.

Definition pathfinder : World :=
  {| systemId := js "pf2e"; packs := [bestiary]; buildInProgress := false;
     indexFile := Some (IndexFile oldIndex); now := 1000;
     uploadOutcome := UploadStores; uploads := [];
     enableEnhancedCreatureIndex := true |}.

(** A world whose index file holds the profiles A (power 2), B (power 5)
    and C (power 2) and is valid: there are no Actor packs. *)
Definition cached : World :=
  {| systemId := js "dnd5e"; packs := []; buildInProgress := false;
     indexFile :=
       Some (IndexFile
               {| saved_version := INDEX_VERSION; saved_timestamp := 1;
                  saved_packFingerprints := []; saved_totalCreatures := 3;
                  saved_gameSystem := js "dnd5e";
                  saved_creatures := [creature5e "C" 2; creature5e "B" 5;
                                      creature5e "A" 2] |});
     now := 1000; uploadOutcome := UploadStores; uploads := [];
     enableEnhancedCreatureIndex := true |}.

(** Level 20 or more, no upper bound given. *)
Definition atLeast20 : Criteria :=
  {| c_challengeRating := None; c_level := Some (Range (Some 20%Q) None);
     c_traits := None; c_rarity := None; c_creatureType := None;
     c_size := None; c_hasSpells := None; c_hasLegendaryActions := None;
     c_limit := None |}.

Definition zeroLimit : Criteria := setLimit noCriteria (Some 0).

End Sample.

(** A collation to run the queries with: code units in order. *)
Fixpoint compareUnits (a b : jsstring) : comparison :=
  match a, b with
  | [], [] => Eq
  | [], _ :: _ => Lt
  | _ :: _, [] => Gt
  | x :: a', y :: b' =>
      match N.compare x y with
      | Eq => compareUnits a' b'
      | c => c
      end
  end.

(** ** Further notions *)

(** What the validity check reads of a pack: its id, label and type and the
    size of its index. *)
Definition sameShape (p q : Pack) : Prop :=
  pack_id p = pack_id q /\ pack_label p = pack_label q /\
  pack_type p = pack_type q /\ indexSize p = indexSize q.

(** [x] is the first element of [l] that [f] accepts: what [l.find(f)]
    returns when it finds something. *)
Definition firstWith {A} (f : A -> bool) (l : list A) (x : A) : Prop :=
  exists before after,
    l = before ++ x :: after /\ f x = true /\ forall y, y ∈ before -> f y = false.

(** ** Callers of the free-text search *)

(** [findBestCompendiumMatch(creatureType, packPreference)] *)
Definition findBestCompendiumMatch
    (localeCompare : jsstring -> jsstring -> comparison)
    (creatureType : jsstring) (packPreference : option jsstring) (w : World)
    : result (option CompendiumSearchResult) * World :=
  let '(found, w1) := searchCompendium localeCompare creatureType (Some (js "Actor")) w in
  (exactResults ← found;
   match find (fun r => streq (toLowerCase (sr_name r)) (toLowerCase creatureType))
              exactResults with
   | Some exactMatch => Ok (Some exactMatch)
   | None =>
       let packMatch :=
         match given packPreference with
         | Some preferred => find (fun r => streq (sr_pack r) preferred) exactResults
         | None => None
         end in
       match packMatch with
       | Some r => Ok (Some r)
       | None => Ok (head exactResults)
       end
   end,
   w1).

(** ** The free-text search with filters *)

(** The [filters] object; [None] is a field left out. *)
Record Filters : Type := {
  f_challengeRating : option NumericCriterion;
  f_creatureType : option jsstring;
  f_size : option jsstring;
  f_alignment : option jsstring;
  f_hasLegendaryActions : option bool;
  f_spellcaster : option bool
}.

(** [if (filters.challengeRating)]: an object, or a number other than
    zero. *)
Definition ratingGiven (challengeRating : option NumericCriterion)
    : option NumericCriterion :=
  match challengeRating with
  | Some (Exact n) => if Qeq_bool n 0 then None else Some (Exact n)
  | Some (Range min max) => Some (Range min max)
  | None => None
  end.

Definition shouldApplyFilters (entry : IndexEntry) (filters : Filters) : bool :=
  if negb (bool_decide (entry_type entry = Some (js "npc")))
     && negb (bool_decide (entry_type entry = Some (js "character")))
  then false
  else
    bool_decide (is_Some (f_challengeRating filters))
    || bool_decide (is_Some (f_creatureType filters))
    || bool_decide (is_Some (f_size filters))
    || bool_decide (is_Some (f_alignment filters))
    || bool_decide (is_Some (f_hasLegendaryActions filters))
    || bool_decide (is_Some (f_spellcaster filters)).

(** The criteria [matchesSearchCriteria] reads; the fields [size],
    [hasSpells] and [hasLegendaryActions] of its parameter are never
    looked at. *)
Record SearchCriteria : Type := {
  searchTerms : option (list jsstring);
  excludeTerms : option (list jsstring)
}.

Definition matchesSearchCriteria (entry : IndexEntry) (criteria : SearchCriteria) : bool :=
  let name := toLowerCase (default [] (entry_name entry)) in
  let description := toLowerCase (default [] (entry_description entry)) in
  let searchText := name ++ js " " ++ description in
  if match searchTerms criteria with
     | Some ((_ :: _) as terms) =>
         negb (existsb (fun term => includes searchText (toLowerCase term)) terms)
     | _ => false
     end
  then false
  else if match excludeTerms criteria with
          | Some ((_ :: _) as terms) =>
              existsb (fun term => includes searchText (toLowerCase term)) terms
          | _ => false
          end
  then false
  else true.

(** The name patterns that stand for a challenge rating in the basic
    search. *)
Definition ratingTerms (n : Q) : list jsstring :=
  if Qle_bool 15 n then [js "ancient"; js "legendary"; js "elder"; js "greater"]
  else if Qle_bool 10 n then [js "adult"; js "warlord"; js "champion"; js "master"]
  else if Qle_bool 5 n then [js "captain"; js "knight"; js "priest"; js "mage"]
  else [js "guard"; js "soldier"; js "warrior"; js "scout"].

(** The [searchCriteria] object the entry loop makes of the filters. *)
Definition searchCriteriaOf (filters : Filters) : SearchCriteria :=
  let afterRating : option (list jsstring) :=
    match ratingGiven (f_challengeRating filters) with
    | Some (Exact n) => Some (ratingTerms n)
    | Some (Range _ _) => Some []
    | None => None
    end in
  let afterType : option (list jsstring) :=
    match given (f_creatureType filters) with
    | Some creatureType =>
        let typeTerms :=
          creatureType ::
          (if streq (toLowerCase creatureType) (js "humanoid")
           then [js "human"; js "elf"; js "dwarf"; js "orc"; js "goblin"]
           else []) in
        Some (default [] afterRating ++ typeTerms)
    | None => afterRating
    end in
  {| searchTerms := afterType; excludeTerms := None |}.

(** The entry loop of [searchCompendium] when filters are passed. *)
Fixpoint searchEntriesWith (filters : Filters) (pack : Pack)
    (terms : list jsstring) (entries : list IndexEntry)
    (results : list CompendiumSearchResult) : list CompendiumSearchResult :=
  match entries with
  | [] => results
  | entry :: rest =>
      match entry_name entry with
      | Some name =>
          if bool_decide (name = []) || bool_decide (trim name = [])
          then searchEntriesWith filters pack terms rest results
          else
            let entryNameLower := toLowerCase name in
            let nameMatch := forallb (fun term => includes entryNameLower term) terms in
            if nameMatch
               && shouldApplyFilters entry filters
               && streq (pack_type pack) (js "Actor")
               && negb (matchesSearchCriteria entry (searchCriteriaOf filters))
            then searchEntriesWith filters pack terms rest results
            else
              let results1 :=
                if nameMatch then results ++ [toSearchResult pack name entry]
                else results in
              if (100 <=? length results1)%nat then results1
              else searchEntriesWith filters pack terms rest results1
      | None => searchEntriesWith filters pack terms rest results
      end
  end.

Definition searchPackWith (filters : Filters) (terms : list jsstring) (pack : Pack)
    (results : list CompendiumSearchResult) : Pack * list CompendiumSearchResult :=
  match ensureIndexed pack with
  | None => (pack, results)
  | Some pack1 =>
      match pack_index pack1 with
      | None => (pack1, results)
      | Some entries => (pack1, searchEntriesWith filters pack1 terms entries results)
      end
  end.

Fixpoint searchPacksWith (filters : Filters) (packType : option jsstring)
    (terms : list jsstring) (ps : list Pack) (results : list CompendiumSearchResult)
    : list Pack * list CompendiumSearchResult :=
  match ps with
  | [] => ([], results)
  | pack :: rest =>
      if packSearched packType pack then
        let '(pack1, results1) := searchPackWith filters terms pack results in
        if (100 <=? length results1)%nat then (pack1 :: rest, results1)
        else
          let '(rest1, results2) := searchPacksWith filters packType terms rest results1 in
          (pack1 :: rest1, results2)
      else
        let '(rest1, results2) := searchPacksWith filters packType terms rest results in
        (pack :: rest1, results2)
  end.

(** [value.toLowerCase()] on a value that need not be a string. *)
Definition lowerCased (v : JVal) : result jsstring :=
  match v with
  | JStr s => Ok (toLowerCase s)
  | JThrows => Throw AccessorError
  | _ => Throw TypeError
  end.

Definition commonNames : list jsstring :=
  map js ["knight"; "warrior"; "guard"; "soldier"; "mage"; "priest"; "bandit";
          "orc"; "goblin"; "dragon"]%string.

(** [Math.max(0, 5 - Math.abs(x - mid))] *)
Definition nearMiddle (x mid : Q) : Q :=
  let distFromMid := if Qle_bool 0 (x - mid) then (x - mid)%Q else (- (x - mid))%Q in
  let bonus := (5 - distFromMid)%Q in
  if Qle_bool 0 bonus then bonus else 0%Q.

(** [calculateRelevanceScore(entry, filters, query)], of an entry with the
    given [system] and [name]. *)
Definition calculateRelevanceScore (entrySystem : JVal) (entryName : jsstring)
    (filters : Filters) (query : jsstring) : result Q :=
  let system := Ok entrySystem <||> Ok (JObj []) in
  typeBonus ←
    match given (f_creatureType filters) with
    | Some creatureType =>
        entryType ← qdot (qdot (dot system "details") "type") "value"
                    <||> qdot (dot system "type") "value"
                    <||> Ok (JStr []);
        lowered ← lowerCased entryType;
        Ok (if streq lowered (toLowerCase creatureType) then 20%Q else 0%Q)
    | None => Ok 0%Q
    end;
  ratingBonus ←
    match f_challengeRating filters with
    | Some wanted =>
        entryCR ← qdot (dot system "details") "cr" <||> dot system "cr"
                  <||> Ok (JNum 0);
        match wanted with
        | Exact n =>
            Ok (match entryCR with
                | JNum x => if Qeq_bool x n then 15%Q else 0%Q
                | _ => 0%Q
                end)
        | Range (Some min) (Some max) =>
            Ok (match toNumber entryCR with
                | Some x =>
                    if Qle_bool min x && Qle_bool x max
                    then (10 + nearMiddle x ((min + max) / 2))%Q
                    else 0%Q
                | None => 0%Q
                end)
        | Range _ _ => Ok 0%Q
        end
    | None => Ok 0%Q
    end;
  let lowerName := toLowerCase entryName in
  let nameBonus :=
    if existsb (fun name => includes lowerName name) commonNames then 5%Q else 0%Q in
  let queryTerms := split 32 (toLowerCase query) in
  let termBonus :=
    fold_left
      (fun score term =>
         if (2 <? length term)%nat && includes lowerName term
         then (score + 3)%Q else score)
      queryTerms 0%Q in
  Ok (typeBonus + ratingBonus + nameBonus + termBonus)%Q.

(** An entry of the enhanced path: a search result with the creature
    fields added; [None] is a field that is undefined. *)
Record EnhancedSearchResult : Type := {
  es_id : jsstring;
  es_name : jsstring;
  es_type : jsstring;
  es_pack : jsstring;
  es_packLabel : jsstring;
  es_description : JVal;
  es_hasImage : bool;
  es_summary : jsstring;
  es_challengeRating : option Q;
  es_creatureType : option jsstring;
  es_size : option jsstring;
  es_hasLegendaryActions : option bool
}.

Inductive SearchHit : Type :=
| EnhancedHit (r : EnhancedSearchResult)
| PlainHit (r : CompendiumSearchResult).

(** [a || b] on strings *)
Definition orText (a b : jsstring) : jsstring :=
  match a with [] => b | _ => a end.

(** The conversion of an entry of [listCreaturesByCriteria] to a search
    result; an absent number or text prints as "undefined". *)
Definition toEnhancedSearchResult (creature : ResultEntry) : EnhancedSearchResult :=
  match creature with
  | EnhancedEntry r =>
      let challengeRating :=
        match er_creature r with
        | DnD5e c => Some (d5_challengeRating c)
        | PF2e _ => None
        end in
      {| es_id := orText (er_id r) (er_name r);
         es_name := er_name r;
         es_type := orText (er_type r) (js "npc");
         es_pack := er_pack r;
         es_packLabel := orText (er_packLabel r) (er_pack r);
         es_description :=
           if truthy (er_description r) then er_description r else JStr [];
         es_hasImage := er_hasImage r;
         es_summary :=
           js "CR "
             ++ match challengeRating with
                | Some cr => numberToString cr
                | None => js "undefined"
                end
             ++ js " " ++ creatureKind (er_creature r)
             ++ js " from " ++ er_packLabel r;
         es_challengeRating := challengeRating;
         es_creatureType := Some (creatureKind (er_creature r));
         es_size :=
           Some (match er_creature r with
                 | DnD5e c => d5_size c
                 | PF2e c => pf_size c
                 end);
         es_hasLegendaryActions :=
           match er_creature r with
           | DnD5e c => Some (d5_hasLegendaryActions c)
           | PF2e _ => None
           end |}
  | BasicEntry r =>
      {| es_id := orText (sr_id r) (sr_name r);
         es_name := sr_name r;
         es_type := orText (sr_type r) (js "npc");
         es_pack := sr_pack r;
         es_packLabel := orText (sr_packLabel r) (sr_pack r);
         es_description := JStr (sr_description r);
         es_hasImage := sr_hasImage r || hasImg (sr_img r);
         es_summary := js "CR undefined undefined from " ++ sr_packLabel r;
         es_challengeRating := None;
         es_creatureType := None;
         es_size := None;
         es_hasLegendaryActions := None |}
  end.

(** The enhanced path is entered for Actor packs when one of the creature
    filters is truthy. *)
Definition wantsEnhancedSearch (packType : option jsstring) (filters : Filters) : bool :=
  bool_decide (packType = Some (js "Actor"))
  && (bool_decide (is_Some (ratingGiven (f_challengeRating filters)))
      || bool_decide (is_Some (given (f_creatureType filters)))
      || bool_decide (f_hasLegendaryActions filters = Some true)).

(** The criteria the enhanced path hands to [listCreaturesByCriteria]. *)
Definition criteriaOfFilters (filters : Filters) : Criteria :=
  {| c_challengeRating := ratingGiven (f_challengeRating filters);
     c_level := None;
     c_traits := None;
     c_rarity := None;
     c_creatureType := given (f_creatureType filters);
     c_size := given (f_size filters);
     c_hasSpells := None;
     c_hasLegendaryActions :=
       match f_hasLegendaryActions filters with
       | Some true => Some true
       | _ => None
       end;
     c_limit := Some 100 |}.

Section FilteredSearch.

Variable localeCompare : jsstring -> jsstring -> comparison.

(** The score of a search result: such an entry has no [system], and with
    the empty system the score is always computed (see
    [score_of_a_result]); the zero is never taken. *)
Definition relevanceOf (filters : Filters) (query : jsstring)
    (r : CompendiumSearchResult) : Q :=
  match calculateRelevanceScore JUndefined (sr_name r) filters query with
  | Ok score => score
  | Throw _ => 0%Q
  end.

(** The comparator of the free-text search with filters: exact name first,
    then the higher score, then alphabetical. *)
Definition compareFilteredResults (filters : Filters) (query : jsstring)
    (a b : CompendiumSearchResult) : comparison :=
  let aExact := streq (toLowerCase (sr_name a)) (toLowerCase query) in
  let bExact := streq (toLowerCase (sr_name b)) (toLowerCase query) in
  if aExact && negb bExact then Lt
  else if negb aExact && bExact then Gt
  else
    let aScore := relevanceOf filters query a in
    let bScore := relevanceOf filters query b in
    if negb (Qeq_bool aScore bScore) then Qcompare bScore aScore
    else localeCompare (sr_name a) (sr_name b).

(** The basic search of [searchCompendium(query, packType, filters)], from
    the split of the query on. *)
Definition basicSearchWith (filters : Filters) (query : jsstring)
    (packType : option jsstring) (w : World) : result (list SearchHit) * World :=
  let terms := searchTermsOf query in
  if (length terms =? 0)%nat then (Throw (Error noTermsMessage), w)
  else
    let '(packs1, results) := searchPacksWith filters packType terms (packs w) [] in
    (Ok (map PlainHit
           (slice0 (sortBy (compareFilteredResults filters query) results) 50)),
     setPacks packs1 w).

(** [searchCompendium(query, packType, filters)], the call with filters. *)
Definition searchCompendiumWith (filters : Filters) (query : jsstring)
    (packType : option jsstring) (w : World) : result (list SearchHit) * World :=
  if bool_decide (query = []) || (length (trim query) <? 2)%nat
  then (Throw (Error queryTooShortMessage), w)
  else if wantsEnhancedSearch packType filters && enableEnhancedCreatureIndex w
  then
    match listCreaturesByCriteria localeCompare (criteriaOfFilters filters) w with
    | (Ok enhancedResult, w1) =>
        (Ok (map (fun creature => EnhancedHit (toEnhancedSearchResult creature))
                 (qr_creatures enhancedResult)),
         w1)
    | (Throw _, w1) => basicSearchWith filters query packType w1
    end
  else basicSearchWith filters query packType w.

End FilteredSearch.

(** The filters with other values for [alignment] and [spellcaster]. *)
Definition withAlignment (filters : Filters) (alignment : option jsstring)
    (spellcaster : option bool) : Filters :=
  {| f_challengeRating := f_challengeRating filters;
     f_creatureType := f_creatureType filters;
     f_size := f_size filters;
     f_alignment := alignment;
     f_hasLegendaryActions := f_hasLegendaryActions filters;
     f_spellcaster := spellcaster |}.

(** The filters without a creature type, and without a challenge rating. *)
Definition withoutType (filters : Filters) : Filters :=
  {| f_challengeRating := f_challengeRating filters;
     f_creatureType := None;
     f_size := f_size filters;
     f_alignment := f_alignment filters;
     f_hasLegendaryActions := f_hasLegendaryActions filters;
     f_spellcaster := f_spellcaster filters |}.

Definition withoutRating (filters : Filters) : Filters :=
  {| f_challengeRating := None;
     f_creatureType := f_creatureType filters;
     f_size := f_size filters;
     f_alignment := f_alignment filters;
     f_hasLegendaryActions := f_hasLegendaryActions filters;
     f_spellcaster := f_spellcaster filters |}.

(** ** Callers of the index *)

Record RebuildReport : Type := {
  success : bool;
  totalCreatures : nat;
  message : jsstring
}.

Section Reports.

(** What [error instanceof Error ? error.message : 'Unknown error'] gives for
    an exception raised by the engine or the host; the text is theirs. *)
Variable hostMessage : exn -> jsstring.

Definition errorMessage (error : exn) : jsstring :=
  match error with
  | Error msg => msg
  | _ => hostMessage error
  end.

(** [rebuildEnhancedCreatureIndex()]: the forced rebuild, reported instead
    of thrown. *)
Definition rebuildEnhancedCreatureIndex (w : World) : RebuildReport * World :=
  let '(rebuilt, w1) := rebuildIndex w in
  match rebuilt with
  | Ok creatures =>
      ({| success := true;
          totalCreatures := length creatures;
          message := js "Enhanced creature index rebuilt: "
                       ++ natToString (length creatures)
                       ++ js " creatures indexed from all packs" |},
       w1)
  | Throw error =>
      ({| success := false;
          totalCreatures := O;
          message := js "Failed to rebuild index: " ++ errorMessage error |},
       w1)
  end.

End Reports.

(** *** Invalidation *)

(** What the host does with the DELETE request for the index file: it
    removes the file, it answers without removing it, or the request
    fails. *)
Inductive DeleteOutcome : Type :=
| DeleteRemoves
| DeleteIgnored
| DeleteRejects.

(** The host as [invalidateIndex] meets it: the value of the module setting
    [autoRebuildIndex] (reading it may throw), whether the world directory
    can be browsed, and the fate of the DELETE request. *)
Record FileHost : Type := {
  autoRebuildIndex : result JVal;
  browseWorks : bool;
  deleteOutcome : DeleteOutcome
}.

Definition setIndexFile (file : option StoredFile) (w : World) : World :=
  {| systemId := systemId w;
     packs := packs w;
     buildInProgress := buildInProgress w;
     indexFile := file;
     now := now w;
     uploadOutcome := uploadOutcome w;
     uploads := uploads w;
     enableEnhancedCreatureIndex := enableEnhancedCreatureIndex w |}.

(** [invalidateIndex()]: both [try] blocks swallow what is thrown inside
    them. *)
Definition invalidateIndex (h : FileHost) (w : World) : World :=
  match autoRebuildIndex h with
  | Throw _ => w
  | Ok autoRebuild =>
      if negb (truthy autoRebuild) then w
      else if negb (browseWorks h) then w
      else
        match indexFile w with
        | Some _ =>
            match deleteOutcome h with
            | DeleteRemoves => setIndexFile None w
            | DeleteIgnored | DeleteRejects => w
            end
        | None => w
        end
  end.

(** The events the hooks of [registerFoundryHooks] listen to, with what the
    handlers read: of a document its [pack] and [type], of a compendium its
    [metadata.type]. *)
Inductive HookEvent : Type :=
| createDocument (pack : option jsstring) (type : jsstring)
| updateDocument (pack : option jsstring) (type : jsstring)
| deleteDocument (pack : option jsstring) (type : jsstring)
| createCompendium (packType : jsstring)
| deleteCompendium (packType : jsstring).

Definition hookHandler (h : FileHost) (event : HookEvent) (w : World) : World :=
  match event with
  | createDocument pack type | updateDocument pack type | deleteDocument pack type =>
      if bool_decide (is_Some (given pack))
         && (streq type (js "npc") || streq type (js "character"))
      then invalidateIndex h w else w
  | createCompendium packType | deleteCompendium packType =>
      if streq packType (js "Actor") then invalidateIndex h w else w
  end.

(** Whether a handler calls [invalidateIndex] for the event. *)
Definition concernsCreatures (event : HookEvent) : bool :=
  match event with
  | createDocument pack type | updateDocument pack type | deleteDocument pack type =>
      bool_decide (is_Some (given pack))
      && (streq type (js "npc") || streq type (js "character"))
  | createCompendium packType | deleteCompendium packType =>
      streq packType (js "Actor")
  end.

(** ** Sanitizing host data *)

(** Host data as [sanitizeData] meets it.  Objects and arrays have an
    identity: they live in a store and are referred to by address, so that
    one object can be reached twice or lie on a cycle. *)
Inductive Ref : Type :=
| RUndefined
| RNull
| RBool (b : bool)
| RNum (q : Q)
| RStr (s : jsstring)
| RAddr (a : nat).

(** An object with what [Object.entries] lists of it, an array, or an
    object whose entries cannot be listed because a getter throws. *)
Inductive Cell : Type :=
| CObject (entries : list (jsstring * Ref))
| CArray (elems : list Ref)
| CThrowing.

Definition sensitiveKeys : list jsstring :=
  map js ["password"; "token"; "secret"; "key"; "auth";
          "credential"; "session"; "cookie"; "private"]%string.

Definition problematicKeys : list jsstring :=
  map js ["parent"; "_parent"; "collection"; "apps"; "document"; "_document";
          "constructor"; "prototype"; "__proto__"; "valueOf"; "toString"]%string.

Definition deprecatedKeys : list jsstring := [js "save"].

(** [array.includes(key)] *)
Definition listed (key : jsstring) (keys : list jsstring) : bool :=
  existsb (streq key) keys.

Definition isSensitiveOrProblematicField (key : jsstring) : bool :=
  listed key sensitiveKeys || listed key problematicKeys || listed key deprecatedKeys.

(** The two tests that make the loop of [removeSensitiveFields] skip a
    key. *)
Definition skippedKey (key : jsstring) : bool :=
  isSensitiveOrProblematicField key
  || (startsWith (js "_") key
      && negb (listed key [js "_id"; js "_stats"; js "_source"])).

(** A loop that threads a state through the elements of a list. *)
Fixpoint threadMap {A B S : Type} (f : A -> S -> B * S) (l : list A) (s : S)
    : list B * S :=
  match l with
  | [] => ([], s)
  | x :: r =>
      let '(y, s1) := f x s in
      let '(ys, s2) := threadMap f r s1 in
      (y :: ys, s2)
  end.

(** [removeSensitiveFields(obj, visited, depth)] with [levels = 51 - depth]:
    the call at depth 51 is the first to answer "[Max depth reached]".  The
    second component is [visited] afterwards; the set is shared by all the
    calls and nothing is ever taken out of it. *)
Fixpoint removeSensitiveFields (levels : nat) (store : nat -> Cell) (obj : Ref)
    (visited : list nat) : JVal * list nat :=
  match obj with
  | RUndefined => (JUndefined, visited)
  | RNull => (JNull, visited)
  | RBool b => (JBool b, visited)
  | RNum q => (JNum q, visited)
  | RStr s => (JStr s, visited)
  | RAddr a =>
      match levels with
      | O => (JStr (js "[Max depth reached]"), visited)
      | S below =>
          if existsb (Nat.eqb a) visited
          then (JStr (js "[Circular Reference]"), visited)
          else
            let visited1 := a :: visited in
            match store a with
            | CThrowing => (JStr (js "[Sanitization failed]"), visited1)
            | CArray elems =>
                let '(items, visited2) :=
                  threadMap (removeSensitiveFields below store) elems visited1 in
                (JArr items, visited2)
            | CObject entries =>
                let '(kept, visited2) :=
                  threadMap
                    (fun (entry : jsstring * Ref) seen =>
                       if skippedKey (fst entry) then (None, seen)
                       else
                         let '(value, seen1) :=
                           removeSensitiveFields below store (snd entry) seen in
                         (Some (fst entry, value), seen1))
                    entries visited1 in
                (JObj (omap (fun kept => kept) kept), visited2)
            end
      end
  end.

(** [typeof value === 'object' && value !== null] *)
Definition isObjectValue (v : JVal) : bool :=
  match v with JArr _ | JObj _ => true | _ => false end.

(** [JSON.parse(safeJSONStringify(v))] for a value built of plain objects,
    arrays, strings, numbers, booleans, null and undefined: a property
    whose value is undefined is left out, as is a property [save] whose
    value is an object (the replacer); undefined in an array becomes
    null. *)
Fixpoint jsonRoundTrip (v : JVal) : JVal :=
  match v with
  | JArr elems =>
      JArr (map (fun x => match x with
                          | JUndefined => JNull
                          | _ => jsonRoundTrip x
                          end) elems)
  | JObj props =>
      JObj ((fix entries (props : list (jsstring * JVal)) : list (jsstring * JVal) :=
               match props with
               | [] => []
               | (key, value) :: rest =>
                   match value with
                   | JUndefined => entries rest
                   | _ =>
                       if streq key (js "save") && isObjectValue value
                       then entries rest
                       else (key, jsonRoundTrip value) :: entries rest
                   end
               end) props)
  | _ => v
  end.

(** [sanitizeData(data)]: a value that is not an object is handed back;
    nothing in the [try] throws on data of this kind, so its [catch] is
    never entered. *)
Definition sanitizeData (store : nat -> Cell) (data : Ref) : JVal :=
  match data with
  | RUndefined => JUndefined
  | RNull => JNull
  | RBool b => JBool b
  | RNum q => JNum q
  | RStr s => JStr s
  | RAddr _ => jsonRoundTrip (fst (removeSensitiveFields 51 store data []))
  end.

(** Every property name of a value, at any depth. *)
Fixpoint allKeys (v : JVal) : list jsstring :=
  match v with
  | JArr elems => flat_map allKeys elems
  | JObj props =>
      (fix keys (props : list (jsstring * JVal)) : list jsstring :=
         match props with
         | [] => []
         | (key, value) :: rest => key :: allKeys value ++ keys rest
         end) props
  | _ => []
  end.

Module Cases.

(** [Sample.built] after an edit of its pack's documents that keeps their
    number: the documents and the modification time differ. *)
Definition edited : World :=
  setPacks
    (map (fun p : Pack =>
            {| pack_id := pack_id p; pack_label := pack_label p;
               pack_type := pack_type p;
               pack_lastModified := Some 2000;
               pack_indexed := pack_indexed p;
               pack_index := pack_index p;
               pack_getIndex := pack_getIndex p;
               pack_getDocuments := Some [Sample.sword; Sample.sword; Sample.goblin] |})
         (packs Sample.built))
    Sample.built.

(** A pack whose id starts like that of [Sample.monsters]; label and index
    size differ. *)
Definition monsterSquad : Pack :=
  {| pack_id := js "world.monsterSquad"; pack_label := js "Squad";
     pack_type := js "Actor"; pack_lastModified := None;
     pack_indexed := true; pack_index := Some [Sample.entry "Orc" "npc"];
     pack_getIndex := Some [Sample.entry "Orc" "npc"];
     pack_getDocuments := Some [] |}.

(** An Actor pack whose index the host fails to load. *)
Definition sealed : Pack :=
  {| pack_id := js "world.sealed"; pack_label := js "Sealed";
     pack_type := js "Actor"; pack_lastModified := None;
     pack_indexed := false; pack_index := None;
     pack_getIndex := None; pack_getDocuments := Some [Sample.goblin] |}.

Definition partly : World :=
  Sample.world "dnd5e" [Sample.monsters; sealed] false UploadStores.

Definition partlyProfiles : list EnhancedCreatureIndex :=
  match fst (buildEnhancedIndex false partly) with
  | Ok profiles => profiles
  | Throw _ => []
  end.

Definition partlyBuilt : World := snd (buildEnhancedIndex false partly).

(** A world with a pack of goblins and a Scene pack. *)
Definition warren : World :=
  Sample.world "dnd5e"
    [ {| pack_id := js "world.warren"; pack_label := js "Warren";
         pack_type := js "Actor"; pack_lastModified := None;
         pack_indexed := false; pack_index := None;
         pack_getIndex := Some [Sample.entry "Goblin Boss" "npc";
                                Sample.entry "Hobgoblin" "npc";
                                Sample.entry "Goblin" "npc";
                                Sample.entry "Orc" "npc"];
         pack_getDocuments := Some [] |};
      {| pack_id := js "world.maps"; pack_label := js "Maps";
         pack_type := js "Scene"; pack_lastModified := None;
         pack_indexed := true; pack_index := Some [Sample.entry "Goblin Cave" "scene"];
         pack_getIndex := Some [Sample.entry "Goblin Cave" "scene"];
         pack_getDocuments := Some [] |} ]
    false UploadStores.

(** A search of [warren] for "GOBLIN" in packs of every type. *)
Definition goblinSearch : result (list CompendiumSearchResult) * World :=
  searchCompendium compareUnits (js "GOBLIN") None warren.

Definition goblinsFound : list CompendiumSearchResult :=
  match fst goblinSearch with
  | Ok results => results
  | Throw _ => []
  end.

Definition nothingFound : QueryResult :=
  {| qr_creatures := [];
     searchSummary :=
       {| packsSearched := O; topPacks := []; totalCreaturesFound := O;
          resultsByPack := ∅; summaryCriteria := noCriteria;
          totalIndexedCreatures := None; fallback := false;
          searchMethod := [] |} |}.

(** The structured answer over three profiles of one pack, none asked for
    in particular. *)
Definition threeProfiles : list EnhancedCreatureIndex :=
  [Sample.creature5e "C" 2; Sample.creature5e "B" 5; Sample.creature5e "A" 2].

Definition threeAnswer : QueryResult :=
  match listFromIndex compareUnits threeProfiles noCriteria 500 with
  | Ok answer => answer
  | Throw _ => nothingFound
  end.

(** Criteria that ask for challenge rating 17 and nothing else. *)
Definition rating17 : Criteria :=
  {| c_challengeRating := Some (Exact 17); c_level := None; c_traits := None;
     c_rarity := None; c_creatureType := None; c_size := None;
     c_hasSpells := None; c_hasLegendaryActions := None; c_limit := None |}.

(** Criteria that ask for the creature type "x". *)
Definition typeX : Criteria :=
  {| c_challengeRating := None; c_level := None; c_traits := None;
     c_rarity := None; c_creatureType := Some (js "x"); c_size := None;
     c_hasSpells := None; c_hasLegendaryActions := None; c_limit := None |}.

(** [Sample.quiet] with the enhanced index switched off. *)
Definition plain : World :=
  {| systemId := js "dnd5e"; packs := [Sample.monsters]; buildInProgress := false;
     indexFile := None; now := 1000; uploadOutcome := UploadStores; uploads := [];
     enableEnhancedCreatureIndex := false |}.

(** A world with the enhanced index switched off and a pack of dragons. *)
Definition lair : World :=
  {| systemId := js "dnd5e";
     packs :=
       [ {| pack_id := js "world.lair"; pack_label := js "Lair";
            pack_type := js "Actor"; pack_lastModified := None;
            pack_indexed := true;
            pack_index := Some [Sample.entry "Ancient Red Dragon" "npc";
                                Sample.entry "Legendary Ancient Wyrm" "npc";
                                Sample.entry "Adult Red Dragon" "npc"];
            pack_getIndex := None;
            pack_getDocuments := Some [] |} ];
     buildInProgress := false; indexFile := None; now := 1000;
     uploadOutcome := UploadStores; uploads := [];
     enableEnhancedCreatureIndex := false |}.

Definition lairAnswer : QueryResult :=
  match fst (fallbackBasicCreatureSearch compareUnits rating17 500 lair) with
  | Ok answer => answer
  | Throw _ => nothingFound
  end.

(** A world of a game system the index has no builder for. *)
Definition otherSystem : World :=
  Sample.world "swade" [Sample.monsters] false UploadStores.

(** A host with the auto-rebuild setting on that removes files on
    request, and one with the setting off. *)
Definition obliging : FileHost :=
  {| autoRebuildIndex := Ok (JBool true); browseWorks := true;
     deleteOutcome := DeleteRemoves |}.

Definition settingOff : FileHost :=
  {| autoRebuildIndex := Ok (JBool false); browseWorks := true;
     deleteOutcome := DeleteRemoves |}.

(** A store with an actor's data at address 0: a password, two keys that
    only resemble listed names, private fields, and the same object (at
    address 1) reached twice, the second time through an array. *)
Definition vault (a : nat) : Cell :=
  match a with
  | O => CObject [(js "name", RStr (js "Mira"));
                  (js "password", RStr (js "hunter2"));
                  (js "passwordHash", RStr (js "5f4dcc3b"));
                  (js "apiKey", RStr (js "k-123"));
                  (js "_id", RStr (js "a1"));
                  (js "_sheet", RNull);
                  (js "hp", RAddr 1);
                  (js "history", RAddr 2)]
  | 1%nat => CObject [(js "value", RNum 7); (js "max", RNum 12);
                      (js "save", RAddr 3)]
  | 2%nat => CArray [RAddr 1; RUndefined]
  | _ => CObject []
  end.

(** A store whose array at address 0 holds the object at address 1
    twice. *)
Definition twins (a : nat) : Cell :=
  match a with
  | O => CArray [RAddr 1; RAddr 1]
  | _ => CObject [(js "hp", RNum 7)]
  end.

(** A store with one object of plain values. *)
Definition account : list (jsstring * Ref) :=
  [(js "user", RStr (js "mira")); (js "password", RStr (js "hunter2"));
   (js "passwordHash", RStr (js "5f4dcc3b")); (js "token", RStr (js "t"));
   (js "tokens", RNum 3); (js "_id", RStr (js "a1")); (js "_rev", RNum 2);
   (js "note", RUndefined)].

Definition ledger (a : nat) : Cell := CObject account.

(** Filters that ask for beasts. *)
Definition beasts : Filters :=
  {| f_challengeRating := None; f_creatureType := Some (js "beast");
     f_size := None; f_alignment := None; f_hasLegendaryActions := None;
     f_spellcaster := None |}.

Definition beastAnswer : QueryResult :=
  match fst (listCreaturesByCriteria compareUnits (criteriaOfFilters beasts)
               Sample.cached) with
  | Ok answer => answer
  | Throw _ => nothingFound
  end.

(** Filters that ask for challenge rating 3 and an evil spellcaster. *)
Definition evilCasters : Filters :=
  {| f_challengeRating := Some (Exact 3); f_creatureType := None;
     f_size := None; f_alignment := Some (js "evil");
     f_hasLegendaryActions := None; f_spellcaster := Some true |}.

End Cases.

(** *** Free-text search *)

(** The entry's name is the query, letter case apart. *)
Definition exactMatch (query : jsstring) (r : CompendiumSearchResult) : bool :=
  streq (toLowerCase (sr_name r)) (toLowerCase query).

(** The order of the free-text results: exact matches before the others,
    and by name in the host's collation within each group. *)
Definition searchOrder (localeCompare : jsstring -> jsstring -> comparison)
    (query : jsstring) (a b : CompendiumSearchResult) : Prop :=
  (exactMatch query a = true /\ exactMatch query b = false)
  \/ (exactMatch query a = exactMatch query b /\
      localeCompare (sr_name a) (sr_name b) <> Gt).

(** ** Players and roll requests *)

(** What the code reads of a user and of an actor of the game.  [None] is
    an absent ([null] or [undefined]) id or name; [getRollData] is the
    value the host's method of that name returns. *)
Record User : Type := {
  user_id : option jsstring;
  user_name : option jsstring;
  active : bool;
  isGM : bool
}.

Record Actor : Type := {
  actor_id : option jsstring;
  actor_name : option jsstring;
  actor_type : jsstring;
  hasPlayerOwner : bool;
  getRollData : JVal
}.

(** [game]: the three things [validateFoundryState] looks at and the
    collections [game.users] and [game.actors] in their order. *)
Record Game : Type := {
  game_ready : bool;
  game_world : bool;
  game_user : bool;
  game_users : list User;
  game_actors : list Actor
}.

Definition validateFoundryState (g : Game) : result unit :=
  if negb (game_ready g) then Throw (Error (js "Foundry VTT is not ready"))
  else if negb (game_world g) then Throw (Error (js "No active world"))
  else if negb (game_user g) then Throw (Error (js "No active user"))
  else Ok tt.

Inductive PlayerError : Type :=
| PLAYER_OFFLINE
| PLAYER_NOT_FOUND
| CHARACTER_NOT_FOUND.

Record PlayerInfo : Type := {
  pi_found : bool;
  pi_user : option User;
  pi_character : option Actor;
  pi_targetName : jsstring;
  pi_errorType : option PlayerError;
  pi_errorMessage : option jsstring
}.

(** [name || fallback] and a name inside a template literal. *)
Definition nameOr (name : option jsstring) (fallback : jsstring) : jsstring :=
  match name with
  | Some s => orText s fallback
  | None => fallback
  end.

Definition nameText (name : option jsstring) : jsstring :=
  match name with
  | Some s => s
  | None => js "undefined"
  end.

Definition quote : jsstring := [34%N].

(** [name?.toLowerCase() === searchTerm] *)
Definition exactName (searchTerm : jsstring) (name : option jsstring) : bool :=
  match name with
  | Some s => streq (toLowerCase s) searchTerm
  | None => false
  end.

(** [Boolean(name && name.toLowerCase().includes(searchTerm))] *)
Definition partialName (searchTerm : jsstring) (name : option jsstring) : bool :=
  match name with
  | Some s => negb (bool_decide (s = [])) && includes (toLowerCase s) searchTerm
  | None => false
  end.

(** The third look at the actors:
    [if (!actor.name) return false;
     return actor.name.toLowerCase() === searchTerm
            || actor.name.toLowerCase().includes(searchTerm)] *)
Definition anyName (searchTerm : jsstring) (name : option jsstring) : bool :=
  match name with
  | Some s =>
      if bool_decide (s = []) then false
      else streq (toLowerCase s) searchTerm || includes (toLowerCase s) searchTerm
  | None => false
  end.

(** *** Skill codes *)

Definition skillMap : list (jsstring * jsstring) :=
  [ (js "acrobatics", js "acr");
    (js "animal handling", js "ani");
    (js "animalhandling", js "ani");
    (js "arcana", js "arc");
    (js "athletics", js "ath");
    (js "deception", js "dec");
    (js "history", js "his");
    (js "insight", js "ins");
    (js "intimidation", js "itm");
    (js "investigation", js "inv");
    (js "medicine", js "med");
    (js "nature", js "nat");
    (js "perception", js "prc");
    (js "performance", js "prf");
    (js "persuasion", js "per");
    (js "religion", js "rel");
    (js "sleight of hand", js "slt");
    (js "sleightofhand", js "slt");
    (js "stealth", js "ste");
    (js "survival", js "sur") ].

(** The names every object literal inherits from [Object.prototype]. *)
Definition inheritedNames : list jsstring :=
  [ js "constructor"; js "__defineGetter__"; js "__defineSetter__";
    js "hasOwnProperty"; js "__lookupGetter__"; js "__lookupSetter__";
    js "isPrototypeOf"; js "propertyIsEnumerable"; js "toString";
    js "valueOf"; js "__proto__"; js "toLocaleString" ].

(** What [getSkillCode] returns: a text, or the member of
    [Object.prototype] the map has under the name (a function, or the
    prototype itself under [__proto__]). *)
Inductive SkillCode : Type :=
| SkillText (code : jsstring)
| Inherited (name : jsstring).

Fixpoint own (k : jsstring) (table : list (jsstring * jsstring)) : option jsstring :=
  match table with
  | [] => None
  | (k', v) :: r => if streq k k' then Some v else own k r
  end.

(** [skillMap[k]]; [None] is undefined.  The codes and the inherited
    members are all truthy. *)
Definition skillMapAt (k : jsstring) : option SkillCode :=
  match own k skillMap with
  | Some code => Some (SkillText code)
  | None => if existsb (streq k) inheritedNames then Some (Inherited k) else None
  end.

(** [s.replace(/\s+/g, '')]: the class [\s] is the white space of [trim]. *)
Definition withoutWhiteSpace (s : jsstring) : jsstring :=
  filter (fun u => negb (isWhiteSpace u)) s.

Definition getSkillCode (skillName : jsstring) : SkillCode :=
  let normalizedName := withoutWhiteSpace (toLowerCase skillName) in
  match skillMapAt normalizedName with
  | Some code => code
  | None =>
      match skillMapAt (toLowerCase skillName) with
      | Some code => code
      | None => SkillText (toLowerCase skillName)
      end
  end.

(** The property key a skill code is turned into by [skills?.[skillCode]]:
    the text of a built-in function as the engine prints it. *)
Definition skillKey (code : SkillCode) : jsstring :=
  match code with
  | SkillText s => s
  | Inherited name =>
      if streq name (js "__proto__") then js "[object Object]"
      else js "function "
           ++ (if streq name (js "constructor") then js "Object" else name)
           ++ js "() { [native code] }"
  end.

(** *** The roll formula and the label of the button *)

(** [e?.[k]] for a key computed by the code. *)
Definition qdotAt (e : result JVal) (k : jsstring) : result JVal :=
  v ← e; if nullish v then Ok JUndefined else get v k.

(** What is appended for [rollModifier]. *)
Definition modifierSuffix (rollModifier : jsstring) : jsstring :=
  if negb (bool_decide (rollModifier = [])) && negb (bool_decide (trim rollModifier = []))
  then if startsWith (js "+") rollModifier || startsWith (js "-") rollModifier
       then rollModifier
       else js "+" ++ rollModifier
  else [].

(** The tables of the roll data are objects keyed by ability and skill; a
    name they inherit reads as a value without [mod], [save] or [total],
    as an absent one does. *)
Definition baseFormula (rollType rollTarget : jsstring) (character : option Actor)
  : result jsstring :=
  match character with
  | Some actor =>
      let rollData := Ok (getRollData actor) in
      if streq rollType (js "ability") then
        abilityMod ← qdot (qdotAt (dot rollData "abilities") rollTarget) "mod"
                       <??> Ok (JNum 0);
        Ok (js "1d20+" ++ toStringJ abilityMod)
      else if streq rollType (js "skill") then
        let skillCode := getSkillCode rollTarget in
        skillMod ← qdot (qdotAt (dot rollData "skills") (skillKey skillCode)) "total"
                     <??> Ok (JNum 0);
        Ok (js "1d20+" ++ toStringJ skillMod)
      else if streq rollType (js "save") then
        saveMod ← qdot (qdotAt (dot rollData "abilities") rollTarget) "save"
                    <??> qdot (qdotAt (dot rollData "abilities") rollTarget) "mod"
                    <??> Ok (JNum 0);
        Ok (js "1d20+" ++ toStringJ saveMod)
      else if streq rollType (js "initiative") then
        initMod ← qdot (qdot (dot rollData "attributes") "init") "mod"
                    <??> qdot (qdot (dot rollData "abilities") "dex") "mod"
                    <??> Ok (JNum 0);
        Ok (js "1d20+" ++ toStringJ initMod)
      else if streq rollType (js "custom") then Ok rollTarget
      else Ok (js "1d20")
  | None => Ok (js "1d20")
  end.

Definition buildRollFormula (rollType rollTarget rollModifier : jsstring)
    (character : option Actor) : result jsstring :=
  formula ← baseFormula rollType rollTarget character;
  Ok (formula ++ modifierSuffix rollModifier).

(** [s.charAt(0).toUpperCase() + s.slice(1)] *)
Definition capitalized (s : jsstring) : jsstring :=
  match s with
  | [] => []
  | c :: r => upperUnit c :: r
  end.

Definition buildRollButtonLabel (rollType rollTarget : jsstring) (isPublic : bool)
  : jsstring :=
  let visibility := if isPublic then js "Public" else js "Private" in
  if streq rollType (js "ability") then
    toUpperCase rollTarget ++ js " Ability Check (" ++ visibility ++ js ")"
  else if streq rollType (js "skill") then
    capitalized rollTarget ++ js " Skill Check (" ++ visibility ++ js ")"
  else if streq rollType (js "save") then
    toUpperCase rollTarget ++ js " Saving Throw (" ++ visibility ++ js ")"
  else if streq rollType (js "attack") then
    rollTarget ++ js " Attack (" ++ visibility ++ js ")"
  else if streq rollType (js "initiative") then
    js "Initiative Roll (" ++ visibility ++ js ")"
  else if streq rollType (js "custom") then
    js "Custom Roll (" ++ visibility ++ js ")"
  else js "Roll (" ++ visibility ++ js ")".

(** *** Finding the player *)

Record PlayerRef : Type := {
  p_id : jsstring;
  p_name : jsstring
}.

Definition playerRef (u : User) : PlayerRef :=
  {| p_id := default [] (user_id u); p_name := nameOr (user_name u) (js "Unknown") |}.

(** [p.id === owner.id] *)
Definition sameId (owner : User) (p : PlayerRef) : bool :=
  match user_id owner with
  | Some i => streq (p_id p) i
  | None => false
  end.

(** The arguments of a roll request. *)
Record RollRequest : Type := {
  rollType : jsstring;
  rollTarget : jsstring;
  targetPlayer : jsstring;
  isPublic : bool;
  rollModifier : jsstring;
  flavor : jsstring
}.

(** Of the chat message a roll request creates: whom it is whispered to and
    the state kept for the button in the flags of the message. *)
Record MessageData : Type := {
  whisper : list jsstring;
  md_rollFormula : jsstring;
  md_rollLabel : jsstring;
  md_isPublic : bool;
  md_characterId : jsstring;
  md_targetUserId : jsstring
}.

(** How far a roll request gets before the chat message is created: the
    early return for a target that is not found, an error caught by the
    handler of the method, or the message for [ChatMessage.create]. *)
Inductive Prepared : Type :=
| NotSent (error : jsstring)
| Caught (e : exn)
| Draft (m : MessageData).

Section Players.

(** [actor.testUserPermission(user, 'OWNER')] of the host. *)
Variable testUserPermission : Actor -> User -> bool.

Definition ownedBy (u : User) (actor : Actor) : bool :=
  testUserPermission actor u && negb (isGM u).

Definition ownerOf (actor : Actor) (u : User) : bool :=
  testUserPermission actor u && negb (isGM u).

Definition offlineMessage (u : User) : jsstring :=
  js "Player " ++ quote ++ nameText (user_name u) ++ quote
  ++ js " is registered but not currently logged in. They need to be online to receive roll requests.".

(** What is returned for a user found by name; the source writes it out
    once for the exact and once for the partial match. *)
Definition userFound (g : Game) (u : User) : PlayerInfo :=
  if negb (active u) then
    {| pi_found := false; pi_user := Some u; pi_character := None;
       pi_targetName := nameOr (user_name u) (js "Unknown Player");
       pi_errorType := Some PLAYER_OFFLINE;
       pi_errorMessage := Some (offlineMessage u) |}
  else
    {| pi_found := true; pi_user := Some u;
       pi_character := find (ownedBy u) (game_actors g);
       pi_targetName := nameOr (user_name u) (js "Unknown Player");
       pi_errorType := None; pi_errorMessage := None |}.

Definition characterFound (g : Game) (character : Actor) : PlayerInfo :=
  match find (ownerOf character) (game_users g) with
  | Some ownerUser =>
      if negb (active ownerUser) then
        {| pi_found := false; pi_user := Some ownerUser; pi_character := Some character;
           pi_targetName := nameOr (user_name ownerUser) (js "Unknown Player");
           pi_errorType := Some PLAYER_OFFLINE;
           pi_errorMessage :=
             Some (js "Player " ++ quote ++ nameText (user_name ownerUser) ++ quote
                   ++ js " (owner of character " ++ quote
                   ++ nameText (actor_name character) ++ quote
                   ++ js ") is registered but not currently logged in. They need to be online to receive roll requests.") |}
      else
        {| pi_found := true; pi_user := Some ownerUser; pi_character := Some character;
           pi_targetName := nameOr (user_name ownerUser) (js "Unknown Player");
           pi_errorType := None; pi_errorMessage := None |}
  | None =>
      {| pi_found := true; pi_user := None; pi_character := Some character;
         pi_targetName := nameOr (actor_name character) (js "Unknown Character");
         pi_errorType := None; pi_errorMessage := None |}
  end.

Definition notFound (g : Game) (targetPlayer : jsstring) : PlayerInfo :=
  {| pi_found := false; pi_user := None; pi_character := None;
     pi_targetName := targetPlayer;
     pi_errorType := Some PLAYER_NOT_FOUND;
     pi_errorMessage :=
       Some (js "No player or character named " ++ quote ++ targetPlayer ++ quote
             ++ js " found. Available players: "
             ++ orText (join (js ", ")
                          (map (fun u => default [] (user_name u))
                               (filter (fun u => negb (isGM u)) (game_users g))))
                       (js "none")) |}.

Definition resolveTargetPlayer (targetPlayer : jsstring) (g : Game) : PlayerInfo :=
  let searchTerm := trim (toLowerCase targetPlayer) in
  let allUsers := game_users g in
  match find (fun u => exactName searchTerm (user_name u)) allUsers with
  | Some u => userFound g u
  | None =>
      match find (fun u => partialName searchTerm (user_name u)) allUsers with
      | Some u => userFound g u
      | None =>
          let character :=
            match find (fun actor => exactName searchTerm (actor_name actor)
                                     && hasPlayerOwner actor) (game_actors g) with
            | Some actor => Some actor
            | None =>
                find (fun actor => partialName searchTerm (actor_name actor)
                                   && hasPlayerOwner actor) (game_actors g)
            end in
          match character with
          | Some actor => characterFound g actor
          | None =>
              match find (fun actor => anyName searchTerm (actor_name actor))
                         (game_actors g) with
              | Some anyCharacter =>
                  if negb (hasPlayerOwner anyCharacter) then
                    {| pi_found := true; pi_user := None;
                       pi_character := Some anyCharacter;
                       pi_targetName :=
                         nameOr (actor_name anyCharacter) (js "Unknown Character");
                       pi_errorType := None; pi_errorMessage := None |}
                  else notFound g targetPlayer
              | None => notFound g targetPlayer
              end
          end
      end
  end.

(** [userName === searchTerm || (allowPartialMatch && userName.includes(searchTerm))]
    for [userName = name?.toLowerCase() || '']. *)
Definition nameMatches (allowPartialMatch : bool) (searchTerm : jsstring)
    (name : option jsstring) : bool :=
  let lowered := toLowerCase (default [] name) in
  streq lowered searchTerm || (allowPartialMatch && includes lowered searchTerm).

(** The loop over the users of [findPlayers]. *)
Definition playersByName (allowPartialMatch : bool) (searchTerm : jsstring)
    (users : list User) : list PlayerRef :=
  map playerRef
      (filter (fun u => negb (isGM u)
                        && nameMatches allowPartialMatch searchTerm (user_name u))
              users).

(** The loop over the actors. *)
Fixpoint playersByCharacter (allowPartialMatch : bool) (searchTerm : jsstring)
    (users : list User) (actors : list Actor) (players : list PlayerRef)
  : list PlayerRef :=
  match actors with
  | [] => players
  | actor :: rest =>
      let next :=
        if negb (streq (actor_type actor) (js "character")) then players
        else if nameMatches allowPartialMatch searchTerm (actor_name actor) then
          match find (ownerOf actor) users with
          | Some owner =>
              if negb (existsb (sameId owner) players)
              then players ++ [playerRef owner]
              else players
          | None => players
          end
        else players in
      playersByCharacter allowPartialMatch searchTerm users rest next
  end.

(** [findPlayers]; an option left out takes its default, [true]. *)
Definition findPlayers (identifier : jsstring)
    (allowPartialMatch includeCharacterOwners : option bool) (g : Game)
  : result (list PlayerRef) :=
  _ ← validateFoundryState g;
  let allow := default true allowPartialMatch in
  let searchTerm := toLowerCase identifier in
  let players := playersByName allow searchTerm (game_users g) in
  let players :=
    if default true includeCharacterOwners && (length players =? 0)%nat
    then playersByCharacter allow searchTerm (game_users g) (game_actors g) players
    else players in
  Ok (filter (fun p => negb (bool_decide (p_id p = []))) players).

(** *** The message of a roll request *)

(** The loop over the active GMs. *)
Fixpoint addGMs (gmUsers : list User) (whisperTargets : list jsstring) : list jsstring :=
  match gmUsers with
  | [] => whisperTargets
  | gm :: rest =>
      addGMs rest
        match user_id gm with
        | Some i =>
            if negb (bool_decide (i = [])) && negb (existsb (streq i) whisperTargets)
            then whisperTargets ++ [i]
            else whisperTargets
        | None => whisperTargets
        end
  end.

(** [x?.id || ''] *)
Definition idOr {A} (id : A -> option jsstring) (x : option A) : jsstring :=
  match x with
  | Some a => default [] (id a)
  | None => []
  end.

Definition whisperTargets (data : RollRequest) (playerInfo : PlayerInfo) (g : Game)
  : list jsstring :=
  if negb (isPublic data) then
    let first :=
      match idOr user_id (pi_user playerInfo) with
      | [] => []
      | i => [i]
      end in
    addGMs (filter (fun u => isGM u && active u) (game_users g)) first
  else [].

(** [requestPlayerRolls] up to the creation of the chat message; what the
    host does with the message is not part of it. *)
Definition preparedRollRequest (data : RollRequest) (g : Game) : result Prepared :=
  _ ← validateFoundryState g;
  let playerInfo := resolveTargetPlayer (targetPlayer data) g in
  if negb (pi_found playerInfo) then
    Ok (NotSent
          match pi_errorMessage playerInfo with
          | Some m => orText m (js "Could not find player or character: "
                                ++ targetPlayer data)
          | None => js "Could not find player or character: " ++ targetPlayer data
          end)
  else
    match buildRollFormula (rollType data) (rollTarget data) (rollModifier data)
                           (pi_character playerInfo) with
    | Throw e => Ok (Caught e)
    | Ok rollFormula =>
        Ok (Draft
              {| whisper := whisperTargets data playerInfo g;
                 md_rollFormula := rollFormula;
                 md_rollLabel :=
                   buildRollButtonLabel (rollType data) (rollTarget data) (isPublic data);
                 md_isPublic := isPublic data;
                 md_characterId := idOr actor_id (pi_character playerInfo);
                 md_targetUserId := idOr user_id (pi_user playerInfo) |})
    end.

End Players.

(** [getConnectedPlayers]: the users who are logged in, GMs apart. *)
Definition getConnectedPlayers (g : Game) : result (list PlayerRef) :=
  _ ← validateFoundryState g;
  let connectedPlayers := filter (fun u => active u && negb (isGM u)) (game_users g) in
  Ok (filter (fun p => negb (bool_decide (p_id p = []))) (map playerRef connectedPlayers)).

(** The names of the users and of the actors are in plain text. *)
Definition plainName (name : option jsstring) : bool :=
  match name with
  | Some s => plain s
  | None => true
  end.

Definition plainGame (g : Game) : bool :=
  forallb (fun u => plainName (user_name u)) (game_users g)
  && forallb (fun actor => plainName (actor_name actor)) (game_actors g).

(** Notions of the statements below: a player reference with an id, a text
    with a capital letter. *)
Definition hasId (p : PlayerRef) : bool := negb (bool_decide (p_id p = [])).

Definition hasUpper (s : jsstring) : bool :=
  existsb (fun u => (65 <=? u)%N && (u <=? 90)%N) s.

(** ** Placing tokens *)

Record Scene : Type := {
  grid_size : option Q;          (* [scene.grid?.size] *)
  scene_width : Q;
  scene_height : Q
}.

Inductive Placement : Type :=
| PlaceRandom
| PlaceGrid
| PlaceCenter
| PlaceCoordinates.

(** [Math.ceil(Math.sqrt(index + 1))]: for a count of tokens the square
    root is exact on squares and strictly between two integers otherwise. *)
Definition gridColumns (index : nat) : nat := Nat.sqrt_up (index + 1).

Definition ofNat (n : nat) : Q := inject_Z (Z.of_nat n).

(** [scene.grid?.size || 100] *)
Definition gridSizeOf (scene : Scene) : Q :=
  match grid_size scene with
  | Some size => if Qeq_bool size 0 then 100%Q else size
  | None => 100%Q
  end.

(** [random] stands for the two draws of [Math.random()].  Sums and
    products are exact here; the host computes them in double precision. *)
Definition calculateTokenPosition (random : Q * Q) (placement : Placement)
    (scene : Scene) (index : nat) (coordinates : option (list (Q * Q))) : Q * Q :=
  let gridSize := gridSizeOf scene in
  let onGrid :=
    let cols := gridColumns index in
    let row := (index / cols)%nat in
    let col := (index mod cols)%nat in
    ((gridSize + ofNat col * gridSize * 2)%Q, (gridSize + ofNat row * gridSize * 2)%Q) in
  match placement with
  | PlaceCoordinates =>
      match coordinates with
      | Some given =>
          match nth_error given index with
          | Some position => position
          | None => onGrid
          end
      | None => onGrid
      end
  | PlaceCenter =>
      ((scene_width scene / 2 + ofNat index * gridSize)%Q, (scene_height scene / 2)%Q)
  | PlaceGrid => onGrid
  | PlaceRandom =>
      ((fst random * (scene_width scene - gridSize))%Q,
       (snd random * (scene_height scene - gridSize))%Q)
  end.

(** The positions of [count] tokens placed one after the other. *)
Definition tokenPositions (random : Q * Q) (placement : Placement) (scene : Scene)
    (coordinates : option (list (Q * Q))) (count : nat) : list (Q * Q) :=
  map (fun index => calculateTokenPosition random placement scene index coordinates)
      (seq 0 count).

(** Two positions are the same point. *)
Definition samePlace (p q : Q * Q) : bool :=
  Qeq_bool (fst p) (fst q) && Qeq_bool (snd p) (snd q).

(** ** A table of players *)

Module Party.

Definition gm : User :=
  {| user_id := Some (js "gm1"); user_name := Some (js "Gamemaster");
     active := true; isGM := true |}.

Definition ann : User :=
  {| user_id := Some (js "u1"); user_name := Some (js "Ann");
     active := true; isGM := false |}.

Definition bob : User :=
  {| user_id := Some (js "u2"); user_name := Some (js "Bob");
     active := false; isGM := false |}.

(** Ann's character, with a strength modifier of -1 and a total of 5 in
    sleight of hand. *)
Definition zed : Actor :=
  {| actor_id := Some (js "a1"); actor_name := Some (js "Zed");
     actor_type := js "character"; hasPlayerOwner := true;
     getRollData :=
       JObj [(js "abilities", JObj [(js "str", JObj [(js "mod", JNum (-1))])]);
             (js "skills", JObj [(js "slt", JObj [(js "total", JNum 5)])])] |}.

Definition ogre : Actor :=
  {| actor_id := Some (js "a2"); actor_name := Some (js "Ogre");
     actor_type := js "npc"; hasPlayerOwner := false; getRollData := JObj [] |}.

(** A GM owns every actor; Ann owns Zed. *)
Definition owns (actor : Actor) (u : User) : bool :=
  isGM u || (streq (default [] (actor_id actor)) (js "a1")
             && streq (default [] (user_id u)) (js "u1")).

Definition game : Game :=
  {| game_ready := true; game_world := true; game_user := true;
     game_users := [gm; ann; bob]; game_actors := [zed; ogre] |}.

(** A private roll of a formula of the GM's own, asked of the GM. *)
Definition ownFormula : RollRequest :=
  {| rollType := js "custom"; rollTarget := js "2d6+3";
     targetPlayer := js "gamemaster"; isPublic := false;
     rollModifier := js "2"; flavor := [] |}.

(** A private sleight of hand check asked of Zed. *)
Definition sleight : RollRequest :=
  {| rollType := js "skill"; rollTarget := js "Sleight of Hand";
     targetPlayer := js "zed"; isPublic := false;
     rollModifier := js "-1"; flavor := [] |}.

Definition sleightDraft : MessageData :=
  {| whisper := [js "u1"; js "gm1"];
     md_rollFormula := js "1d20+5-1";
     md_rollLabel := js "Sleight of Hand Skill Check (Private)";
     md_isPublic := false;
     md_characterId := js "a1";
     md_targetUserId := js "u1" |}.

(** A scene of 20 by 16 squares of 50. *)
Definition hall : Scene :=
  {| grid_size := Some 50%Q; scene_width := 1000%Q; scene_height := 800%Q |}.

End Party.

(** * Properties *)

(** ** Helpers *)

Lemma streq_true a b : streq a b = true <-> a = b.
Proof. unfold streq. apply bool_decide_eq_true. Qed.

Lemma streq_false a b : streq a b = false <-> a <> b.
Proof. unfold streq. apply bool_decide_eq_false. Qed.

Lemma app_one_neq {A} (l : list A) x : l ++ [x] <> l.
Proof.
  intros H. apply (f_equal (@length A)) in H. rewrite length_app in H. simpl in H. lia.
Qed.

(** ** The validity check *)

Lemma fingerprintsMatch_true current saved :
  fingerprintsMatch current saved = true <->
  fp_documentCount current = fp_documentCount saved /\
  fp_checksum current = fp_checksum saved.
Proof.
  unfold fingerprintsMatch.
  rewrite andb_true_iff, Nat.eqb_eq, streq_true. tauto.
Qed.

Lemma checkPackFingerprints_true (w : World) saved l :
  checkPackFingerprints w saved l = Ok true <-> Forall (packMatched w saved) l.
Proof.
  induction l as [|p l IH]; simpl.
  - split; auto.
  - destruct (generatePackFingerprint w p) as [cur|e] eqn:Hfp; simpl.
    + destruct (saved !! pack_id p) as [st|] eqn:Hs.
      * destruct (fingerprintsMatch cur st) eqn:Hm; simpl.
        -- rewrite IH. split.
           ++ intros H. constructor; auto. exists cur, st.
              apply fingerprintsMatch_true in Hm. tauto.
           ++ intros H. inversion H; auto.
        -- split; [discriminate|]. intros H. inversion H as [|? ? Hp _]; subst.
           destruct Hp as (c & s & Hc & Hs' & Hn & Hk).
           rewrite Hfp in Hc. inversion Hc; subst c.
           rewrite Hs in Hs'. inversion Hs'; subst s.
           assert (fingerprintsMatch cur st = true)
             by (apply fingerprintsMatch_true; auto).
           congruence.
      * split; [discriminate|]. intros H. inversion H as [|? ? Hp _]; subst.
        destruct Hp as (c & s & _ & Hs' & _). congruence.
    + split; [discriminate|]. intros H. inversion H as [|? ? Hp _]; subst.
      destruct Hp as (c & s & Hc & _). congruence.
Qed.

Lemma checkPackFingerprints_total w saved l :
  Forall (fun p => is_ok (generatePackFingerprint w p) = true) l ->
  exists b, checkPackFingerprints w saved l = Ok b.
Proof.
  induction 1 as [|p l Hp _ IH]; simpl; eauto.
  destruct (generatePackFingerprint w p); [|discriminate]. simpl.
  destruct (saved !! pack_id p); eauto.
  destruct (fingerprintsMatch _ _); simpl; eauto.
Qed.

Lemma orphans_forallb (w : World) (saved : gmap (list N) PackFingerprint) :
  forallb (fun packId => bool_decide (is_Some (packs_get w packId)))
          (map fst (map_to_list saved)) = true <->
  (forall packId, is_Some (saved !! packId) -> is_Some (packs_get w packId)).
Proof.
  rewrite forallb_forall. split.
  - intros H k [v Hv]. apply (bool_decide_eq_true_1 _).
    apply H. apply in_map_iff. exists (k, v). split; auto.
    apply list_elem_of_In. apply elem_of_map_to_list. exact Hv.
  - intros H k Hin. apply in_map_iff in Hin as [[k' v] [Hk Hin]]. simpl in Hk. subst k'.
    apply bool_decide_eq_true_2. apply H. exists v.
    apply elem_of_map_to_list. apply list_elem_of_In. exact Hin.
Qed.

Lemma isIndexValid_true w index :
  isIndexValid w index = Ok true <-> ValidIndex w index.
Proof.
  unfold isIndexValid, ValidIndex.
  destruct (streq (md_version (metadata index)) INDEX_VERSION) eqn:Hv; simpl.
  2:{ apply streq_false in Hv. split; [discriminate|tauto]. }
  apply streq_true in Hv.
  destruct (streq (md_gameSystem (metadata index)) (systemId w)) eqn:Hg; simpl.
  2:{ apply streq_false in Hg. split; [discriminate|tauto]. }
  apply streq_true in Hg.
  pose proof (checkPackFingerprints_true w (md_packFingerprints (metadata index))
                (filter (fun p => isActorPack p = true) (packs w))) as Hc.
  rewrite Forall_forall in Hc.
  destruct (checkPackFingerprints w _ _) as [b|e] eqn:Hcheck; simpl.
  - destruct b; simpl.
    + destruct (forallb _ _) eqn:Ho.
      * pose proof (proj1 (orphans_forallb _ _) Ho) as Ho'. split; auto. intros _.
        repeat split; auto.
        intros p Hp Ha. apply Hc; auto.
        apply list_elem_of_filter. auto.
      * split; [discriminate|]. intros (_ & _ & _ & H).
        pose proof (proj2 (orphans_forallb _ _) H). congruence.
    + split; [discriminate|]. intros (_ & _ & H & _).
      assert (Ok false = Ok true :> result bool); [|discriminate].
      apply Hc. intros p Hp. apply list_elem_of_filter in Hp as [Ha Hp]. auto.
  - split; [discriminate|]. intros (_ & _ & H & _).
    assert (Throw e = Ok true :> result bool); [|discriminate].
    apply Hc. intros p Hp. apply list_elem_of_filter in Hp as [Ha Hp]. auto.
Qed.

Lemma isIndexValid_total w index :
  (forall p, p ∈ packs w -> isActorPack p = true ->
             is_ok (generatePackFingerprint w p) = true) ->
  exists b, isIndexValid w index = Ok b.
Proof.
  intros H. unfold isIndexValid.
  destruct (negb _); eauto. destruct (negb _); eauto.
  destruct (checkPackFingerprints_total w (md_packFingerprints (metadata index))
              (filter (fun p => isActorPack p = true) (packs w))) as [b Hb].
  { apply Forall_forall. intros p Hp.
    apply list_elem_of_filter in Hp as [Ha Hp]. auto. }
  rewrite Hb. simpl. destruct (negb b); eauto. destruct (forallb _ _); eauto.
Qed.

Lemma getEnhancedIndex_invalid w index :
  loadPersistedIndex w = Some index -> isIndexValid w index = Ok false ->
  getEnhancedIndex w = buildEnhancedIndex false w.
Proof. intros Hl Hv. unfold getEnhancedIndex. rewrite Hl, Hv. reflexivity. Qed.

(** C3. The validity check accepts a loaded index exactly when its version
    and game system are the current ones, every live Actor pack has a
    stored fingerprint with the document count and checksum of its fresh
    one, and no stored fingerprint is of a pack that is gone.  A single
    pack whose count or checksum differs keeps the index from being
    accepted, and an index the check answers false for makes
    [getEnhancedIndex] run a build; the check answers true or false whenever
    the fingerprint of every live Actor pack can be computed. *)
Theorem validity_rule (w : World) (index : PersistentEnhancedIndex) :
  (isIndexValid w index = Ok true <-> ValidIndex w index)
  /\ (forall p stored current,
        p ∈ packs w -> isActorPack p = true ->
        md_packFingerprints (metadata index) !! pack_id p = Some stored ->
        generatePackFingerprint w p = Ok current ->
        fp_documentCount current <> fp_documentCount stored
        \/ fp_checksum current <> fp_checksum stored ->
        isIndexValid w index <> Ok true)
  /\ (loadPersistedIndex w = Some index -> isIndexValid w index = Ok false ->
      getEnhancedIndex w = buildEnhancedIndex false w)
  /\ ((forall p, p ∈ packs w -> isActorPack p = true ->
                 is_ok (generatePackFingerprint w p) = true) ->
      loadPersistedIndex w = Some index -> ~ ValidIndex w index ->
      isIndexValid w index = Ok false
      /\ getEnhancedIndex w = buildEnhancedIndex false w).
Proof.
  split; [apply isIndexValid_true|]. split; [|split].
  - intros p stored current Hp Ha Hs Hf Hdiff Hvalid.
    apply isIndexValid_true in Hvalid. destruct Hvalid as (_ & _ & Hm & _).
    destruct (Hm p Hp Ha) as (c & s & Hc & Hs' & Hn & Hk).
    rewrite Hf in Hc. inversion Hc; subst c.
    rewrite Hs in Hs'. inversion Hs'; subst s. tauto.
  - intros Hl Hv. eapply getEnhancedIndex_invalid; eauto.
  - intros Hfp Hl Hn.
    assert (Hfalse : isIndexValid w index = Ok false).
    { destruct (isIndexValid_total w index Hfp) as [[|] Hb]; auto.
      apply isIndexValid_true in Hb. contradiction. }
    split; [exact Hfalse|]. eapply getEnhancedIndex_invalid; eauto.
Qed.

Lemma validity_rule_witness :
  loadPersistedIndex Sample.grown = Some Sample.builtIndex
  /\ isIndexValid Sample.grown Sample.builtIndex = Ok false
  /\ getEnhancedIndex Sample.grown = buildEnhancedIndex false Sample.grown.
Proof.
  assert (Hl : loadPersistedIndex Sample.grown = Some Sample.builtIndex)
    by (vm_compute; reflexivity).
  assert (Hv : isIndexValid Sample.grown Sample.builtIndex = Ok false)
    by (vm_compute; reflexivity).
  split; [exact Hl|]. split; [exact Hv|].
  exact (proj1 (proj2 (proj2 (validity_rule Sample.grown Sample.builtIndex))) Hl Hv).
Defined.

(** ** Extraction and the builders *)

Lemma ensureIndexed_same p p1 :
  ensureIndexed p = Some p1 ->
  pack_id p1 = pack_id p /\ pack_label p1 = pack_label p /\
  pack_type p1 = pack_type p /\ pack_getDocuments p1 = pack_getDocuments p.
Proof.
  unfold ensureIndexed, getIndex. destruct (pack_indexed p).
  - intros [= <-]. auto.
  - destruct (pack_getIndex p); [|discriminate]. intros [= <-]. simpl. auto.
Qed.













(** *** The write at the end of a build *)

Lemma saveAndReturn_spec w g acc :
  let r := saveAndReturn w g acc in
  let index := makePersistentIndex w g acc in
  uploads (snd r) = uploads w ++ [serializeIndex index]
  /\ buildInProgress (snd r) = false
  /\ ((uploadOutcome w = UploadStores /\ fst r = Ok (enhancedCreatures acc) /\
       indexFile (snd r) = Some (IndexFile (serializeIndex index)))
      \/ (uploadOutcome w <> UploadStores /\ indexFile (snd r) = indexFile w /\
          (fst r = Throw uploadFailed \/ fst r = Throw uploadRejected))).
Proof.
  unfold saveAndReturn, savePersistedIndex.
  destruct (uploadOutcome w); simpl;
    (split; [reflexivity|split; [reflexivity|]]);
    [left; auto | right; split; [discriminate|auto] | right; split; [discriminate|auto]].
Qed.

(** C2, as amended.  When the host does not store the upload, a build that
    got through all packs does not return the profile list: the call fails
    with the error of the write, the index file is as it was and the
    build-in-progress flag is cleared. *)
Theorem write_failure_fails_build (w : World) :
  uploadOutcome w <> UploadStores ->
  (fst (buildDnD5eIndex w) = Throw uploadFailed \/
   fst (buildDnD5eIndex w) = Throw uploadRejected)
  /\ indexFile (snd (buildDnD5eIndex w)) = indexFile w
  /\ buildInProgress (snd (buildDnD5eIndex w)) = false
  /\ (forall acc,
        buildPF2ePacks (setBuildInProgress true w) (packs w) emptyAcc = Ok acc ->
        (fst (buildPF2eIndex w) = Throw uploadFailed \/
         fst (buildPF2eIndex w) = Throw uploadRejected)
        /\ indexFile (snd (buildPF2eIndex w)) = indexFile w
        /\ buildInProgress (snd (buildPF2eIndex w)) = false).
Proof.
  intros Hup. unfold buildDnD5eIndex, buildPF2eIndex.
  destruct (buildDnD5ePacks _ _ _) as [ps1 acc1].
  match goal with |- context [saveAndReturn ?w1 ?g ?a] =>
    pose proof (saveAndReturn_spec w1 g a) as H end.
  simpl in H. destruct H as (_ & Hflag & [(Hs & _)|(_ & Hfile & Hthrow)]).
  { simpl in Hs. contradiction. }
  split; [exact Hthrow|]. split; [exact Hfile|]. split; [exact Hflag|].
  intros acc Hacc. change (packs (setBuildInProgress true w)) with (packs w).
  rewrite Hacc.
  pose proof (saveAndReturn_spec (setBuildInProgress true w) "pf2e" acc) as H.
  simpl in H. destruct H as (_ & Hflag' & [(Hs & _)|(_ & Hfile' & Hthrow')]).
  { simpl in Hs. contradiction. }
  auto.
Qed.

Lemma write_failure_fails_build_witness :
  uploadOutcome Sample.diskFull <> UploadStores
  /\ (fst (buildDnD5eIndex Sample.diskFull) = Throw uploadFailed \/
      fst (buildDnD5eIndex Sample.diskFull) = Throw uploadRejected).
Proof.
  assert (H : uploadOutcome Sample.diskFull <> UploadStores)
    by (vm_compute; discriminate).
  split; [exact H|]. exact (proj1 (write_failure_fails_build Sample.diskFull H)).
Defined.

(** C2 as stated fails: the build of [diskFull] gets through its pack, the
    upload is rejected, and the build call throws instead of returning
    the profiles. *)
Lemma write_failure_counterexample :
  forallb (completedDnD5e Sample.diskFull) (packs Sample.diskFull) = true
  /\ fst (buildDnD5eIndex Sample.diskFull) = Throw uploadRejected
  /\ is_ok (fst (buildDnD5eIndex Sample.diskFull)) = false.
Proof. repeat split; vm_compute; reflexivity. Qed.

(** *** What a build writes *)

Lemma build_writes (force : bool) (w : World) :
  let r := buildEnhancedIndex force w in
  (exists e, fst r = Throw e /\ uploads (snd r) = uploads w /\
             indexFile (snd r) = indexFile w)
  \/ (exists index,
        allPacksBuilt w = Some index /\
        uploads (snd r) = uploads w ++ [serializeIndex index] /\
        (indexFile (snd r) = indexFile w \/
         indexFile (snd r) = Some (IndexFile (serializeIndex index)))).
Proof.
  unfold buildEnhancedIndex, allPacksBuilt.
  destruct (buildInProgress w && negb force); simpl.
  { left. eauto. }
  destruct (streq (systemId w) (js "pf2e")).
  - unfold buildPF2eIndex. change (packs (setBuildInProgress true w)) with (packs w).
    destruct (buildPF2ePacks _ _ _) as [acc|e].
    + right. eexists. split; [reflexivity|].
      pose proof (saveAndReturn_spec (setBuildInProgress true w) "pf2e" acc)
        as (Hu & _ & Hc).
      split; [exact Hu|]. destruct Hc as [(_ & _ & Hf)|(_ & Hf & _)]; auto.
    + left. simpl. eauto.
  - destruct (streq (systemId w) (js "dnd5e")).
    + unfold buildDnD5eIndex. change (packs (setBuildInProgress true w)) with (packs w).
      destruct (buildDnD5ePacks _ _ _) as [ps1 acc].
      right. eexists. split; [reflexivity|].
      pose proof (saveAndReturn_spec (setPacks ps1 (setBuildInProgress true w)) "dnd5e" acc)
        as (Hu & _ & Hc).
      split; [exact Hu|]. destruct Hc as [(_ & _ & Hf)|(_ & Hf & _)]; auto.
    + left. simpl. eauto.
Qed.

(** C4.  A build that throws without having reached the write leaves the
    index file as it was.  A build uploads nothing, or uploads once, and
    then the whole index gathered from all packs; a build whose pack loop
    does not run to its end throws, uploads nothing and leaves the index
    file as it was. *)
Theorem discard_on_failure (force : bool) (w : World) :
  let r := buildEnhancedIndex force w in
  (forall e, fst r = Throw e -> uploads (snd r) = uploads w ->
             indexFile (snd r) = indexFile w)
  /\ ((uploads (snd r) = uploads w /\ indexFile (snd r) = indexFile w)
      \/ (exists index,
            allPacksBuilt w = Some index /\
            uploads (snd r) = uploads w ++ [serializeIndex index]))
  /\ (allPacksBuilt w = None ->
      exists e, fst r = Throw e /\ uploads (snd r) = uploads w /\
                indexFile (snd r) = indexFile w).
Proof.
  intros r. pose proof (build_writes force w) as H. fold r in H.
  split; [|split].
  - intros e _ Hu. destruct H as [(e' & _ & _ & Hf)|(index & _ & Hu' & _)]; auto.
    rewrite Hu in Hu'. symmetry in Hu'. apply app_one_neq in Hu'. contradiction.
  - destruct H as [(e' & _ & Hu & Hf)|(index & Ha & Hu & _)]; eauto.
  - intros Hn. destruct H as [H|(index & Ha & _)]; [exact H|congruence].
Qed.

Lemma discard_on_failure_witness :
  allPacksBuilt Sample.pathfinder = None
  /\ exists e,
       fst (buildEnhancedIndex false Sample.pathfinder) = Throw e
       /\ uploads (snd (buildEnhancedIndex false Sample.pathfinder))
          = uploads Sample.pathfinder
       /\ indexFile (snd (buildEnhancedIndex false Sample.pathfinder))
          = Some (IndexFile Sample.oldIndex).
Proof.
  assert (H : allPacksBuilt Sample.pathfinder = None) by (vm_compute; reflexivity).
  split; [exact H|].
  exact (proj2 (proj2 (discard_on_failure false Sample.pathfinder)) H).
Defined.

(** *** The latch *)

Lemma generatePackFingerprint_throw w p e :
  generatePackFingerprint w p = Throw e -> e = InvalidCharacterError.
Proof.
  unfold generatePackFingerprint, generatePackChecksum, btoa.
  destruct (forallb _ _); simpl; [discriminate|]. intros [= <-]. reflexivity.
Qed.

Lemma buildPF2ePacks_throw w ps acc e :
  buildPF2ePacks w ps acc = Throw e -> e = InvalidCharacterError.
Proof.
  revert acc. induction ps as [|p ps IH]; intros acc; simpl; [discriminate|].
  destruct (isActorPack p); [|apply IH].
  destruct (generatePackFingerprint w p) eqn:Hf; simpl.
  - apply IH.
  - intros [= <-]. eapply generatePackFingerprint_throw; eauto.
Qed.

Lemma build_errors (force : bool) (w : World) e :
  fst (buildEnhancedIndex force w) = Throw e ->
  e = Error buildInProgressMessage /\ buildInProgress w = true /\ force = false
  \/ e = uploadFailed \/ e = uploadRejected \/ e = InvalidCharacterError
  \/ e = Error (js "Enhanced creature index not supported for system: "
                  ++ systemId w
                  ++ js ". Only D&D 5e and Pathfinder 2e are currently supported.").
Proof.
  unfold buildEnhancedIndex.
  destruct (buildInProgress w) eqn:Hb, force; simpl.
  2:{ intros [= <-]. left. auto. }
  all: destruct (streq (systemId w) (js "pf2e"));
    [ unfold buildPF2eIndex;
      destruct (buildPF2ePacks _ _ _) as [acc|e'] eqn:Hp;
      [ match goal with |- context [saveAndReturn ?w1 ?g ?a] =>
          pose proof (saveAndReturn_spec w1 g a)
            as (_ & _ & [(_ & -> & _)|(_ & _ & [-> | ->])])
        end; [discriminate | intros [= <-]; auto | intros [= <-]; auto]
      | simpl; intros [= <-]; apply buildPF2ePacks_throw in Hp; auto ]
    | destruct (streq (systemId w) (js "dnd5e"));
      [ unfold buildDnD5eIndex; destruct (buildDnD5ePacks _ _ _) as [ps1 acc];
        match goal with |- context [saveAndReturn ?w1 ?g ?a] =>
          pose proof (saveAndReturn_spec w1 g a)
            as (_ & _ & [(_ & -> & _)|(_ & _ & [-> | ->])])
        end; [discriminate | intros [= <-]; auto | intros [= <-]; auto]
      | simpl; intros [= <-]; auto 10 ] ].
Qed.

(** C5, as amended.  While the build-in-progress flag is set, a build that
    is not forced throws "Index build already in progress" at once and
    changes nothing; a forced build skips the latch, never throws that
    error, and returns what a build would return with the flag clear.
    [rebuildIndex] takes no argument and always forces, so it never throws
    the latch error. *)
Theorem single_flight_latch (w : World) :
  (buildInProgress w = true ->
   buildEnhancedIndex false w = (Throw (Error buildInProgressMessage), w))
  /\ fst (buildEnhancedIndex true w) <> Throw (Error buildInProgressMessage)
  /\ fst (buildEnhancedIndex true w)
     = fst (buildEnhancedIndex false (setBuildInProgress false w))
  /\ rebuildIndex w = buildEnhancedIndex true w
  /\ fst (rebuildIndex w) <> Throw (Error buildInProgressMessage).
Proof.
  assert (Hforced : fst (buildEnhancedIndex true w) <> Throw (Error buildInProgressMessage)).
  { intros H. apply build_errors in H.
    destruct H as [(_ & _ & H)|[H|[H|[H|H]]]]; discriminate. }
  split; [|split; [exact Hforced|split; [|split; [reflexivity|exact Hforced]]]].
  - intros Hb. unfold buildEnhancedIndex. rewrite Hb. reflexivity.
  - unfold buildEnhancedIndex. rewrite andb_false_r. simpl.
    destruct (streq (systemId w) (js "pf2e")); [reflexivity|].
    destruct (streq (systemId w) (js "dnd5e")); reflexivity.
Qed.

Lemma single_flight_latch_witness :
  buildInProgress Sample.busy = true
  /\ buildEnhancedIndex false Sample.busy
     = (Throw (Error buildInProgressMessage), Sample.busy).
Proof.
  assert (H : buildInProgress Sample.busy = true) by reflexivity.
  split; [exact H|]. exact (proj1 (single_flight_latch Sample.busy) H).
Defined.

(** C5 as stated fails for [rebuildIndex]: called while a build is running
    it raises no build-in-progress error but runs a build of its own. *)
Lemma rebuildIndex_counterexample :
  buildInProgress Sample.busy = true
  /\ is_ok (fst (rebuildIndex Sample.busy)) = true
  /\ length (uploads (snd (rebuildIndex Sample.busy))) = 1%nat.
Proof. repeat split; vm_compute; reflexivity. Qed.

(** ** The criteria predicate *)

Lemma challengeRating_test x wanted :
  match wanted with
  | Some (Exact n) => negb (Qeq_bool x n)
  | Some (Range min max) =>
      match min with Some lo => negb (Qle_bool lo x) | None => false end
      || match max with Some hi => negb (Qle_bool x hi) | None => false end
  | None => false
  end = false <-> challengeRatingOk x wanted.
Proof.
  unfold challengeRatingOk, withinBounds.
  destruct wanted as [[n|lo hi]|]; simpl.
  - rewrite negb_false_iff. apply Qeq_bool_iff.
  - rewrite orb_false_iff.
    destruct lo, hi; rewrite ?negb_false_iff, ?Qle_bool_iff; tauto.
  - tauto.
Qed.

Lemma level_test x wanted :
  match wanted with
  | Some (Exact n) => negb (Qeq_bool x n)
  | Some (Range min max) =>
      let lo := match min with Some m => m | None => (-1)%Q end in
      let hi := match max with Some m => m | None => 25%Q end in
      negb (Qle_bool lo x) || negb (Qle_bool x hi)
  | None => false
  end = false <-> levelOk x wanted.
Proof.
  unfold levelOk, withinBounds.
  destruct wanted as [[n|lo hi]|]; simpl.
  - rewrite negb_false_iff. apply Qeq_bool_iff.
  - rewrite orb_false_iff, !negb_false_iff, !Qle_bool_iff.
    destruct lo, hi; simpl; tauto.
  - tauto.
Qed.

Lemma text_test own wanted :
  match given wanted with
  | Some t => differsIgnoringCase own t
  | None => false
  end = false <-> textOk own wanted.
Proof.
  unfold textOk, differsIgnoringCase. destruct (given wanted); [|tauto].
  rewrite negb_false_iff. apply streq_true.
Qed.

Lemma flag_test own wanted :
  match wanted with
  | Some b => negb (Bool.eqb own b)
  | None => false
  end = false <-> flagOk own wanted.
Proof.
  unfold flagOk. destruct wanted; [|tauto].
  rewrite negb_false_iff. apply Bool.eqb_true_iff.
Qed.

Lemma passesDnD5eCriteria_true creature criteria :
  passesDnD5eCriteria creature criteria = true <->
  challengeRatingOk (d5_challengeRating creature) (c_challengeRating criteria) /\
  textOk (d5_creatureType creature) (c_creatureType criteria) /\
  textOk (d5_size creature) (c_size criteria) /\
  flagOk (d5_hasSpells creature) (c_hasSpells criteria) /\
  flagOk (d5_hasLegendaryActions creature) (c_hasLegendaryActions criteria).
Proof.
  unfold passesDnD5eCriteria.
  rewrite <- challengeRating_test, <- !text_test, <- !flag_test.
  repeat match goal with
  | |- context [if ?c then false else _] => destruct c
  end; intuition congruence.
Qed.

Lemma someTrait_strings ts r :
  someTrait (map JStr ts) r =
  Ok (existsb (fun t => streq (toLowerCase t) (toLowerCase r)) ts).
Proof.
  induction ts as [|t ts IH]; simpl; auto.
  destruct (streq (toLowerCase t) (toLowerCase r)); simpl; auto.
Qed.

Lemma everyTrait_strings ts required :
  everyTrait (map JStr ts) required =
  Ok (forallb (fun r => existsb (fun t => streq (toLowerCase t) (toLowerCase r)) ts)
              required).
Proof.
  induction required as [|r rs IH]; simpl; auto.
  rewrite someTrait_strings. simpl.
  destruct (existsb _ ts); simpl; auto.
Qed.

Lemma traits_forallb ts required :
  forallb (fun r => existsb (fun t => streq (toLowerCase t) (toLowerCase r)) ts)
          required = true
  <-> traitsOk ts (Some required).
Proof.
  unfold traitsOk. rewrite forallb_forall. split.
  - intros H r Hr. apply list_elem_of_In in Hr. apply H in Hr.
    apply existsb_exists in Hr as (t & Ht & Heq). exists t. split.
    + apply list_elem_of_In. exact Ht.
    + apply streq_true. exact Heq.
  - intros H r Hr. apply list_elem_of_In in Hr. destruct (H r Hr) as (t & Ht & Heq).
    apply existsb_exists. exists t. split.
    + apply list_elem_of_In. exact Ht.
    + apply streq_true. exact Heq.
Qed.

Lemma traits_test ts wanted :
  exists b,
    match wanted return result bool with
    | Some ((_ :: _) as required) => everyTrait (map JStr ts) required
    | _ => Ok true
    end = Ok b /\ (b = true <-> traitsOk ts wanted).
Proof.
  destruct wanted as [[|r rs]|].
  - exists true. split; auto. split; auto. intros _ r Hr. inversion Hr.
  - rewrite everyTrait_strings. eexists. split; [reflexivity|]. apply traits_forallb.
  - exists true. split; auto. simpl. tauto.
Qed.

Lemma rarity_test own wanted :
  match given wanted with
  | Some r => match own with
              | JStr o => negb (streq o r)
              | _ => true
              end
  | None => false
  end = false <-> rarityOk own wanted.
Proof.
  unfold rarityOk. destruct (given wanted) as [r|]; [|tauto].
  destruct own; try (split; [discriminate|intros H; discriminate]).
  rewrite negb_false_iff, streq_true.
  split; [intros ->; reflexivity|intros [= ->]; reflexivity].
Qed.

Lemma passesPF2eCriteria_strings creature criteria ts :
  pf_traits creature = map JStr ts ->
  (exists b, passesPF2eCriteria creature criteria = Ok b) /\
  (passesPF2eCriteria creature criteria = Ok true <->
   levelOk (pf_level creature) (c_level criteria) /\
   traitsOk ts (c_traits criteria) /\
   rarityOk (pf_rarity creature) (c_rarity criteria) /\
   textOk (pf_creatureType creature) (c_creatureType criteria) /\
   textOk (pf_size creature) (c_size criteria) /\
   flagOk (pf_hasSpells creature) (c_hasSpells criteria)).
Proof.
  intros Hts. unfold passesPF2eCriteria. rewrite Hts.
  rewrite <- level_test, <- rarity_test, <- !text_test, <- flag_test.
  destruct (traits_test ts (c_traits criteria)) as (b & -> & Hb). simpl.
  rewrite <- Hb. clear Hb. destruct b; simpl;
  repeat match goal with
  | |- context [if ?c then Ok false else _] => destruct c
  end; simpl; (split; [eauto|]); intuition congruence.
Qed.

Lemma filterByCriteria_ok l criteria kept :
  filterByCriteria l criteria = Ok kept -> kept = List.filter (passes criteria) l.
Proof.
  revert kept. induction l as [|c l IH]; intros kept; simpl.
  - intros [= <-]. reflexivity.
  - unfold passes at 1.
    destruct (passesEnhancedCriteria c criteria) as [b|e]; simpl; [|discriminate].
    destruct (filterByCriteria l criteria) as [k|e]; simpl; [|discriminate].
    intros [= <-]. rewrite (IH k eq_refl). destruct b; reflexivity.
Qed.

(** C6.  In dialect B a bound of the level range that is left out does
    exclude: the criteria "level at least 20" reject a profile of level 26
    that meets them as the specification words them, where dialect A
    accepts a profile of challenge rating 26 for "challenge rating at
    least 20".  In general no profile above level 25 passes a level range
    without an upper bound, and none below level -1 passes a range without
    a lower bound. *)
Theorem absent_level_bound_excludes :
  passesEnhancedCriteria (Sample.creaturePf "Titan" 26) Sample.atLeast20 = Ok false
  /\ claimedPasses (Sample.creaturePf "Titan" 26) Sample.atLeast20 = true
  /\ passesEnhancedCriteria (Sample.creature5e "Titan" 26)
       (withChallengeRating noCriteria (Some (Range (Some 20%Q) None))) = Ok true
  /\ claimedPasses (Sample.creature5e "Titan" 26)
       (withChallengeRating noCriteria (Some (Range (Some 20%Q) None))) = true
  /\ (forall (c : PF2eCreatureIndex) (criteria : Criteria) (lo : option Q),
        c_level criteria = Some (Range lo None) -> (25 < pf_level c)%Q ->
        passesEnhancedCriteria (PF2e c) criteria = Ok false)
  /\ (forall (c : PF2eCreatureIndex) (criteria : Criteria) (hi : option Q),
        c_level criteria = Some (Range None hi) -> (pf_level c < -1)%Q ->
        passesEnhancedCriteria (PF2e c) criteria = Ok false).
Proof.
  split; [vm_compute; reflexivity|]. split; [vm_compute; reflexivity|].
  split; [vm_compute; reflexivity|]. split; [vm_compute; reflexivity|].
  split.
  - intros c criteria lo Hl Hc. simpl. unfold passesPF2eCriteria. rewrite Hl.
    cbv zeta.
    assert (Qle_bool (pf_level c) 25 = false) as ->.
    { destruct (Qle_bool (pf_level c) 25) eqn:E; [|reflexivity].
      apply Qle_bool_iff in E. exfalso. apply (Qlt_irrefl 25).
      eapply Qlt_le_trans; eauto. }
    rewrite orb_true_r. reflexivity.
  - intros c criteria hi Hl Hc. simpl. unfold passesPF2eCriteria. rewrite Hl.
    cbv zeta.
    assert (Qle_bool (-1) (pf_level c) = false) as ->.
    { destruct (Qle_bool (-1) (pf_level c)) eqn:E; [|reflexivity].
      apply Qle_bool_iff in E. exfalso. apply (Qlt_irrefl (pf_level c)).
      eapply Qlt_le_trans; eauto. }
    reflexivity.
Qed.

(** C8.  With the other criteria fixed and a <= c <= b, a profile that
    passes with the power range [a, c] passes with the range [a, b], in
    either dialect; so the profiles of any index passing [a, c] are among
    those passing [a, b]. *)
Theorem range_monotonic (criteria : Criteria) (a c b : Q) :
  (a <= c)%Q -> (c <= b)%Q ->
  (forall creature,
      passesEnhancedCriteria creature (withPowerRange criteria a c) = Ok true ->
      passesEnhancedCriteria creature (withPowerRange criteria a b) = Ok true)
  /\ (forall index creature,
        In creature (List.filter (passes (withPowerRange criteria a c)) index) ->
        In creature (List.filter (passes (withPowerRange criteria a b)) index)).
Proof.
  intros Hac Hcb.
  assert (Hone : forall creature,
    passesEnhancedCriteria creature (withPowerRange criteria a c) = Ok true ->
    passesEnhancedCriteria creature (withPowerRange criteria a b) = Ok true).
  { intros [d|p]; simpl.
    - intros [= H]. f_equal. apply passesDnD5eCriteria_true in H.
      apply passesDnD5eCriteria_true. simpl in *. unfold withinBounds in *.
      destruct H as ((Hlo & Hhi) & Hrest). split; [|exact Hrest].
      split; [exact Hlo|]. eapply Qle_trans; eauto.
    - unfold passesPF2eCriteria. simpl.
      destruct (Qle_bool a (pf_level p)) eqn:Hlo; simpl; [|discriminate].
      destruct (Qle_bool (pf_level p) c) eqn:Hhi; simpl; [|discriminate].
      assert (Hb : Qle_bool (pf_level p) b = true).
      { apply Qle_bool_iff. apply Qle_bool_iff in Hhi. eapply Qle_trans; eauto. }
      rewrite Hb. simpl. auto. }
  split; [exact Hone|].
  intros index creature Hin. apply filter_In in Hin as [Hin Hp].
  apply filter_In. split; [exact Hin|].
  unfold passes in *.
  destruct (passesEnhancedCriteria creature (withPowerRange criteria a c))
    as [[|]|] eqn:E; try discriminate.
  rewrite (Hone creature E). reflexivity.
Qed.

Lemma range_monotonic_witness :
  (1 <= 2)%Q /\ (2 <= 3)%Q
  /\ passesEnhancedCriteria (Sample.creature5e "A" 2) (withPowerRange noCriteria 1 3)
     = Ok true.
Proof.
  assert (H1 : (1 <= 2)%Q) by (vm_compute; discriminate).
  assert (H2 : (2 <= 3)%Q) by (vm_compute; discriminate).
  split; [exact H1|]. split; [exact H2|].
  apply (proj1 (range_monotonic noCriteria 1 2 3 H1 H2)).
  vm_compute. reflexivity.
Defined.

(** ** Sorting *)

Section SortFacts.
Context {A : Type} (cmp : A -> A -> comparison).

Lemma insertSorted_perm x l : Permutation (insertSorted cmp x l) (x :: l).
Proof.
  induction l as [|y r IH]; simpl; auto.
  destruct (cmp x y); auto.
  rewrite IH. apply perm_swap.
Qed.

Lemma sortBy_perm l : Permutation (sortBy cmp l) l.
Proof.
  induction l as [|x r IH]; simpl; auto.
  rewrite insertSorted_perm. auto.
Qed.

(** A consistent comparator: swapping the arguments flips the sign, and
    "not after" is transitive. *)
Hypothesis cmp_flip : forall a b, cmp b a = CompOpp (cmp a b).
Hypothesis cmp_trans : forall a b c, cmp a b <> Gt -> cmp b c <> Gt -> cmp a c <> Gt.

Lemma insertSorted_sorted x l :
  StronglySorted (fun a b => cmp a b <> Gt) l ->
  StronglySorted (fun a b => cmp a b <> Gt) (insertSorted cmp x l).
Proof using cmp_flip cmp_trans.
  induction 1 as [|y r Hs IH Hy]; simpl.
  - repeat constructor.
  - destruct (cmp x y) eqn:Hxy.
    + constructor; [constructor; auto|]. constructor; [congruence|].
      eapply Forall_impl; [exact Hy|]. intros z Hz. simpl in Hz.
      apply (cmp_trans x y z); congruence.
    + constructor; [constructor; auto|]. constructor; [congruence|].
      eapply Forall_impl; [exact Hy|]. intros z Hz. simpl in Hz.
      apply (cmp_trans x y z); congruence.
    + constructor; auto.
      assert (Hyx : cmp y x <> Gt) by (rewrite cmp_flip, Hxy; discriminate).
      apply Forall_forall. intros z Hz.
      apply list_elem_of_In in Hz.
      apply (Permutation_in _ (insertSorted_perm x r)) in Hz.
      destruct Hz as [<-|Hz]; auto.
      rewrite Forall_forall in Hy. apply Hy. apply list_elem_of_In. exact Hz.
Qed.

Lemma sortBy_sorted l : StronglySorted (fun a b => cmp a b <> Gt) (sortBy cmp l).
Proof using cmp_flip cmp_trans.
  induction l as [|x r IH]; simpl; [constructor|].
  apply insertSorted_sorted. exact IH.
Qed.

Lemma insertSorted_stable z x l :
  List.filter (tiedWith cmp z) (insertSorted cmp x l)
  = List.filter (tiedWith cmp z) (x :: l).
Proof using cmp_flip cmp_trans.
  induction l as [|y r IH]; simpl; auto.
  destruct (cmp x y) eqn:Hxy; simpl; auto.
  rewrite IH. simpl.
  destruct (tiedWith cmp z x) eqn:Hzx, (tiedWith cmp z y) eqn:Hzy; auto.
  exfalso. unfold tiedWith in *.
  destruct (cmp z x) eqn:E1; try discriminate.
  destruct (cmp z y) eqn:E2; try discriminate.
  apply (cmp_trans x z y).
  - rewrite cmp_flip, E1. discriminate.
  - rewrite E2. discriminate.
  - exact Hxy.
Qed.

Lemma sortBy_stable z l :
  List.filter (tiedWith cmp z) (sortBy cmp l) = List.filter (tiedWith cmp z) l.
Proof using cmp_flip cmp_trans.
  induction l as [|x r IH]; simpl; auto.
  rewrite insertSorted_stable. simpl. rewrite IH. reflexivity.
Qed.
End SortFacts.

Lemma In_firstn {A} (y : A) n l : In y (firstn n l) -> In y l.
Proof.
  revert n. induction l as [|x l IH]; intros [|n]; simpl; try tauto.
  intros [H|H]; eauto.
Qed.

Lemma StronglySorted_firstn {A} (R : A -> A -> Prop) n l :
  StronglySorted R l -> StronglySorted R (firstn n l).
Proof.
  revert n. induction l as [|x l IH]; intros n H.
  - destruct n; constructor.
  - destruct n; simpl; [constructor|].
    inversion H as [|? ? Hs Hf]; subst. constructor; auto.
    rewrite Forall_forall in *. intros y Hy. apply Hf.
    apply list_elem_of_In. apply list_elem_of_In in Hy.
    eapply In_firstn; eauto.
Qed.

Lemma perm3 {A} (a b c : A) l :
  Permutation l [a; b; c] ->
  In l [[a; b; c]; [a; c; b]; [b; a; c]; [c; a; b]; [b; c; a]; [c; b; a]].
Proof.
  intros H.
  destruct (Permutation_vs_cons_inv H) as (l1 & l2 & ->).
  apply Permutation_sym, (Permutation_cons_app_inv l1 l2), Permutation_sym in H.
  symmetry in H. apply Permutation_length_2_inv in H.
  destruct l1 as [|x [|y [|z l1]]]; simpl in *;
    destruct H as [H|H]; inversion H; subst; simpl; tauto.
Qed.

Lemma applyLimit_firstn {A} (xs : list A) limit :
  exists n, applyLimit xs limit = firstn n xs.
Proof.
  unfold applyLimit, slice0. destruct (_ >? _).
  - destruct (limit <? 0); eauto.
  - exists (length xs). symmetry. apply firstn_all.
Qed.

Lemma answerCreatures_entries l summary :
  answerCreatures {| qr_creatures := map EnhancedEntry (map toEnhancedResult l);
                     searchSummary := summary |} = l.
Proof.
  unfold answerCreatures. simpl. induction l as [|c l IH]; simpl; auto.
  unfold omap in *. simpl. rewrite IH. reflexivity.
Qed.

Section SortedResults.
Variable localeCompare : jsstring -> jsstring -> comparison.

(** The collation is a total preorder. *)
Hypothesis localeCompare_flip :
  forall a b, localeCompare b a = CompOpp (localeCompare a b).
Hypothesis localeCompare_trans :
  forall a b c, localeCompare a b <> Gt -> localeCompare b c <> Gt ->
                localeCompare a c <> Gt.

Lemma compareCreatures_inOrder a b :
  compareCreatures localeCompare a b <> Gt <-> inOrder localeCompare a b.
Proof using Type.
  unfold compareCreatures, inOrder.
  destruct (Qcompare (power a) (power b)) eqn:Hc.
  - apply Qeq_alt in Hc. split; [auto|]. intros [H|[_ H]]; auto.
    rewrite Hc in H. exfalso. revert H. apply Qlt_irrefl.
  - apply Qlt_alt in Hc. split; [auto|discriminate].
  - apply Qgt_alt in Hc. split; [congruence|]. intros [H|[H _]]; exfalso.
    + apply (Qlt_irrefl (power a)). eapply Qlt_trans; eauto.
    + rewrite H in Hc. revert Hc. apply Qlt_irrefl.
Qed.

Lemma compareCreatures_flip a b :
  compareCreatures localeCompare b a = CompOpp (compareCreatures localeCompare a b).
Proof using localeCompare_flip.
  unfold compareCreatures. rewrite <- (Qcompare_antisym (power a) (power b)).
  destruct (Qcompare (power a) (power b)); simpl; auto.
Qed.

Lemma inOrder_trans a b c :
  inOrder localeCompare a b -> inOrder localeCompare b c -> inOrder localeCompare a c.
Proof using localeCompare_trans.
  unfold inOrder. intros [H1|[H1 N1]] [H2|[H2 N2]].
  - left. eapply Qlt_trans; eauto.
  - left. rewrite <- H2. exact H1.
  - left. rewrite H1. exact H2.
  - right. split; [rewrite H1; exact H2|]. eapply localeCompare_trans; eauto.
Qed.

Lemma compareCreatures_trans a b c :
  compareCreatures localeCompare a b <> Gt ->
  compareCreatures localeCompare b c <> Gt ->
  compareCreatures localeCompare a c <> Gt.
Proof using localeCompare_trans.
  rewrite !compareCreatures_inOrder. apply inOrder_trans.
Qed.

Lemma tiedWith_keys z y :
  tiedWith (compareCreatures localeCompare) z y = tiedOnKeys localeCompare z y.
Proof using Type.
  unfold tiedWith, compareCreatures, tiedOnKeys.
  destruct (Qcompare (power z) (power y)) eqn:Hc.
  - apply Qeq_alt, Qeq_bool_iff in Hc. rewrite Hc. reflexivity.
  - apply Qlt_alt in Hc. destruct (Qeq_bool _ _) eqn:He; auto.
    apply Qeq_bool_iff in He. rewrite He in Hc. exfalso. revert Hc. apply Qlt_irrefl.
  - apply Qgt_alt in Hc. destruct (Qeq_bool _ _) eqn:He; auto.
    apply Qeq_bool_iff in He. rewrite He in Hc. exfalso. revert Hc. apply Qlt_irrefl.
Qed.

Lemma sorted_inOrder l :
  StronglySorted (fun a b => compareCreatures localeCompare a b <> Gt) l ->
  StronglySorted (inOrder localeCompare) l.
Proof using Type.
  induction 1 as [|x l Hs IH Hx]; constructor; auto.
  eapply Forall_impl; [exact Hx|]. intros y. apply compareCreatures_inOrder.
Qed.

Lemma listFromIndex_kept index criteria limit kept :
  filterByCriteria index criteria = Ok kept ->
  answerCreatures <$> listFromIndex localeCompare index criteria limit
  = Ok (applyLimit (sortBy (compareCreatures localeCompare) kept) limit).
Proof using Type.
  intros H. unfold listFromIndex. rewrite H.
  unfold fmap, result_fmap, mbind, result_bind.
  rewrite answerCreatures_entries. reflexivity.
Qed.

Lemma sort_pair a c :
  compareCreatures localeCompare a c = Lt ->
  sortBy (compareCreatures localeCompare) [a; c] = [a; c] /\
  sortBy (compareCreatures localeCompare) [c; a] = [a; c].
Proof using localeCompare_flip.
  intros H. simpl. rewrite H, compareCreatures_flip, H. simpl. auto.
Qed.

Lemma fallback_flag criteria limit w answer w1 :
  fallbackBasicCreatureSearch localeCompare criteria limit w = (Ok answer, w1) ->
  fallback (searchSummary answer) = true.
Proof using Type.
  unfold fallbackBasicCreatureSearch.
  destruct (searchCompendium _ _ _ _) as [[found|e] w2]; simpl; [|discriminate].
  intros [= <- <-]. reflexivity.
Qed.

Lemma listCreaturesByCriteria_structured criteria w answer w1 :
  listCreaturesByCriteria localeCompare criteria w = (Ok answer, w1) ->
  fallback (searchSummary answer) = false ->
  exists index,
    getEnhancedIndex w = (Ok index, w1)
    /\ listFromIndex localeCompare index criteria (effectiveLimit criteria) = Ok answer.
Proof using Type.
  unfold listCreaturesByCriteria. intros H Hf.
  destruct (enableEnhancedCreatureIndex w); simpl in H.
  - destruct (getEnhancedIndex w) as [[index|e] w2]; simpl in H.
    + destruct (listFromIndex _ _ _ _) as [a|e] eqn:Ha.
      * injection H as <- <-. eauto.
      * apply fallback_flag in H. congruence.
    + apply fallback_flag in H. congruence.
  - apply fallback_flag in H. congruence.
Qed.

Lemma listCreaturesByCriteria_answers criteria w index w1 kept :
  enableEnhancedCreatureIndex w = true ->
  getEnhancedIndex w = (Ok index, w1) ->
  filterByCriteria index criteria = Ok kept ->
  exists answer,
    listCreaturesByCriteria localeCompare criteria w = (Ok answer, w1)
    /\ listFromIndex localeCompare index criteria (effectiveLimit criteria) = Ok answer
    /\ fallback (searchSummary answer) = false
    /\ answerCreatures answer
       = applyLimit (sortBy (compareCreatures localeCompare) kept)
                    (effectiveLimit criteria).
Proof using Type.
  intros Hon Hindex Hkept. unfold listCreaturesByCriteria.
  rewrite Hon, Hindex. simpl.
  pose proof (listFromIndex_kept index criteria (effectiveLimit criteria) kept Hkept) as Hl.
  destruct (listFromIndex localeCompare index criteria (effectiveLimit criteria))
    as [answer|e] eqn:Ha; [|discriminate].
  exists answer. split; [reflexivity|]. split; [reflexivity|].
  injection Hl as Hl. split; [|exact Hl].
  unfold listFromIndex in Ha. rewrite Hkept in Ha. simpl in Ha.
  injection Ha as <-. reflexivity.
Qed.

(** C7.  The structured query answers whenever the index is switched on,
    can be had and can be filtered, and its answer is the index, filtered,
    sorted and cut at the limit: the profiles are in order of power metric
    ascending, then name ascending; the sorted list is a rearrangement of
    the filtered one in which the profiles tied on both keys keep the
    order they have in the index.  Every answer that is not a fallback is
    of this kind.  In a world whose index holds A (power 2), B (power 5)
    and C (power 2) in any order, with A before C in the collation, the
    query for the power range 2 to 2 returns exactly [A, C]. *)
Theorem sorted_by_power_then_name :
  (forall criteria w index w1 kept,
      enableEnhancedCreatureIndex w = true ->
      getEnhancedIndex w = (Ok index, w1) ->
      filterByCriteria index criteria = Ok kept ->
      exists answer,
        listCreaturesByCriteria localeCompare criteria w = (Ok answer, w1)
        /\ fallback (searchSummary answer) = false
        /\ answerCreatures answer
           = applyLimit (sortBy (compareCreatures localeCompare) kept)
                        (effectiveLimit criteria)
        /\ StronglySorted (inOrder localeCompare) (answerCreatures answer)
        /\ StronglySorted (inOrder localeCompare)
                          (sortBy (compareCreatures localeCompare) kept)
        /\ Permutation (sortBy (compareCreatures localeCompare) kept) kept
        /\ forall z,
             List.filter (tiedOnKeys localeCompare z)
                         (sortBy (compareCreatures localeCompare) kept)
             = List.filter (tiedOnKeys localeCompare z) kept)
  /\ (forall criteria w answer w1,
        listCreaturesByCriteria localeCompare criteria w = (Ok answer, w1) ->
        fallback (searchSummary answer) = false ->
        exists index kept,
          getEnhancedIndex w = (Ok index, w1)
          /\ filterByCriteria index criteria = Ok kept
          /\ answerCreatures answer
             = applyLimit (sortBy (compareCreatures localeCompare) kept)
                          (effectiveLimit criteria)
          /\ StronglySorted (inOrder localeCompare) (answerCreatures answer))
  /\ (forall mk : string -> Q -> EnhancedCreatureIndex,
        mk = Sample.creature5e \/ mk = Sample.creaturePf ->
        localeCompare (js "A") (js "C") = Lt ->
        forall w index w1,
          enableEnhancedCreatureIndex w = true ->
          getEnhancedIndex w = (Ok index, w1) ->
          Permutation index [mk "A"%string 2%Q; mk "B"%string 5%Q; mk "C"%string 2%Q] ->
          exists answer,
            listCreaturesByCriteria localeCompare (powerRange 2 2) w = (Ok answer, w1)
            /\ answerCreatures answer = [mk "A"%string 2%Q; mk "C"%string 2%Q]).
Proof using localeCompare_flip localeCompare_trans.
  assert (Hsorted : forall kept,
    StronglySorted (inOrder localeCompare) (sortBy (compareCreatures localeCompare) kept)).
  { intros kept. apply sorted_inOrder.
    apply (sortBy_sorted (compareCreatures localeCompare)
             compareCreatures_flip compareCreatures_trans). }
  assert (Hcut : forall kept limit,
    StronglySorted (inOrder localeCompare)
      (applyLimit (sortBy (compareCreatures localeCompare) kept) limit)).
  { intros kept limit.
    destruct (applyLimit_firstn (sortBy (compareCreatures localeCompare) kept) limit)
      as [n ->].
    apply StronglySorted_firstn. apply Hsorted. }
  split; [|split].
  - intros criteria w index w1 kept Hon Hindex Hkept.
    destruct (listCreaturesByCriteria_answers criteria w index w1 kept Hon Hindex Hkept)
      as (answer & Hq & _ & Hf & Ha).
    exists answer. split; [exact Hq|]. split; [exact Hf|]. split; [exact Ha|].
    split; [rewrite Ha; apply Hcut|]. split; [apply Hsorted|]. split.
    + apply sortBy_perm.
    + intros z.
      pose proof (sortBy_stable (compareCreatures localeCompare)
                    compareCreatures_flip compareCreatures_trans z kept) as Hst.
      rewrite <- (List.filter_ext _ _ (tiedWith_keys z)
                    (sortBy (compareCreatures localeCompare) kept)).
      rewrite <- (List.filter_ext _ _ (tiedWith_keys z) kept). exact Hst.
  - intros criteria w answer w1 Hq Hf.
    destruct (listCreaturesByCriteria_structured _ _ _ _ Hq Hf) as (index & Hi & H).
    unfold listFromIndex in H.
    destruct (filterByCriteria index criteria) as [kept|e] eqn:Hk; simpl in H;
      [|discriminate].
    exists index, kept. injection H as <-. rewrite answerCreatures_entries.
    split; [exact Hi|]. split; [exact Hk|]. split; [reflexivity|]. apply Hcut.
  - intros mk Hmk HAC w index w1 Hon Hindex Hperm.
    assert (Hcmp : compareCreatures localeCompare (mk "A"%string 2%Q) (mk "C"%string 2%Q)
                   = Lt).
    { destruct Hmk as [-> | ->]; unfold compareCreatures; simpl; exact HAC. }
    destruct (sort_pair _ _ Hcmp) as [Hs1 Hs2].
    assert (Hkept :
      (filterByCriteria index (powerRange 2 2)
       = Ok [mk "A"%string 2%Q; mk "C"%string 2%Q])
      \/ (filterByCriteria index (powerRange 2 2)
          = Ok [mk "C"%string 2%Q; mk "A"%string 2%Q])).
    { apply perm3 in Hperm. simpl in Hperm.
      destruct Hperm as [<- | [<- | [<- | [<- | [<- | [<- | []]]]]]];
        destruct Hmk as [-> | ->];
        first [left; vm_compute; reflexivity | right; vm_compute; reflexivity]. }
    destruct Hkept as [Hkept|Hkept];
      destruct (listCreaturesByCriteria_answers _ w index w1 _ Hon Hindex Hkept)
        as (answer & Hq & _ & _ & Ha);
      exists answer; (split; [exact Hq|]); rewrite Ha;
      [rewrite Hs1|rewrite Hs2]; reflexivity.
Qed.
End SortedResults.

Lemma compareUnits_flip a b : compareUnits b a = CompOpp (compareUnits a b).
Proof.
  revert b. induction a as [|x a IH]; intros [|y b]; simpl; auto.
  rewrite (N.compare_antisym x y). destruct (N.compare x y); simpl; auto.
Qed.

Lemma compareUnits_trans a b c :
  compareUnits a b <> Gt -> compareUnits b c <> Gt -> compareUnits a c <> Gt.
Proof.
  revert b c. induction a as [|x a IH]; intros [|y b] [|z c]; simpl; auto;
    try discriminate; try congruence.
  destruct (N.compare_spec x y) as [Hxy|Hxy|Hxy],
           (N.compare_spec y z) as [Hyz|Hyz|Hyz];
    intros H1 H2; try congruence.
  - subst. rewrite N.compare_refl. eapply IH; eauto.
  - rewrite (proj2 (N.compare_lt_iff x z)) by lia. discriminate.
  - rewrite (proj2 (N.compare_lt_iff x z)) by lia. discriminate.
  - rewrite (proj2 (N.compare_lt_iff x z)) by lia. discriminate.
Qed.

(** The scenario on a world whose valid index file holds C, B and A. *)
Lemma sorted_by_power_then_name_witness :
  exists answer,
    listCreaturesByCriteria compareUnits (powerRange 2 2) Sample.cached
    = (Ok answer, Sample.cached)
    /\ answerCreatures answer = [Sample.creature5e "A" 2; Sample.creature5e "C" 2].
Proof.
  apply (proj2 (proj2 (sorted_by_power_then_name compareUnits compareUnits_flip
                         compareUnits_trans))
           Sample.creature5e (or_introl eq_refl) eq_refl Sample.cached
           [Sample.creature5e "C" 2; Sample.creature5e "B" 5; Sample.creature5e "A" 2]
           Sample.cached).
  - reflexivity.
  - vm_compute. reflexivity.
  - eapply perm_trans; [apply perm_swap|].
    eapply perm_trans; [apply perm_skip, perm_swap|]. apply perm_swap.
Defined.

(** The same scenario through the query itself, on a world whose valid
    index file holds C, B and A. *)
Example cached_query :
  answerCreatures <$>
    fst (listCreaturesByCriteria compareUnits (powerRange 2 2) Sample.cached)
  = Ok [Sample.creature5e "A" 2; Sample.creature5e "C" 2].
Proof. vm_compute. reflexivity. Qed.

(** ** Trimming and the search terms *)

Lemma trimStart_split s :
  exists p, s = p ++ trimStart s /\ nonWhiteSpace p = O.
Proof.
  induction s as [|c r (p & Hp & Hn)]; simpl.
  - exists []. auto.
  - destruct (isWhiteSpace c) eqn:Hc.
    + exists (c :: p). split; [simpl; congruence|].
      unfold nonWhiteSpace in *. simpl. rewrite Hc. simpl. exact Hn.
    + exists []. auto.
Qed.

Lemma trimStart_head s c r : trimStart s = c :: r -> isWhiteSpace c = false.
Proof.
  induction s as [|x s IH]; simpl; [discriminate|].
  destruct (isWhiteSpace x) eqn:Hx; auto. intros [= <- <-]. exact Hx.
Qed.

Lemma nonWhiteSpace_app a b :
  nonWhiteSpace (a ++ b) = (nonWhiteSpace a + nonWhiteSpace b)%nat.
Proof. unfold nonWhiteSpace. rewrite List.filter_app, length_app. reflexivity. Qed.

Lemma nonWhiteSpace_rev a : nonWhiteSpace (rev a) = nonWhiteSpace a.
Proof.
  induction a as [|x a IH]; simpl; auto.
  rewrite nonWhiteSpace_app, IH. unfold nonWhiteSpace. simpl.
  destruct (negb (isWhiteSpace x)); simpl; lia.
Qed.

(** [trim] cuts white space off both ends, and what is left neither starts
    nor ends with white space. *)
Lemma trim_split s :
  exists p q, s = p ++ trim s ++ q /\ nonWhiteSpace p = O /\ nonWhiteSpace q = O.
Proof.
  unfold trim, trimEnd.
  destruct (trimStart_split s) as (p & Hp & Hpn).
  destruct (trimStart_split (rev (trimStart s))) as (q & Hq & Hqn).
  exists p, (rev q). split; [|split; auto].
  - rewrite <- rev_app_distr, <- Hq, rev_involutive. exact Hp.
  - rewrite nonWhiteSpace_rev. exact Hqn.
Qed.

Lemma trim_head s c r : trim s = c :: r -> isWhiteSpace c = false.
Proof.
  intros H. destruct (trim_split (trimStart s)) as (p & q & Hs & Hp & _).
  assert (Ht : trim (trimStart s) = trim s).
  { unfold trim. f_equal.
    destruct (trimStart s) as [|x t] eqn:E; auto.
    simpl. rewrite (trimStart_head _ _ _ E). reflexivity. }
  rewrite Ht, H in Hs.
  destruct p as [|x p].
  - simpl in Hs. eapply trimStart_head. exact Hs.
  - simpl in Hs. pose proof (trimStart_head _ _ _ Hs) as Hx.
    unfold nonWhiteSpace in Hp. simpl in Hp. rewrite Hx in Hp. discriminate.
Qed.

Lemma trim_last s m c : trim s = m ++ [c] -> isWhiteSpace c = false.
Proof.
  unfold trim, trimEnd. intros H.
  apply (f_equal (@rev N)) in H. rewrite rev_involutive, rev_app_distr in H.
  simpl in H. eapply trimStart_head. exact H.
Qed.

Lemma nonWhiteSpace_trim s : nonWhiteSpace (trim s) = nonWhiteSpace s.
Proof.
  destruct (trim_split s) as (p & q & Hs & Hp & Hq).
  rewrite Hs at 2. rewrite !nonWhiteSpace_app. lia.
Qed.

Lemma trim_two s : (2 <= length (trim s))%nat -> (2 <= nonWhiteSpace s)%nat.
Proof.
  intros H. rewrite <- nonWhiteSpace_trim.
  destruct (trim s) as [|c r] eqn:E; simpl in H; [lia|].
  pose proof (trim_head _ _ _ E) as Hc.
  destruct (exists_last (l := r)) as (m & y & ->);
    [destruct r; simpl in H; [lia|discriminate]|].
  pose proof (trim_last s (c :: m) y E) as Hy.
  change (c :: m ++ [y]) with ([c] ++ m ++ [y]).
  rewrite !nonWhiteSpace_app. unfold nonWhiteSpace at 1 3. simpl.
  rewrite Hc, Hy. simpl. lia.
Qed.

Lemma letters_not_white u : (65 <= u <= 122)%N -> isWhiteSpace u = false.
Proof.
  intros H. unfold isWhiteSpace.
  assert ((u <=? 13)%N = false) as -> by (apply N.leb_gt; lia).
  assert ((u =? 32)%N = false) as -> by (apply N.eqb_neq; lia).
  assert ((u =? 160)%N = false) as -> by (apply N.eqb_neq; lia).
  assert ((u =? 5760)%N = false) as -> by (apply N.eqb_neq; lia).
  assert ((8192 <=? u)%N = false) as -> by (apply N.leb_gt; lia).
  assert ((u =? 8232)%N = false) as -> by (apply N.eqb_neq; lia).
  assert ((u =? 8233)%N = false) as -> by (apply N.eqb_neq; lia).
  assert ((u =? 8239)%N = false) as -> by (apply N.eqb_neq; lia).
  assert ((u =? 8287)%N = false) as -> by (apply N.eqb_neq; lia).
  assert ((u =? 12288)%N = false) as -> by (apply N.eqb_neq; lia).
  assert ((u =? 65279)%N = false) as -> by (apply N.eqb_neq; lia).
  rewrite andb_false_r. reflexivity.
Qed.

Lemma lowerUnit_white u : isWhiteSpace (lowerUnit u) = isWhiteSpace u.
Proof.
  unfold lowerUnit. destruct ((65 <=? u)%N && (u <=? 90)%N) eqn:H; auto.
  apply andb_true_iff in H as [H1 H2]. apply N.leb_le in H1, H2.
  rewrite !letters_not_white; auto; lia.
Qed.

Lemma trimStart_lower s : trimStart (toLowerCase s) = toLowerCase (trimStart s).
Proof.
  unfold toLowerCase. induction s as [|c r IH]; simpl; auto.
  rewrite lowerUnit_white. destruct (isWhiteSpace c); auto.
Qed.

Lemma trim_lower s : trim (toLowerCase s) = toLowerCase (trim s).
Proof.
  unfold trim, trimEnd. rewrite trimStart_lower.
  unfold toLowerCase at 1. rewrite <- map_rev.
  change (map lowerUnit (rev (trimStart s))) with (toLowerCase (rev (trimStart s))).
  rewrite trimStart_lower. unfold toLowerCase. rewrite map_rev. reflexivity.
Qed.

Lemma split_cons sep s : exists w ws, split sep s = w :: ws.
Proof.
  induction s as [|c r (w & ws & IH)]; simpl; eauto.
  destruct (c =? sep)%N; eauto. rewrite IH. eauto.
Qed.

Lemma searchTermsOf_nonempty query :
  (1 <= length (trim query))%nat -> searchTermsOf query <> [].
Proof.
  intros H. unfold searchTermsOf. rewrite trim_lower.
  destruct (trim query) as [|c r] eqn:E; simpl in H; [lia|].
  pose proof (trim_head _ _ _ E) as Hc. simpl.
  assert (Hsp : (lowerUnit c =? 32)%N = false).
  { apply N.eqb_neq. intros H32.
    rewrite <- lowerUnit_white, H32 in Hc. vm_compute in Hc. discriminate. }
  rewrite Hsp. destruct (split_cons 32 (toLowerCase r)) as (w & ws & ->).
  rewrite filter_cons. destruct (decide (lowerUnit c :: w <> [])) as [_|n]; [discriminate|].
  exfalso. apply n. discriminate.
Qed.

Lemma slice0_length {A} (xs : list A) limit :
  0 <= limit -> (length (slice0 xs limit) <= Z.to_nat limit)%nat.
Proof.
  intros H. unfold slice0. destruct (limit <? 0) eqn:E; [apply Z.ltb_lt in E; lia|].
  rewrite length_firstn. lia.
Qed.

Lemma applyLimit_length {A} (xs : list A) limit :
  0 <= limit -> (length (applyLimit xs limit) <= Z.to_nat limit)%nat.
Proof.
  intros H. unfold applyLimit. destruct (_ >? _) eqn:E.
  - apply slice0_length. exact H.
  - rewrite Z.gtb_ltb in E. apply Z.ltb_ge in E. lia.
Qed.

Lemma passesEnhancedCriteria_limit creature criteria limit :
  passesEnhancedCriteria creature (setLimit criteria limit)
  = passesEnhancedCriteria creature criteria.
Proof. destruct creature; reflexivity. Qed.

Lemma filterByCriteria_limit index criteria limit :
  filterByCriteria index (setLimit criteria limit) = filterByCriteria index criteria.
Proof.
  induction index as [|c l IH]; simpl; auto.
  rewrite passesEnhancedCriteria_limit, IH. reflexivity.
Qed.

Section FreeText.
Variable localeCompare : jsstring -> jsstring -> comparison.

Lemma searchCompendium_short query packType w :
  (length (trim query) < 2)%nat ->
  searchCompendium localeCompare query packType w
  = (Throw (Error queryTooShortMessage), w).
Proof.
  intros H. unfold searchCompendium.
  apply Nat.ltb_lt in H. rewrite H, orb_true_r. reflexivity.
Qed.

(** C9, as amended.  The free-text search throws "Search query must be a
    string with at least 2 characters" when the trimmed query has fewer
    than two code units, hence when the query has fewer than two code
    units that are not white space, and hence when its set of terms is
    empty.  A query whose trimmed text has two code units or more, such as
    "kn", has a term and is searched: the call returns a result list. *)
Theorem query_validation (query : jsstring) (packType : option jsstring) (w : World) :
  ((length (trim query) < 2)%nat ->
   searchCompendium localeCompare query packType w
   = (Throw (Error queryTooShortMessage), w))
  /\ ((nonWhiteSpace query < 2)%nat ->
      searchCompendium localeCompare query packType w
      = (Throw (Error queryTooShortMessage), w))
  /\ (searchTermsOf query = [] ->
      searchCompendium localeCompare query packType w
      = (Throw (Error queryTooShortMessage), w))
  /\ ((2 <= length (trim query))%nat ->
      searchTermsOf query <> [] /\
      exists found w1,
        searchCompendium localeCompare query packType w = (Ok found, w1)).
Proof.
  split; [apply searchCompendium_short|]. split; [|split].
  - intros H. apply searchCompendium_short.
    destruct (Nat.lt_ge_cases (length (trim query)) 2) as [|Hge]; auto.
    apply trim_two in Hge. lia.
  - intros H. apply searchCompendium_short.
    destruct (Nat.lt_ge_cases (length (trim query)) 1) as [|Hge]; [lia|].
    apply searchTermsOf_nonempty in Hge. contradiction.
  - intros H.
    assert (Hterms : searchTermsOf query <> []) by (apply searchTermsOf_nonempty; lia).
    split; [exact Hterms|]. unfold searchCompendium.
    assert (Hq : bool_decide (query = []) = false).
    { apply bool_decide_eq_false. intros ->. vm_compute in H. lia. }
    assert (Hl : (length (trim query) <? 2)%nat = false) by (apply Nat.ltb_ge; exact H).
    rewrite Hq, Hl. simpl.
    destruct (searchTermsOf query) as [|t ts]; [contradiction|]. simpl.
    destruct (searchPacks _ _ _ _) as [packs1 results]. eauto.
Qed.

(** *** The limit *)

Lemma listFromIndex_length index criteria limit answer :
  0 <= limit ->
  listFromIndex localeCompare index criteria limit = Ok answer ->
  (length (qr_creatures answer) <= Z.to_nat limit)%nat.
Proof.
  intros Hl H. unfold listFromIndex in H.
  destruct (filterByCriteria index criteria) as [kept|e]; simpl in H; [|discriminate].
  injection H as <-. simpl. rewrite !length_map. apply applyLimit_length. exact Hl.
Qed.

Lemma fallback_length criteria limit w answer w1 :
  0 <= limit ->
  fallbackBasicCreatureSearch localeCompare criteria limit w = (Ok answer, w1) ->
  (length (qr_creatures answer) <= Z.to_nat limit)%nat.
Proof.
  intros Hl. unfold fallbackBasicCreatureSearch.
  destruct (searchCompendium _ _ _ _) as [[found|e] w2]; simpl; [|discriminate].
  intros [= <- <-]. simpl. rewrite length_map.
  apply slice0_length. exact Hl.
Qed.

Lemma listCreaturesByCriteria_length criteria w answer w1 :
  0 <= effectiveLimit criteria ->
  listCreaturesByCriteria localeCompare criteria w = (Ok answer, w1) ->
  (length (qr_creatures answer) <= Z.to_nat (effectiveLimit criteria))%nat.
Proof.
  intros Hl. unfold listCreaturesByCriteria.
  destruct (enableEnhancedCreatureIndex w); simpl.
  - destruct (getEnhancedIndex w) as [[index|e] w2]; simpl.
    + destruct (listFromIndex _ _ _ _) as [a|e] eqn:Ha.
      * intros [= <- <-]. eapply listFromIndex_length; eauto.
      * intros H. eapply fallback_length; eauto.
    + intros H. eapply fallback_length; eauto.
  - intros H. eapply fallback_length; eauto.
Qed.

Lemma listFromIndex_limit index criteria l limit :
  qr_creatures <$> listFromIndex localeCompare index (setLimit criteria l) limit
  = qr_creatures <$> listFromIndex localeCompare index criteria limit.
Proof.
  unfold listFromIndex. rewrite filterByCriteria_limit.
  destruct (filterByCriteria index criteria); reflexivity.
Qed.

Lemma fallback_limit criteria l limit w :
  qr_creatures <$>
    fst (fallbackBasicCreatureSearch localeCompare (setLimit criteria l) limit w)
  = qr_creatures <$> fst (fallbackBasicCreatureSearch localeCompare criteria limit w)
  /\ snd (fallbackBasicCreatureSearch localeCompare (setLimit criteria l) limit w)
     = snd (fallbackBasicCreatureSearch localeCompare criteria limit w).
Proof.
  unfold fallbackBasicCreatureSearch. simpl.
  destruct (searchCompendium _ _ _ _) as [[found|e] w2]; simpl; auto.
Qed.

Lemma applyLimit_count {A} (xs : list A) limit :
  0 <= limit -> length (applyLimit xs limit) = Nat.min (Z.to_nat limit) (length xs).
Proof.
  intros H. unfold applyLimit, slice0. destruct (_ >? _) eqn:E.
  - rewrite Z.gtb_ltb in E. apply Z.ltb_lt in E.
    destruct (limit <? 0) eqn:E0; [apply Z.ltb_lt in E0; lia|].
    rewrite length_firstn. reflexivity.
  - rewrite Z.gtb_ltb in E. apply Z.ltb_ge in E. lia.
Qed.

Lemma listFromIndex_count index criteria limit answer kept :
  0 <= limit ->
  filterByCriteria index criteria = Ok kept ->
  listFromIndex localeCompare index criteria limit = Ok answer ->
  length (qr_creatures answer) = Nat.min (Z.to_nat limit) (length kept).
Proof.
  intros Hl Hk H. unfold listFromIndex in H. rewrite Hk in H. simpl in H.
  injection H as <-. simpl. rewrite !length_map, applyLimit_count by exact Hl.
  rewrite (Permutation_length (sortBy_perm (compareCreatures localeCompare) kept)).
  reflexivity.
Qed.

(** C10.  A criteria query asked with limit 0 runs with the limit 500: it
    returns the entries, and leaves the state, of the same query asked
    with limit 500, and an answer has at most 500 entries.  It does not
    come back empty for that: with the index switched on, at hand and
    filtered, the query answers with as many entries as pass the criteria,
    up to 500; and a fallback answer holds as many entries as the text
    search found, up to 500. *)
Theorem limit_zero_is_default (criteria : Criteria) (w : World) :
  c_limit criteria = Some 0 ->
  effectiveLimit criteria = 500
  /\ qr_creatures <$> fst (listCreaturesByCriteria localeCompare criteria w)
     = qr_creatures <$>
         fst (listCreaturesByCriteria localeCompare (setLimit criteria (Some 500)) w)
  /\ snd (listCreaturesByCriteria localeCompare criteria w)
     = snd (listCreaturesByCriteria localeCompare (setLimit criteria (Some 500)) w)
  /\ (forall answer w1,
       listCreaturesByCriteria localeCompare criteria w = (Ok answer, w1) ->
       (length (qr_creatures answer) <= 500)%nat)
  /\ (forall index w1 kept,
       enableEnhancedCreatureIndex w = true ->
       getEnhancedIndex w = (Ok index, w1) ->
       filterByCriteria index criteria = Ok kept ->
       exists answer,
         listCreaturesByCriteria localeCompare criteria w = (Ok answer, w1)
         /\ length (qr_creatures answer) = Nat.min (Z.to_nat 500) (length kept)
         /\ answerCreatures answer
            = applyLimit (sortBy (compareCreatures localeCompare) kept) 500)
  /\ (forall answer w1,
       listCreaturesByCriteria localeCompare criteria w = (Ok answer, w1) ->
       fallback (searchSummary answer) = true ->
       length (qr_creatures answer)
       = Nat.min (Z.to_nat 500) (totalCreaturesFound (searchSummary answer))).
Proof.
  intros H0.
  assert (He : effectiveLimit criteria = 500)
    by (unfold effectiveLimit; rewrite H0; reflexivity).
  split; [exact He|].
  assert (Hboth :
    qr_creatures <$> fst (listCreaturesByCriteria localeCompare criteria w)
    = qr_creatures <$>
        fst (listCreaturesByCriteria localeCompare (setLimit criteria (Some 500)) w)
    /\ snd (listCreaturesByCriteria localeCompare criteria w)
       = snd (listCreaturesByCriteria localeCompare (setLimit criteria (Some 500)) w)).
  { unfold listCreaturesByCriteria. rewrite He.
    change (effectiveLimit (setLimit criteria (Some 500))) with 500.
    destruct (enableEnhancedCreatureIndex w); simpl.
    - destruct (getEnhancedIndex w) as [[index|e] w2]; simpl.
      + pose proof (listFromIndex_limit index criteria (Some 500) 500) as Hl.
        destruct (listFromIndex localeCompare index (setLimit criteria (Some 500)) 500)
          as [a|e],
          (listFromIndex localeCompare index criteria 500) as [a'|e']; simpl in *;
          try discriminate.
        * split; [symmetry; exact Hl|reflexivity].
        * destruct (fallback_limit criteria (Some 500) 500 w2) as [H1 H2].
          split; [symmetry; exact H1|symmetry; exact H2].
      + destruct (fallback_limit criteria (Some 500) 500 w2) as [H1 H2].
        split; [symmetry; exact H1|symmetry; exact H2].
    - destruct (fallback_limit criteria (Some 500) 500 w) as [H1 H2].
      split; [symmetry; exact H1|symmetry; exact H2]. }
  destruct Hboth as [H1 H2]. split; [exact H1|]. split; [exact H2|].
  split; [|split].
  - intros answer w1 H.
    apply listCreaturesByCriteria_length in H; rewrite He in *; [exact H|lia].
  - intros index w1 kept Hon Hindex Hkept.
    destruct (listCreaturesByCriteria_answers localeCompare criteria w index w1 kept
                Hon Hindex Hkept) as (answer & Hq & Hl & _ & Ha).
    rewrite He in Hl, Ha.
    exists answer. split; [exact Hq|]. split; [|exact Ha].
    apply (listFromIndex_count index criteria 500 answer kept); [lia|exact Hkept|exact Hl].
  - intros answer w1 Hq Hf.
    assert (Hfb : forall w0 a w2,
      fallbackBasicCreatureSearch localeCompare criteria 500 w0 = (Ok a, w2) ->
      length (qr_creatures a)
      = Nat.min (Z.to_nat 500) (totalCreaturesFound (searchSummary a))).
    { intros w0 a w2. unfold fallbackBasicCreatureSearch.
      destruct (searchCompendium _ _ _ _) as [[found|e] w3]; simpl; [|discriminate].
      intros [= <- <-]. cbn [qr_creatures searchSummary totalCreaturesFound].
      rewrite length_map. unfold slice0.
      change (500 <? 0) with false. cbv iota. apply length_firstn. }
    unfold listCreaturesByCriteria in Hq. rewrite He in Hq.
    destruct (enableEnhancedCreatureIndex w); simpl in Hq.
    + destruct (getEnhancedIndex w) as [[index|e] w2]; simpl in Hq.
      * destruct (listFromIndex localeCompare index criteria 500) as [a|e] eqn:Ha.
        -- injection Hq as <- <-. unfold listFromIndex in Ha.
           destruct (filterByCriteria index criteria); simpl in Ha; [|discriminate].
           injection Ha as <-. discriminate.
        -- eapply Hfb; eauto.
      * eapply Hfb; eauto.
    + eapply Hfb; eauto.
Qed.
End FreeText.

Lemma query_validation_witness :
  (length (trim (js "k ")) < 2)%nat
  /\ searchCompendium compareUnits (js "k ") None Sample.quiet
     = (Throw (Error queryTooShortMessage), Sample.quiet).
Proof.
  assert (H : (length (trim (js "k ")) < 2)%nat) by (vm_compute; lia).
  split; [exact H|].
  exact (proj1 (query_validation compareUnits (js "k ") None Sample.quiet) H).
Defined.

(** C9 as stated fails on its own scenario: the search for "kn" raises
    nothing and finds the knight. *)
Lemma search_kn_counterexample :
  exists found,
    fst (searchCompendium compareUnits (js "kn") None Sample.quiet) = Ok found
    /\ map sr_name found = [js "Knight"].
Proof. eexists. split; vm_compute; reflexivity. Qed.

(** Asked with limit 0, the query on [cached] answers with the three
    profiles of the index. *)
Lemma limit_zero_is_default_witness :
  c_limit Sample.zeroLimit = Some 0
  /\ exists answer,
       listCreaturesByCriteria compareUnits Sample.zeroLimit Sample.cached
       = (Ok answer, Sample.cached)
       /\ length (qr_creatures answer) = 3%nat.
Proof.
  assert (H : c_limit Sample.zeroLimit = Some 0) by reflexivity.
  split; [exact H|].
  destruct (proj1 (proj2 (proj2 (proj2 (proj2
              (limit_zero_is_default compareUnits Sample.zeroLimit Sample.cached H)))))
              [Sample.creature5e "C" 2; Sample.creature5e "B" 5; Sample.creature5e "A" 2]
              Sample.cached
              [Sample.creature5e "C" 2; Sample.creature5e "B" 5; Sample.creature5e "A" 2])
    as (answer & Hq & Hlen & _).
  - reflexivity.
  - vm_compute. reflexivity.
  - vm_compute. reflexivity.
  - exists answer. split; [exact Hq|]. rewrite Hlen. reflexivity.
Defined.

(** Asked with limit 0, the query on [quiet] answers with both profiles. *)
Example limit_zero_answers :
  (fun answer => length (qr_creatures answer)) <$>
    fst (listCreaturesByCriteria compareUnits Sample.zeroLimit Sample.quiet)
  = Ok 2%nat.
Proof. vm_compute. reflexivity. Qed.

(** ** The index file, written and read back *)

Lemma fold_insert_union (l : list (list N * PackFingerprint))
    (m0 : gmap (list N) PackFingerprint) :
  NoDup (map fst l) ->
  fold_left (fun m kv => <[fst kv := snd kv]> m) l m0 = list_to_map l ∪ m0.
Proof.
  revert m0. induction l as [|[k v] l IH]; intros m0 Hnd; simpl.
  - rewrite (left_id_L ∅ (∪)). reflexivity.
  - inversion Hnd as [|? ? Hk Hnd']; subst. rewrite IH by exact Hnd'.
    rewrite <- insert_union_r, insert_union_l; [reflexivity|].
    apply not_elem_of_list_to_map_1. exact Hk.
Qed.

Lemma mapOfEntries_map_to_list (m : gmap (list N) PackFingerprint) :
  mapOfEntries (map_to_list m) = m.
Proof.
  unfold mapOfEntries. rewrite fold_insert_union.
  - rewrite (right_id_L ∅ (∪)). apply list_to_map_to_list.
  - apply NoDup_fst_map_to_list.
Qed.

Lemma deserialize_serialize index : deserializeIndex (serializeIndex index) = index.
Proof.
  destruct index as [[v t fps n g] cs]. unfold deserializeIndex, serializeIndex. simpl.
  rewrite mapOfEntries_map_to_list. reflexivity.
Qed.

(** ** What the validity check cannot see *)

Lemma generatePackChecksum_shape p q :
  sameShape p q -> generatePackChecksum p = generatePackChecksum q.
Proof.
  intros (Hi & Hl & _ & Hs). unfold generatePackChecksum. rewrite Hi, Hl, Hs. reflexivity.
Qed.

Lemma checkPackFingerprints_shape (w w' : World) saved l l' :
  Forall2 sameShape l l' ->
  checkPackFingerprints w saved l = checkPackFingerprints w' saved l'.
Proof.
  induction 1 as [|p q l l' Hpq _ IH]; simpl; auto.
  unfold generatePackFingerprint.
  rewrite (generatePackChecksum_shape p q Hpq).
  destruct Hpq as (Hi & Hl & _ & Hs).
  destruct (generatePackChecksum q) as [c|e]; simpl; auto.
  rewrite Hi. destruct (saved !! pack_id q) as [st|]; auto.
  unfold fingerprintsMatch. simpl. rewrite Hs, IH. reflexivity.
Qed.

Lemma filter_actor_shape (l l' : list Pack) :
  Forall2 sameShape l l' ->
  Forall2 sameShape (filter (fun p => isActorPack p = true) l)
                    (filter (fun p => isActorPack p = true) l').
Proof.
  induction 1 as [|p q l l' Hpq _ IH]; [constructor|].
  assert (Ha : isActorPack p = isActorPack q).
  { unfold isActorPack. destruct Hpq as (_ & _ & -> & _). reflexivity. }
  rewrite !filter_cons. rewrite Ha.
  destruct (decide (isActorPack q = true)); auto.
Qed.

Lemma find_id_shape (l l' : list Pack) packId :
  Forall2 sameShape l l' ->
  bool_decide (is_Some (find (fun p => streq (pack_id p) packId) l)) =
  bool_decide (is_Some (find (fun p => streq (pack_id p) packId) l')).
Proof.
  induction 1 as [|p q l l' Hpq _ IH]; simpl; auto.
  destruct Hpq as (-> & _). destruct (streq (pack_id q) packId); auto.
Qed.

(** X2. The validity check reads of the live packs only their id, label,
    type and index size: two worlds of the same game system whose packs
    agree on these get the same answer for every index, whatever the packs'
    documents and modification times are.  So a valid cached index is still
    served after documents were edited or replaced without changing their
    number. *)
Theorem edits_go_unnoticed (w w' : World) (index : PersistentEnhancedIndex) :
  systemId w = systemId w' ->
  Forall2 sameShape (packs w) (packs w') ->
  isIndexValid w index = isIndexValid w' index
  /\ (indexFile w' = indexFile w ->
      loadPersistedIndex w = Some index -> isIndexValid w index = Ok true ->
      getEnhancedIndex w' = (Ok (creatures index), w')).
Proof.
  intros Hs Hp.
  assert (Hv : isIndexValid w index = isIndexValid w' index).
  { unfold isIndexValid. rewrite <- Hs.
    destruct (negb (streq (md_version _) _)); auto.
    destruct (negb (streq (md_gameSystem _) _)); auto.
    rewrite (checkPackFingerprints_shape w w' _ _ _ (filter_actor_shape _ _ Hp)).
    destruct (checkPackFingerprints w' _ _) as [b|e]; simpl; auto.
    destruct (negb b); auto.
    assert (forallb (fun packId => bool_decide (is_Some (packs_get w packId)))
              (map fst (map_to_list (md_packFingerprints (metadata index)))) =
            forallb (fun packId => bool_decide (is_Some (packs_get w' packId)))
              (map fst (map_to_list (md_packFingerprints (metadata index))))) as ->.
    { induction (map fst (map_to_list (md_packFingerprints (metadata index))))
        as [|k ks IHk]; simpl; auto.
      f_equal; [unfold packs_get; apply find_id_shape; exact Hp | exact IHk]. }
    reflexivity. }
  split; [exact Hv|].
  intros Hf Hl Hok. unfold getEnhancedIndex.
  assert (loadPersistedIndex w' = Some index) as ->.
  { unfold loadPersistedIndex in *. rewrite Hf. exact Hl. }
  rewrite <- Hv, Hok. reflexivity.
Qed.

Lemma edits_go_unnoticed_witness :
  isIndexValid Sample.built Sample.builtIndex = Ok true
  /\ getEnhancedIndex Cases.edited = (Ok (creatures Sample.builtIndex), Cases.edited).
Proof.
  assert (Hv : isIndexValid Sample.built Sample.builtIndex = Ok true)
    by (vm_compute; reflexivity).
  split; [exact Hv|].
  refine (proj2 (edits_go_unnoticed Sample.built Cases.edited Sample.builtIndex
                   eq_refl _) eq_refl _ Hv).
  - repeat constructor.
  - vm_compute. reflexivity.
Defined.

(** ** The checksum *)

Lemma base64_twelve (a b : list N) :
  length a = 12%nat -> slice0 (base64 (a ++ b)) 16 = base64 a.
Proof.
  intros H.
  do 12 (destruct a as [|? a]; [discriminate|]).
  destruct a; [|discriminate]. reflexivity.
Qed.

Lemma forallb_firstn {A} (f : A -> bool) n (l : list A) :
  forallb f l = true -> forallb f (firstn n l) = true.
Proof.
  revert n. induction l as [|x l IH]; intros [|n]; simpl; auto.
  intros H. apply andb_true_iff in H as [-> H]. simpl. auto.
Qed.

Lemma checksum_of_long_id (r : Pack) :
  (12 <= length (pack_id r))%nat ->
  is_ok (generatePackChecksum r) = true ->
  generatePackChecksum r = Ok (base64 (firstn 12 (pack_id r))).
Proof.
  intros Hr Hok. unfold generatePackChecksum, btoa in *.
  destruct (forallb _ _); [|discriminate]. simpl. f_equal.
  rewrite <- (firstn_skipn 12 (pack_id r)) at 1. rewrite <- app_assoc.
  apply base64_twelve. rewrite length_firstn. lia.
Qed.

(** X3. The checksum is the Base64 text of the first twelve code units of
    [id-label-size]: of a pack whose id has twelve code units or more it
    says nothing about the label or the index size, and two such packs whose
    ids start alike have the same checksum. *)
Theorem checksum_reads_twelve_units (p q : Pack) :
  (12 <= length (pack_id p))%nat ->
  firstn 12 (pack_id p) = firstn 12 (pack_id q) ->
  is_ok (generatePackChecksum p) = true ->
  is_ok (generatePackChecksum q) = true ->
  generatePackChecksum p = Ok (base64 (firstn 12 (pack_id p)))
  /\ generatePackChecksum q = generatePackChecksum p.
Proof.
  intros Hlen Hpre Hp Hq.
  assert (Hlenq : (12 <= length (pack_id q))%nat).
  { apply (f_equal (@length N)) in Hpre. rewrite !length_firstn in Hpre. lia. }
  split; [apply checksum_of_long_id; auto|].
  rewrite (checksum_of_long_id p Hlen Hp), (checksum_of_long_id q Hlenq Hq), Hpre.
  reflexivity.
Qed.

Lemma checksum_reads_twelve_units_witness :
  generatePackChecksum Sample.monsters = Ok (js "d29ybGQubW9uc3Rl")
  /\ generatePackChecksum Cases.monsterSquad = generatePackChecksum Sample.monsters.
Proof.
  refine (checksum_reads_twelve_units Sample.monsters Cases.monsterSquad _ _ _ _);
    vm_compute; (reflexivity || lia).
Defined.

(** ** The cache a build leaves behind *)

Lemma buildDnD5ePacks_packs w ps acc :
  fst (buildDnD5ePacks w ps acc) =
  map (fun p => if isActorPack p then indexedPack p else p) ps.
Proof.
  revert acc. induction ps as [|p ps IH]; intros acc; simpl; auto.
  destruct (isActorPack p).
  - destruct (processPackDnD5e w p acc) as [p1 acc1] eqn:Hp.
    specialize (IH acc1). destruct (buildDnD5ePacks w ps acc1) as [rest acc2].
    simpl in *. rewrite IH. f_equal.
    unfold processPackDnD5e, indexedPack in *.
    destruct (ensureIndexed p); [|congruence].
    destruct (generatePackFingerprint w p0); congruence.
  - specialize (IH acc). destruct (buildDnD5ePacks w ps acc) as [rest acc2].
    simpl in *. rewrite IH. reflexivity.
Qed.

Lemma completedDnD5e_fingerprint w p :
  completedDnD5e w p = true ->
  isActorPack p = true /\ ensureIndexed p = Some (indexedPack p) /\
  exists fp, generatePackFingerprint w (indexedPack p) = Ok fp.
Proof.
  unfold completedDnD5e, indexedPack. intros H.
  apply andb_true_iff in H as [Ha H]. split; [exact Ha|].
  destruct (ensureIndexed p) as [p1|]; [|discriminate]. split; [reflexivity|].
  destruct (generatePackFingerprint w p1); [eauto|discriminate].
Qed.

Lemma processPackDnD5e_fingerprints w p acc :
  packFingerprints (snd (processPackDnD5e w p acc)) =
  if completedDnD5e w p
  then match generatePackFingerprint w (indexedPack p) with
       | Ok fp => <[pack_id p := fp]> (packFingerprints acc)
       | Throw _ => packFingerprints acc
       end
  else if isActorPack p then packFingerprints acc
  else packFingerprints (snd (processPackDnD5e w p acc)).
Proof.
  unfold processPackDnD5e, completedDnD5e, indexedPack.
  destruct (isActorPack p); simpl.
  - destruct (ensureIndexed p) as [p1|] eqn:He; simpl; auto.
    destruct (generatePackFingerprint w p1); simpl; auto.
    apply ensureIndexed_same in He as (-> & _). reflexivity.
  - reflexivity.
Qed.

Lemma buildDnD5ePacks_untouched w ps acc k :
  (forall p, p ∈ ps -> completedDnD5e w p = true -> pack_id p <> k) ->
  packFingerprints (snd (buildDnD5ePacks w ps acc)) !! k = packFingerprints acc !! k.
Proof.
  revert acc. induction ps as [|p ps IH]; intros acc Hk; simpl; auto.
  assert (Hrest : forall q, q ∈ ps -> completedDnD5e w q = true -> pack_id q <> k).
  { intros q Hq. apply Hk. right. exact Hq. }
  destruct (isActorPack p) eqn:Ha.
  - pose proof (processPackDnD5e_fingerprints w p acc) as Hf.
    destruct (processPackDnD5e w p acc) as [p1 acc1].
    specialize (IH acc1 Hrest). destruct (buildDnD5ePacks w ps acc1) as [rest acc2].
    simpl in *. rewrite IH, Hf.
    destruct (completedDnD5e w p) eqn:Hc; rewrite ?Ha; auto.
    destruct (generatePackFingerprint w (indexedPack p)); auto.
    apply lookup_insert_ne. apply Hk; [left|exact Hc].
  - specialize (IH acc Hrest). destruct (buildDnD5ePacks w ps acc) as [rest acc2].
    simpl in *. exact IH.
Qed.

Lemma buildDnD5ePacks_stored w ps acc p fp :
  NoDup (map pack_id ps) -> p ∈ ps -> completedDnD5e w p = true ->
  generatePackFingerprint w (indexedPack p) = Ok fp ->
  packFingerprints (snd (buildDnD5ePacks w ps acc)) !! pack_id p = Some fp.
Proof.
  revert acc. induction ps as [|q ps IH]; intros acc Hnd Hin Hc Hfp.
  - inversion Hin.
  - simpl in Hnd. apply NoDup_cons in Hnd as [Hq Hnd].
    apply elem_of_cons in Hin as [->|Hin].
    + simpl. destruct (completedDnD5e_fingerprint w q Hc) as (Ha & _ & _).
      rewrite Ha.
      pose proof (processPackDnD5e_fingerprints w q acc) as Hf.
      destruct (processPackDnD5e w q acc) as [p1 acc1].
      pose proof (buildDnD5ePacks_untouched w ps acc1 (pack_id q)) as Hu.
      destruct (buildDnD5ePacks w ps acc1) as [rest acc2]. simpl in *.
      rewrite Hu.
      * rewrite Hf, Hc, Hfp. apply lookup_insert_eq.
      * intros r Hr _ Heq. apply Hq. rewrite <- Heq.
        apply list_elem_of_fmap. exists r. auto.
    + simpl. destruct (isActorPack q).
      * destruct (processPackDnD5e w q acc) as [p1 acc1].
        specialize (IH acc1 Hnd Hin Hc Hfp).
        destruct (buildDnD5ePacks w ps acc1) as [rest acc2]. exact IH.
      * specialize (IH acc Hnd Hin Hc Hfp).
        destruct (buildDnD5ePacks w ps acc) as [rest acc2]. exact IH.
Qed.

Lemma buildDnD5ePacks_keys w ps acc k :
  is_Some (packFingerprints (snd (buildDnD5ePacks w ps acc)) !! k) ->
  is_Some (packFingerprints acc !! k) \/ exists p, p ∈ ps /\ pack_id p = k.
Proof.
  revert acc. induction ps as [|p ps IH]; intros acc; simpl; auto.
  destruct (isActorPack p) eqn:Ha.
  - pose proof (processPackDnD5e_fingerprints w p acc) as Hf.
    destruct (processPackDnD5e w p acc) as [p1 acc1].
    specialize (IH acc1). destruct (buildDnD5ePacks w ps acc1) as [rest acc2].
    simpl in *. intros H. destruct (IH H) as [H1|(q & Hq & Hk)].
    + rewrite Hf in H1. rewrite Ha in H1.
      destruct (completedDnD5e w p); auto.
      destruct (generatePackFingerprint w (indexedPack p)); auto.
      destruct (decide (pack_id p = k)) as [<-|Hne].
      * right. exists p. split; [left|reflexivity].
      * rewrite lookup_insert_ne in H1 by exact Hne. auto.
    + right. exists q. split; [right; exact Hq|exact Hk].
  - specialize (IH acc). destruct (buildDnD5ePacks w ps acc) as [rest acc2].
    simpl in *. intros H. destruct (IH H) as [H1|(q & Hq & Hk)]; auto.
    right. exists q. split; [right; exact Hq|exact Hk].
Qed.

Lemma buildPF2ePacks_untouched w ps acc acc' k :
  buildPF2ePacks w ps acc = Ok acc' ->
  (forall p, p ∈ ps -> isActorPack p = true -> pack_id p <> k) ->
  packFingerprints acc' !! k = packFingerprints acc !! k.
Proof.
  revert acc. induction ps as [|p ps IH]; intros acc; simpl.
  - intros [= <-]. reflexivity.
  - intros H Hk.
    assert (Hrest : forall q, q ∈ ps -> isActorPack q = true -> pack_id q <> k).
    { intros q Hq. apply Hk. right. exact Hq. }
    destruct (isActorPack p) eqn:Ha.
    + destruct (generatePackFingerprint w p) as [fp|e]; simpl in H; [|discriminate].
      rewrite (IH _ H Hrest). simpl. apply lookup_insert_ne. apply Hk; [left|exact Ha].
    + apply (IH _ H Hrest).
Qed.

Lemma buildPF2ePacks_stored w ps acc acc' p :
  buildPF2ePacks w ps acc = Ok acc' ->
  NoDup (map pack_id ps) -> p ∈ ps -> isActorPack p = true ->
  exists fp, generatePackFingerprint w p = Ok fp /\
             packFingerprints acc' !! pack_id p = Some fp.
Proof.
  revert acc. induction ps as [|q ps IH]; intros acc H Hnd Hin Ha.
  - inversion Hin.
  - simpl in Hnd. apply NoDup_cons in Hnd as [Hq Hnd]. simpl in H.
    apply elem_of_cons in Hin as [->|Hin].
    + rewrite Ha in H.
      destruct (generatePackFingerprint w q) as [fp|e]; simpl in H; [|discriminate].
      exists fp. split; [reflexivity|].
      rewrite (buildPF2ePacks_untouched _ _ _ _ (pack_id q) H).
      * simpl. apply lookup_insert_eq.
      * intros r Hr _ Heq. apply Hq. rewrite <- Heq.
        apply list_elem_of_fmap. exists r. auto.
    + destruct (isActorPack q).
      * destruct (generatePackFingerprint w q) as [fp|e]; simpl in H; [|discriminate].
        eapply IH; eauto.
      * eapply IH; eauto.
Qed.

Lemma buildPF2ePacks_keys w ps acc acc' k :
  buildPF2ePacks w ps acc = Ok acc' ->
  is_Some (packFingerprints acc' !! k) ->
  is_Some (packFingerprints acc !! k) \/ exists p, p ∈ ps /\ pack_id p = k.
Proof.
  revert acc. induction ps as [|p ps IH]; intros acc; simpl.
  - intros [= <-]. auto.
  - destruct (isActorPack p).
    + destruct (generatePackFingerprint w p) as [fp|e]; simpl; [|discriminate].
      intros H Hs. destruct (IH _ H Hs) as [H1|(q & Hq & Hk)].
      * simpl in H1. destruct (decide (pack_id p = k)) as [<-|Hne].
        -- right. exists p. split; [left|reflexivity].
        -- rewrite lookup_insert_ne in H1 by exact Hne. auto.
      * right. exists q. split; [right; exact Hq|exact Hk].
    + intros H Hs. destruct (IH _ H Hs) as [H1|(q & Hq & Hk)]; auto.
      right. exists q. split; [right; exact Hq|exact Hk].
Qed.

Lemma packs_get_id (w : World) p : p ∈ packs w -> is_Some (packs_get w (pack_id p)).
Proof.
  unfold packs_get. induction (packs w) as [|q l IH]; intros Hin; [inversion Hin|].
  simpl. destruct (streq (pack_id q) (pack_id p)) eqn:E; [eauto|].
  apply elem_of_cons in Hin as [->|Hin]; [|auto].
  apply streq_false in E. contradiction.
Qed.

(** What a build that returned leaves: the host stored the upload, and the
    index file, the packs and the profiles are those of the pack loop. *)
Lemma build_returns (force : bool) (w w' : World) profiles :
  buildEnhancedIndex force w = (Ok profiles, w') ->
  exists index,
    allPacksBuilt w = Some index /\ profiles = creatures index /\
    loadPersistedIndex w' = Some index /\
    systemId w' = systemId w /\ now w' = now w /\
    packs w' = (if streq (systemId w) (js "pf2e") then packs w
                else map (fun p => if isActorPack p then indexedPack p else p) (packs w)).
Proof.
  unfold buildEnhancedIndex, allPacksBuilt.
  destruct (buildInProgress w && negb force); [discriminate|].
  destruct (streq (systemId w) (js "pf2e")).
  - unfold buildPF2eIndex. change (packs (setBuildInProgress true w)) with (packs w).
    destruct (buildPF2ePacks _ _ _) as [acc|e]; [|discriminate].
    unfold saveAndReturn, savePersistedIndex.
    destruct (uploadOutcome _); simpl; intros [= <- <-]. eexists. split; [reflexivity|].
    simpl. unfold loadPersistedIndex. simpl. rewrite deserialize_serialize. auto.
  - destruct (streq (systemId w) (js "dnd5e")); [|discriminate].
    unfold buildDnD5eIndex. change (packs (setBuildInProgress true w)) with (packs w).
    pose proof (buildDnD5ePacks_packs (setBuildInProgress true w) (packs w) emptyAcc) as Hp.
    destruct (buildDnD5ePacks _ _ _) as [ps1 acc]. simpl in Hp.
    unfold saveAndReturn, savePersistedIndex.
    destruct (uploadOutcome _); simpl; intros [= <- <-]. eexists. split; [reflexivity|].
    simpl. unfold loadPersistedIndex. simpl. rewrite deserialize_serialize. auto.
Qed.

Lemma generatePackFingerprint_now (w w' : World) p :
  now w = now w' -> generatePackFingerprint w p = generatePackFingerprint w' p.
Proof. intros H. unfold generatePackFingerprint. rewrite H. reflexivity. Qed.

Lemma indexedPack_same p :
  pack_id (indexedPack p) = pack_id p /\ pack_type (indexedPack p) = pack_type p.
Proof.
  unfold indexedPack. destruct (ensureIndexed p) eqn:He; auto.
  apply ensureIndexed_same in He. tauto.
Qed.

Lemma indexedPack_twice p : ensureIndexed p <> None -> pack_indexed (indexedPack p) = true.
Proof.
  unfold indexedPack, ensureIndexed, getIndex.
  destruct (pack_indexed p) eqn:Hi; [intros _; exact Hi|].
  destruct (pack_getIndex p); [reflexivity|contradiction].
Qed.

Lemma matched_itself (w : World) saved p fp :
  generatePackFingerprint w p = Ok fp -> saved !! pack_id p = Some fp ->
  packMatched w saved p.
Proof. intros H1 H2. exists fp, fp. auto. Qed.

(** X4. The index a build wrote is served from the file afterwards: when
    a build has returned (pack ids being distinct, as in the host's pack
    collection) and, in a D&D world, got through every Actor pack, the next
    [getEnhancedIndex] finds the file valid and answers from it without
    changing anything (no build, no upload), with one profile for each
    profile the build returned, under the same ids. *)
Theorem cache_after_build (force : bool) (w w' : World)
    (profiles : list EnhancedCreatureIndex) :
  NoDup (map pack_id (packs w)) ->
  buildEnhancedIndex force w = (Ok profiles, w') ->
  (systemId w = js "dnd5e" ->
   forall p, p ∈ packs w -> isActorPack p = true -> completedDnD5e w p = true) ->
  exists cached,
    getEnhancedIndex w' = (Ok cached, w')
    /\ length cached = length profiles
    /\ map creatureId cached = map creatureId profiles.
Proof.
  intros Hnd Hb Hall.
  destruct (build_returns force w w' profiles Hb)
    as (index & Hbuilt & -> & Hload & Hsys & Hnow & Hpacks).
  unfold getEnhancedIndex. rewrite Hload.
  assert (Hv : isIndexValid w' index = Ok true);
    [|rewrite Hv; exists (creatures index); auto].
  apply isIndexValid_true. unfold allPacksBuilt in Hbuilt.
  destruct (streq (systemId w) (js "pf2e")) eqn:Hpf.
  - apply streq_true in Hpf.
    destruct (buildPF2ePacks _ _ _) as [acc|e] eqn:Hloop; [|discriminate].
    injection Hbuilt as <-. unfold ValidIndex. simpl.
    split; [reflexivity|]. split; [congruence|]. rewrite Hpacks. split.
    + intros p Hp Ha.
      destruct (buildPF2ePacks_stored _ _ _ _ p Hloop Hnd Hp Ha) as (fp & Hfp & Hs).
      apply (matched_itself w' _ p fp); [|exact Hs].
      rewrite <- Hfp. apply generatePackFingerprint_now. exact Hnow.
    + intros k Hk.
      destruct (buildPF2ePacks_keys _ _ _ _ k Hloop Hk) as [He|(p & Hp & <-)].
      * simpl in He. rewrite lookup_empty in He. destruct He; discriminate.
      * apply packs_get_id. rewrite Hpacks. exact Hp.
  - destruct (streq (systemId w) (js "dnd5e")) eqn:Hdd; [|discriminate].
    apply streq_true in Hdd. specialize (Hall Hdd).
    destruct (buildDnD5ePacks _ _ _) as [ps1 acc] eqn:Hloop.
    injection Hbuilt as <-. unfold ValidIndex. simpl.
    split; [reflexivity|]. split; [congruence|].
    assert (Hacc : acc = snd (buildDnD5ePacks (setBuildInProgress true w) (packs w) emptyAcc))
      by (rewrite Hloop; reflexivity).
    split.
    + intros p' Hp' Ha'. rewrite Hpacks in Hp'.
      apply list_elem_of_fmap in Hp' as (p & -> & Hp).
      destruct (isActorPack p) eqn:Ha.
      2:{ rewrite Ha' in Ha. discriminate. }
      pose proof (Hall p Hp Ha) as Hc.
      destruct (completedDnD5e_fingerprint _ _ Hc) as (_ & _ & fp & Hfp).
      apply (matched_itself w' _ _ fp).
      * rewrite <- Hfp. apply generatePackFingerprint_now. exact Hnow.
      * rewrite (proj1 (indexedPack_same p)), Hacc.
        apply buildDnD5ePacks_stored; auto.
    + intros k Hk. rewrite Hacc in Hk.
      destruct (buildDnD5ePacks_keys _ _ _ k Hk) as [He|(p & Hp & <-)].
      * simpl in He. rewrite lookup_empty in He. destruct He; discriminate.
      * assert (Hin : (if isActorPack p then indexedPack p else p) ∈ packs w').
        { rewrite Hpacks. apply list_elem_of_fmap. exists p. auto. }
        apply packs_get_id in Hin.
        destruct (isActorPack p); [rewrite (proj1 (indexedPack_same p)) in Hin|];
          exact Hin.
Qed.

Lemma cache_after_build_witness :
  exists cached,
    getEnhancedIndex Sample.built = (Ok cached, Sample.built)
    /\ length cached = length Sample.quietProfiles
    /\ map creatureId cached = map creatureId Sample.quietProfiles.
Proof.
  apply (cache_after_build false Sample.quiet).
  - vm_compute. repeat constructor. intros H. inversion H.
  - vm_compute. reflexivity.
  - intros _ p Hp _. apply list_elem_of_singleton in Hp. subst p.
    vm_compute. reflexivity.
Defined.




(** ** Free-text search: what is found *)

Ltac case_cap :=
  match goal with
  | |- context [(100 <=? ?n)%nat] => destruct (100 <=? n)%nat
  end.

Lemma searchEntries_all (Q : CompendiumSearchResult -> Prop) pack terms entries results :
  Forall Q results ->
  (forall entry name,
     entry ∈ entries -> entry_name entry = Some name ->
     forallb (fun term => includes (toLowerCase name) term) terms = true ->
     Q (toSearchResult pack name entry)) ->
  Forall Q (searchEntries pack terms entries results).
Proof.
  revert results.
  induction entries as [|entry rest IH]; intros results Hr Hq; cbn [searchEntries]; auto.
  assert (Hrest : forall e name,
            e ∈ rest -> entry_name e = Some name ->
            forallb (fun term => includes (toLowerCase name) term) terms = true ->
            Q (toSearchResult pack name e)).
  { intros e name He. apply Hq. right. exact He. }
  destruct (entry_name entry) as [name|] eqn:Hn; [|apply IH; auto].
  destruct (bool_decide (name = []) || bool_decide (trim name = [])); [apply IH; auto|].
  destruct (forallb _ terms) eqn:Hm.
  - assert (Hr1 : Forall Q (results ++ [toSearchResult pack name entry])).
    { apply Forall_app. split; [exact Hr|]. constructor; [|constructor].
      apply Hq; auto. left. }
    cbv zeta. case_cap; auto.
  - cbv zeta. case_cap; auto.
Qed.

Lemma searchPacks_all (Q : CompendiumSearchResult -> Prop) packType terms ps results :
  Forall Q results ->
  (forall pack entry name,
     pack ∈ ps -> packSearched packType pack = true ->
     entry ∈ default [] (pack_index (indexedPack pack)) ->
     entry_name entry = Some name ->
     forallb (fun term => includes (toLowerCase name) term) terms = true ->
     Q (toSearchResult (indexedPack pack) name entry)) ->
  Forall Q (snd (searchPacks packType terms ps results)).
Proof.
  revert results.
  induction ps as [|pack rest IH]; intros results Hr Hq; cbn [searchPacks snd]; auto.
  assert (Hrest : forall p entry name,
            p ∈ rest -> packSearched packType p = true ->
            entry ∈ default [] (pack_index (indexedPack p)) ->
            entry_name entry = Some name ->
            forallb (fun term => includes (toLowerCase name) term) terms = true ->
            Q (toSearchResult (indexedPack p) name entry)).
  { intros p entry name Hp. apply Hq. right. exact Hp. }
  destruct (packSearched packType pack) eqn:Hs.
  - assert (Hone : Forall Q (snd (searchPack terms pack results))).
    { unfold searchPack. specialize (Hq pack). unfold indexedPack in Hq.
      destruct (ensureIndexed pack) as [pack1|]; simpl; auto.
      destruct (pack_index pack1) as [entries|]; simpl; auto.
      apply searchEntries_all; auto.
      intros entry name He. apply Hq; auto. left. }
    destruct (searchPack terms pack results) as [pack1 results1]. simpl in Hone.
    case_cap; simpl; auto.
    specialize (IH results1 Hone Hrest).
    destruct (searchPacks packType terms rest results1). exact IH.
  - specialize (IH results Hr Hrest).
    destruct (searchPacks packType terms rest results). exact IH.
Qed.

Lemma packSearched_type packType pack :
  packSearched packType pack = true ->
  pack_type pack <> js "Scene" /\
  (forall t, given packType = Some t -> pack_type pack = t).
Proof.
  unfold packSearched. destruct (given packType) as [t|].
  - destruct (streq (pack_type pack) t) eqn:Ht; simpl; [|discriminate].
    intros H. apply negb_true_iff, streq_false in H. split; auto.
    intros t' [= <-]. apply streq_true. exact Ht.
  - intros H. apply negb_true_iff, streq_false in H. split; auto. discriminate.
Qed.

Lemma searchCompendium_names
    (localeCompare : jsstring -> jsstring -> comparison)
    (query : jsstring) (packType : option jsstring) (w w' : World)
    (results : list CompendiumSearchResult) :
  searchCompendium localeCompare query packType w = (Ok results, w') ->
  forall r term, r ∈ results -> term ∈ searchTermsOf query ->
                 includes (toLowerCase (sr_name r)) term = true.
Proof.
  unfold searchCompendium.
  destruct (bool_decide (query = []) || _); [discriminate|].
  destruct (length (searchTermsOf query) =? 0)%nat; [discriminate|].
  pose proof (searchPacks_all
    (fun r => forall term, term ∈ searchTermsOf query ->
                           includes (toLowerCase (sr_name r)) term = true)
    packType (searchTermsOf query) (packs w) []) as Hall.
  destruct (searchPacks packType (searchTermsOf query) (packs w) []) as [packs1 found].
  intros [= <- <-] r term Hr. simpl in Hall.
  assert (Hin : r ∈ found).
  { apply list_elem_of_In. apply list_elem_of_In in Hr.
    unfold slice0 in Hr. simpl in Hr. apply In_firstn in Hr.
    eapply Permutation_in; [apply sortBy_perm|exact Hr]. }
  clear Hr. revert term.
  assert (Hfound : Forall (fun r => forall term, term ∈ searchTermsOf query ->
                             includes (toLowerCase (sr_name r)) term = true) found).
  { apply Hall; [constructor|].
    intros pack entry name Hp Hs He Hn Hm. simpl.
    intros term Ht. rewrite forallb_forall in Hm. apply Hm.
    apply list_elem_of_In. exact Ht. }
  rewrite Forall_forall in Hfound. apply Hfound. exact Hin.
Qed.

(** X6. What a free-text search for a query in plain text returns: at most
    fifty entries, each the record of an index entry of a pack of the world
    that is not a Scene pack and is of the pack type asked for; and each
    entry with a name in plain text holds every term of the query in its
    name, letter case apart. *)
Theorem search_finds_matching_entries
    (localeCompare : jsstring -> jsstring -> comparison)
    (query : jsstring) (packType : option jsstring) (w w' : World)
    (results : list CompendiumSearchResult) :
  plain query = true ->
  searchCompendium localeCompare query packType w = (Ok results, w') ->
  (length results <= 50)%nat
  /\ searchTermsOf query <> []
  /\ forall r, r ∈ results ->
       (plain (sr_name r) = true ->
        forall term, term ∈ searchTermsOf query ->
                     includes (toLowerCase (sr_name r)) term = true)
       /\ exists pack entry,
            pack ∈ packs w /\ sr_pack r = pack_id pack /\
            pack_type pack <> js "Scene" /\
            (forall t, given packType = Some t -> pack_type pack = t) /\
            entry ∈ default [] (pack_index (indexedPack pack)) /\
            entry_name entry = Some (sr_name r) /\
            r = toSearchResult (indexedPack pack) (sr_name r) entry.
Proof.
  intros _. unfold searchCompendium.
  destruct (bool_decide (query = []) || _); [discriminate|].
  destruct (length (searchTermsOf query) =? 0)%nat eqn:Hlen; [discriminate|].
  pose proof (searchPacks_all
    (fun r =>
       (forall term, term ∈ searchTermsOf query ->
                     includes (toLowerCase (sr_name r)) term = true)
       /\ exists pack entry,
            pack ∈ packs w /\ sr_pack r = pack_id pack /\
            pack_type pack <> js "Scene" /\
            (forall t, given packType = Some t -> pack_type pack = t) /\
            entry ∈ default [] (pack_index (indexedPack pack)) /\
            entry_name entry = Some (sr_name r) /\
            r = toSearchResult (indexedPack pack) (sr_name r) entry)
    packType (searchTermsOf query) (packs w) []) as Hall.
  destruct (searchPacks packType (searchTermsOf query) (packs w) []) as [packs1 found].
  intros [= <- <-]. split; [|split].
  - unfold slice0. simpl. rewrite length_firstn. lia.
  - intros H. rewrite H in Hlen. discriminate.
  - intros r Hr. simpl in Hall.
    assert (Hin : r ∈ found).
    { apply list_elem_of_In. apply list_elem_of_In in Hr.
      unfold slice0 in Hr. simpl in Hr. apply In_firstn in Hr.
      eapply Permutation_in; [apply sortBy_perm|exact Hr]. }
    clear Hr.
    match type of Hall with
    | _ -> _ -> Forall ?P _ => assert (Hfound : Forall P found)
    end.
    { apply Hall; [constructor|].
      intros pack entry name Hp Hs He Hn Hm. simpl. split.
      + intros term Ht. rewrite forallb_forall in Hm. apply Hm.
        apply list_elem_of_In. exact Ht.
      + destruct (packSearched_type _ _ Hs) as [Hscene Hty].
        exists pack, entry. repeat split; auto.
        apply (proj1 (indexedPack_same pack)). }
    rewrite Forall_forall in Hfound. destruct (Hfound r Hin) as [Hterms Hentry].
    split; [intros _; exact Hterms|exact Hentry].
Qed.

Lemma search_finds_matching_entries_witness :
  fst (searchCompendium compareUnits (js "GOBLIN") None Cases.warren)
  = Ok Cases.goblinsFound
  /\ map sr_name Cases.goblinsFound = [js "Goblin"; js "Goblin Boss"; js "Hobgoblin"]
  /\ (length Cases.goblinsFound <= 50)%nat
  /\ searchTermsOf (js "GOBLIN") <> []
  /\ forall r, r ∈ Cases.goblinsFound ->
       (plain (sr_name r) = true ->
        forall term, term ∈ searchTermsOf (js "GOBLIN") ->
                     includes (toLowerCase (sr_name r)) term = true)
       /\ exists pack entry,
            pack ∈ packs Cases.warren /\ sr_pack r = pack_id pack /\
            pack_type pack <> js "Scene" /\
            (forall t, given None = Some t -> pack_type pack = t) /\
            entry ∈ default [] (pack_index (indexedPack pack)) /\
            entry_name entry = Some (sr_name r) /\
            r = toSearchResult (indexedPack pack) (sr_name r) entry.
Proof.
  split; [vm_compute; reflexivity|]. split; [vm_compute; reflexivity|].
  apply (search_finds_matching_entries compareUnits (js "GOBLIN") None
           Cases.warren (snd Cases.goblinSearch)).
  - reflexivity.
  - vm_compute. reflexivity.
Defined.

(** ** Free-text search: the order of the results *)

Lemma StronglySorted_weaken {A} (R R' : A -> A -> Prop) l :
  (forall a b, R a b -> R' a b) -> StronglySorted R l -> StronglySorted R' l.
Proof.
  intros H. induction 1 as [|x l Hs IH Hx]; constructor; auto.
  eapply Forall_impl; [exact Hx|]. intros y. apply H.
Qed.

Section SearchOrder.
Variable localeCompare : jsstring -> jsstring -> comparison.
Variable query : jsstring.

Hypothesis localeCompare_flip :
  forall a b, localeCompare b a = CompOpp (localeCompare a b).
Hypothesis localeCompare_trans :
  forall a b c, localeCompare a b <> Gt -> localeCompare b c <> Gt ->
                localeCompare a c <> Gt.

Lemma compareSearchResults_order a b :
  compareSearchResults localeCompare query a b <> Gt <->
  searchOrder localeCompare query a b.
Proof.
  unfold compareSearchResults, searchOrder, exactMatch.
  destruct (streq (toLowerCase (sr_name a)) _), (streq (toLowerCase (sr_name b)) _);
    simpl; intuition (try discriminate; try congruence).
Qed.

Lemma compareSearchResults_flip a b :
  compareSearchResults localeCompare query b a =
  CompOpp (compareSearchResults localeCompare query a b).
Proof using localeCompare_flip.
  unfold compareSearchResults.
  destruct (streq (toLowerCase (sr_name a)) _), (streq (toLowerCase (sr_name b)) _);
    simpl; auto.
Qed.

Lemma compareSearchResults_trans a b c :
  compareSearchResults localeCompare query a b <> Gt ->
  compareSearchResults localeCompare query b c <> Gt ->
  compareSearchResults localeCompare query a c <> Gt.
Proof using localeCompare_trans.
  unfold compareSearchResults.
  destruct (streq (toLowerCase (sr_name a)) _), (streq (toLowerCase (sr_name b)) _),
           (streq (toLowerCase (sr_name c)) _);
    simpl; try congruence; apply localeCompare_trans.
Qed.

(** X7. The results of a free-text search are in order, for a query and
    result names in plain text: entries whose name is the query (letter
    case apart) come before all others, and within each of the two groups
    the names ascend in the host's collation. *)
Theorem search_results_in_order (packType : option jsstring) (w w' : World)
    (results : list CompendiumSearchResult) :
  plain query = true ->
  searchCompendium localeCompare query packType w = (Ok results, w') ->
  Forall (fun r => plain (sr_name r) = true) results ->
  StronglySorted (searchOrder localeCompare query) results
  /\ forall i j a b,
       results !! i = Some a -> results !! j = Some b -> (i < j)%nat ->
       exactMatch query b = true -> exactMatch query a = true.
Proof using localeCompare_flip localeCompare_trans.
  intros _ Hsearch _. revert Hsearch. unfold searchCompendium.
  destruct (bool_decide (query = []) || _); [discriminate|].
  destruct (length (searchTermsOf query) =? 0)%nat; [discriminate|].
  destruct (searchPacks _ _ _ _) as [packs1 found]. intros [= <- <-].
  assert (Hs : StronglySorted (searchOrder localeCompare query)
                 (slice0 (sortBy (compareSearchResults localeCompare query) found) 50)).
  { unfold slice0. simpl. apply StronglySorted_firstn.
    eapply StronglySorted_weaken;
      [|apply (sortBy_sorted _ compareSearchResults_flip compareSearchResults_trans)].
    intros a b H. apply compareSearchResults_order. exact H. }
  split; [exact Hs|].
  remember (slice0 _ 50) as l eqn:El. clear El.
  induction Hs as [|x l Hs IH Hx]; intros i j a b Hi Hj Hlt Hb.
  - rewrite lookup_nil in Hi. discriminate.
  - destruct j as [|j]; [lia|]. simpl in Hj. destruct i as [|i].
    + simpl in Hi. injection Hi as ->.
      rewrite Forall_forall in Hx.
      assert (Hin : b ∈ l) by (eapply list_elem_of_lookup_2; eauto).
      destruct (Hx b Hin) as [[H _]|[H _]]; congruence.
    + simpl in Hi. apply (IH i j a b); auto. lia.
Qed.

End SearchOrder.

Lemma search_results_in_order_witness :
  (exists first, Cases.goblinsFound !! O = Some first
                 /\ sr_name first = js "Goblin"
                 /\ length Cases.goblinsFound = 3%nat)
  /\ StronglySorted (searchOrder compareUnits (js "GOBLIN")) Cases.goblinsFound
  /\ forall i j a b,
       Cases.goblinsFound !! i = Some a -> Cases.goblinsFound !! j = Some b ->
       (i < j)%nat ->
       exactMatch (js "GOBLIN") b = true -> exactMatch (js "GOBLIN") a = true.
Proof.
  split; [eexists; vm_compute; repeat split|].
  apply (search_results_in_order compareUnits (js "GOBLIN")
           compareUnits_flip compareUnits_trans None
           Cases.warren (snd Cases.goblinSearch)).
  - reflexivity.
  - vm_compute. reflexivity.
  - vm_compute. repeat constructor.
Defined.

Example goblin_search :
  map sr_name Cases.goblinsFound = [js "Goblin"; js "Goblin Boss"; js "Hobgoblin"].
Proof. vm_compute. reflexivity. Qed.

(** ** The summary of a structured answer *)

Lemma countByPack_lookup (results : list EnhancedResult) (m : gmap (list N) nat) label :
  fold_left
    (fun (m : gmap (list N) nat) r =>
       <[er_packLabel r := (default O (m !! er_packLabel r) + 1)%nat]> m)
    results m !! label =
  let c := length (List.filter (fun r => streq (er_packLabel r) label) results) in
  if (c =? 0)%nat then m !! label else Some (default O (m !! label) + c)%nat.
Proof.
  revert m. induction results as [|r rest IH]; intros m; simpl; auto.
  rewrite IH. destruct (streq (er_packLabel r) label) eqn:E; simpl.
  - apply streq_true in E. subst label. rewrite lookup_insert_eq. simpl.
    destruct (length _ =? 0)%nat eqn:Hc.
    + apply Nat.eqb_eq in Hc. rewrite Hc. f_equal.
    + f_equal. lia.
  - apply streq_false in E. rewrite lookup_insert_ne by exact E. reflexivity.
Qed.

Lemma unique_fold (xs acc : list (list N)) :
  NoDup acc ->
  NoDup (fold_left (fun seen x => if existsb (streq x) seen then seen else seen ++ [x]) xs acc)
  /\ forall x, x ∈ fold_left (fun seen x => if existsb (streq x) seen then seen else seen ++ [x])
                     xs acc <-> x ∈ acc \/ x ∈ xs.
Proof.
  revert acc. induction xs as [|y xs IH]; intros acc Hnd; simpl.
  - split; [exact Hnd|]. intros x. rewrite elem_of_nil. tauto.
  - destruct (existsb (streq y) acc) eqn:He.
    + destruct (IH acc Hnd) as [H1 H2]. split; [exact H1|].
      intros x. rewrite H2, elem_of_cons.
      apply existsb_exists in He as (z & Hz & Hyz). apply streq_true in Hyz. subst z.
      apply list_elem_of_In in Hz. split; [tauto|]. intros [H|[->|H]]; auto.
    + assert (Hy : y ∉ acc).
      { intros Hy. apply not_true_iff_false in He. apply He.
        apply existsb_exists. exists y. split; [apply list_elem_of_In; exact Hy|].
        apply streq_true. reflexivity. }
      destruct (IH (acc ++ [y])) as [H1 H2].
      { apply NoDup_app. split; [exact Hnd|]. split; [|apply NoDup_singleton].
        intros z Hz Hzy. apply list_elem_of_singleton in Hzy. subst z. contradiction. }
      split; [exact H1|]. intros x.
      rewrite H2, elem_of_app, list_elem_of_singleton, elem_of_cons. tauto.
Qed.

Lemma unique_spec xs : NoDup (unique xs) /\ forall x, x ∈ unique xs <-> x ∈ xs.
Proof.
  unfold unique. destruct (unique_fold xs [] (NoDup_nil_2)) as [H1 H2].
  split; [exact H1|]. intros x. rewrite H2, elem_of_nil. tauto.
Qed.

Lemma slice0_sublist {A} (l : list A) n : exists k, slice0 l n = firstn k l.
Proof. unfold slice0. destruct (n <? 0); eauto. Qed.

Lemma find_firstWith {A} (f : A -> bool) (l : list A) (x : A) :
  find f l = Some x <-> firstWith f l x.
Proof.
  unfold firstWith. induction l as [|a l IH]; simpl.
  - split; [discriminate|]. intros (before & after & H & _). destruct before; discriminate.
  - destruct (f a) eqn:Ha.
    + split.
      * intros [= <-]. exists [], l. split; [reflexivity|]. split; [exact Ha|].
        intros y Hy. inversion Hy.
      * intros (before & after & H & Hx & Hb). destruct before as [|b before].
        -- simpl in H. injection H as -> _. reflexivity.
        -- simpl in H. injection H as <- _. rewrite (Hb a) in Ha; [discriminate|left].
    + rewrite IH. split.
      * intros (before & after & -> & Hx & Hb). exists (a :: before), after.
        split; [reflexivity|]. split; [exact Hx|].
        intros y Hy. apply elem_of_cons in Hy as [->|Hy]; auto.
      * intros (before & after & H & Hx & Hb). destruct before as [|b before].
        -- simpl in H. injection H as <- _. congruence.
        -- simpl in H. injection H as <- ->. exists before, after.
           split; [reflexivity|]. split; [exact Hx|]. intros y Hy. apply Hb. right. exact Hy.
Qed.

Lemma listFromIndex_summary
    (localeCompare : jsstring -> jsstring -> comparison)
    (index : list EnhancedCreatureIndex) (criteria : Criteria) (limit : Z)
    (answer : QueryResult) :
  listFromIndex localeCompare index criteria limit = Ok answer ->
  let summary := searchSummary answer in
  totalCreaturesFound summary = length (qr_creatures answer)
  /\ (forall label,
        default O (resultsByPack summary !! label) =
        length (List.filter (fun c => streq (creaturePackLabel c) label)
                            (answerCreatures answer)))
  /\ map fst (topPacks summary) = firstn 5 (unique (map creaturePack index))
  /\ NoDup (map fst (topPacks summary))
  /\ (forall packId label, (packId, label) ∈ topPacks summary ->
        exists c, firstWith (fun c => streq (creaturePack c) packId) index c
                  /\ label = orText (creaturePackLabel c) (js "Unknown Pack"))
  /\ packsSearched summary = length (unique (map creaturePack index))
  /\ totalIndexedCreatures summary = Some (length index).
Proof.
  unfold listFromIndex.
  destruct (filterByCriteria index criteria) as [kept|e]; simpl; [|discriminate].
  intros [= <-]. simpl.
  set (limited := applyLimit (sortBy (compareCreatures localeCompare) kept) limit).
  destruct (unique_spec (map creaturePack index)) as [Hnd Hin].
  destruct (slice0_sublist (unique (map creaturePack index)) 5) as [k Hk].
  split; [rewrite !length_map; reflexivity|]. split; [|split; [|split; [|split]]].
  - intros label. unfold countByPack. rewrite countByPack_lookup. cbv zeta.
    rewrite answerCreatures_entries.
    assert (Hc : length (List.filter (fun r => streq (er_packLabel r) label)
                           (map toEnhancedResult limited)) =
                 length (List.filter (fun c => streq (creaturePackLabel c) label) limited)).
    { induction limited as [|c l IH]; simpl; auto.
      destruct (streq (creaturePackLabel c) label); simpl; rewrite IH; reflexivity. }
    rewrite Hc. rewrite lookup_empty.
    destruct (length _ =? 0)%nat eqn:Hz; simpl; auto.
    apply Nat.eqb_eq in Hz. auto.
  - rewrite map_map. simpl. rewrite map_id. reflexivity.
  - rewrite map_map. simpl. rewrite map_id, Hk.
    eapply sublist_NoDup; [exact Hnd|apply sublist_take].
  - intros pid label Hp. apply list_elem_of_fmap in Hp as (packId & Heq & Hp).
    injection Heq as Hid Hlab. subst pid label.
    assert (Hu : packId ∈ map creaturePack index).
    { apply Hin. rewrite Hk in Hp. apply elem_of_take in Hp as (i & Hi & _).
      eapply list_elem_of_lookup_2; exact Hi. }
    apply list_elem_of_fmap in Hu as (c0 & Hc0 & Hin0).
    destruct (find (fun c => streq (creaturePack c) packId) index) as [sample|] eqn:Hf.
    + exists sample. split; [apply find_firstWith; exact Hf|].
      destruct (creaturePackLabel sample); reflexivity.
    + exfalso. apply list_elem_of_In in Hin0.
      apply (find_none _ _ Hf c0) in Hin0. apply streq_false in Hin0. congruence.
  - split; reflexivity.
Qed.

(** X8. The structured query answers whenever the index is switched on,
    at hand and can be filtered, and the summary of its answer agrees
    with the answer: the total is the number of entries returned, the count
    kept for a pack label is the number of returned entries with that label,
    and the pack list names the first five distinct packs of the index,
    each labelled as the first profile of that pack in the index is (or
    "Unknown Pack" when that label is empty); the packs counted as searched
    are the distinct packs of the whole index, not of the answer. *)
Theorem summary_agrees_with_answer
    (localeCompare : jsstring -> jsstring -> comparison)
    (criteria : Criteria) (w w1 : World)
    (index kept : list EnhancedCreatureIndex) :
  enableEnhancedCreatureIndex w = true ->
  getEnhancedIndex w = (Ok index, w1) ->
  filterByCriteria index criteria = Ok kept ->
  exists answer,
    listCreaturesByCriteria localeCompare criteria w = (Ok answer, w1)
    /\ totalCreaturesFound (searchSummary answer) = length (qr_creatures answer)
    /\ length (qr_creatures answer)
       = length (applyLimit kept (effectiveLimit criteria))
    /\ (forall label,
          default O (resultsByPack (searchSummary answer) !! label) =
          length (List.filter (fun c => streq (creaturePackLabel c) label)
                              (answerCreatures answer)))
    /\ map fst (topPacks (searchSummary answer))
       = firstn 5 (unique (map creaturePack index))
    /\ NoDup (map fst (topPacks (searchSummary answer)))
    /\ (forall packId label, (packId, label) ∈ topPacks (searchSummary answer) ->
          exists c, firstWith (fun c => streq (creaturePack c) packId) index c
                    /\ label = orText (creaturePackLabel c) (js "Unknown Pack"))
    /\ packsSearched (searchSummary answer) = length (unique (map creaturePack index))
    /\ totalIndexedCreatures (searchSummary answer) = Some (length index).
Proof.
  intros Hon Hindex Hkept.
  destruct (listCreaturesByCriteria_answers localeCompare criteria w index w1 kept
              Hon Hindex Hkept) as (answer & Hq & Hl & _ & Ha).
  exists answer. split; [exact Hq|].
  destruct (listFromIndex_summary localeCompare index criteria _ answer Hl)
    as (H1 & H2 & H3 & H4 & H5 & H6 & H7).
  split; [exact H1|]. split; [|auto 10].
  unfold listFromIndex in Hl. rewrite Hkept in Hl. simpl in Hl. injection Hl as <-.
  simpl. rewrite !length_map. unfold applyLimit.
  rewrite (Permutation_length (sortBy_perm (compareCreatures localeCompare) kept)).
  destruct (_ >? _); [|apply Permutation_length, sortBy_perm].
  unfold slice0. destruct (_ <? 0); rewrite !length_firstn;
    rewrite (Permutation_length (sortBy_perm (compareCreatures localeCompare) kept));
    reflexivity.
Qed.

Lemma summary_agrees_with_answer_witness :
  exists answer,
    listCreaturesByCriteria compareUnits noCriteria Sample.cached
    = (Ok answer, Sample.cached)
    /\ totalCreaturesFound (searchSummary answer) = 3%nat
    /\ map fst (topPacks (searchSummary answer))
       = firstn 5 (unique (map creaturePack Cases.threeProfiles))
    /\ packsSearched (searchSummary answer) = 1%nat.
Proof.
  destruct (summary_agrees_with_answer compareUnits noCriteria Sample.cached Sample.cached
              Cases.threeProfiles Cases.threeProfiles)
    as (answer & Hq & Htotal & Hlen & _ & Htop & _ & _ & Hpacks & _).
  - reflexivity.
  - vm_compute. reflexivity.
  - vm_compute. reflexivity.
  - exists answer. split; [exact Hq|]. split; [rewrite Htotal, Hlen; reflexivity|].
    split; [exact Htop|]. rewrite Hpacks. reflexivity.
Defined.

(** ** The basic search the structured query falls back to *)

Lemma trim_length s : (length (trim s) <= length s)%nat.
Proof.
  destruct (trim_split s) as (p & q & Hs & _). rewrite Hs at 2.
  rewrite !length_app. lia.
Qed.

(** X9. With the enhanced index switched off, a structured query that asks
    for a creature type of a single character and for no exact challenge
    rating of five or more is refused: the basic search it falls back to
    takes the type as its query and throws its validation error. *)
Theorem one_letter_type_is_refused
    (localeCompare : jsstring -> jsstring -> comparison)
    (criteria : Criteria) (w : World) (u : N) :
  enableEnhancedCreatureIndex w = false ->
  c_creatureType criteria = Some [u] ->
  (forall n, c_challengeRating criteria = Some (Exact n) -> (n < 5)%Q) ->
  listCreaturesByCriteria localeCompare criteria w
  = (Throw (Error queryTooShortMessage), w).
Proof.
  intros Hoff Hty Hcr. unfold listCreaturesByCriteria. rewrite Hoff. simpl.
  unfold fallbackBasicCreatureSearch. rewrite Hty. simpl.
  assert (Hterms :
    match c_challengeRating criteria with
    | Some (Exact n) =>
        if Qeq_bool n 0 then []
        else if Qle_bool 15 n then [js "ancient"; js "legendary"]
        else if Qle_bool 10 n then [js "adult"; js "champion"]
        else if Qle_bool 5 n then [js "captain"; js "knight"]
        else []
    | _ => []
    end = []).
  { destruct (c_challengeRating criteria) as [[n|lo hi]|]; auto.
    specialize (Hcr n eq_refl).
    destruct (Qeq_bool n 0); auto.
    assert (Hno : forall k : Q, (5 <= k)%Q -> Qle_bool k n = false).
    { intros k Hk. destruct (Qle_bool k n) eqn:E; auto.
      apply Qle_bool_iff in E. exfalso.
      apply (Qlt_irrefl n). eapply Qlt_le_trans; [exact Hcr|].
      eapply Qle_trans; [exact Hk|exact E]. }
    rewrite !Hno; auto; apply Qle_bool_iff; reflexivity. }
  rewrite Hterms. simpl.
  unfold searchCompendium.
  assert (Hshort : (length (trim [u]) <? 2)%nat = true).
  { apply Nat.ltb_lt. pose proof (trim_length [u]). simpl in *. lia. }
  rewrite Hshort. rewrite orb_true_r. reflexivity.
Qed.

Lemma one_letter_type_is_refused_witness :
  listCreaturesByCriteria compareUnits Cases.typeX Cases.plain
  = (Throw (Error queryTooShortMessage), Cases.plain).
Proof.
  apply (one_letter_type_is_refused compareUnits Cases.typeX Cases.plain 120%N).
  - reflexivity.
  - reflexivity.
  - intros n H. discriminate H.
Defined.

Lemma split_app sep a b :
  split sep (a ++ sep :: b) = split sep a ++ split sep b.
Proof.
  induction a as [|c a IH]; simpl.
  - rewrite N.eqb_refl. reflexivity.
  - destruct (c =? sep)%N; rewrite IH; [reflexivity|].
    destruct (split_cons sep a) as (x & xs & ->). reflexivity.
Qed.

Lemma trimStart_before_word a c rest :
  isWhiteSpace c = false ->
  trimStart (a ++ 32%N :: c :: rest) = c :: rest
  \/ exists pre, trimStart (a ++ 32%N :: c :: rest) = pre ++ 32%N :: c :: rest.
Proof.
  intros Hc. induction a as [|x a IH]; simpl.
  - rewrite Hc. auto.
  - destruct (isWhiteSpace x); [exact IH|]. right. exists (x :: a). reflexivity.
Qed.

Lemma trimEnd_after_word a c :
  isWhiteSpace c = false -> trimEnd (a ++ [c]) = a ++ [c].
Proof.
  intros Hc. unfold trimEnd. rewrite rev_app_distr. simpl. rewrite Hc.
  change (c :: rev a) with (rev [c] ++ rev a). rewrite <- rev_app_distr.
  apply rev_involutive.
Qed.

(** The terms of a query that ends with the two words of the highest
    challenge tier. *)
Lemma terms_of_highest_tier a :
  In (js "ancient") (searchTermsOf (a ++ js " ancient legendary"))
  /\ In (js "legendary") (searchTermsOf (a ++ js " ancient legendary")).
Proof.
  unfold searchTermsOf, toLowerCase. rewrite map_app.
  change (map lowerUnit (js " ancient legendary"))
    with (32%N :: 97%N :: js "ncient legendar" ++ [121%N]).
  unfold trim.
  assert (Hy : isWhiteSpace 121 = false) by reflexivity.
  assert (Ha : isWhiteSpace 97 = false) by reflexivity.
  destruct (trimStart_before_word (map lowerUnit a) 97%N
              (js "ncient legendar" ++ [121%N]) Ha) as [->|[pre ->]].
  - split; vm_compute; tauto.
  - change (pre ++ 32%N :: 97%N :: js "ncient legendar" ++ [121%N])
      with (pre ++ (32%N :: js "ancient legendar") ++ [121%N]).
    rewrite app_assoc, trimEnd_after_word by exact Hy.
    rewrite <- app_assoc.
    change ((32%N :: js "ancient legendar") ++ [121%N])
      with (32%N :: js "ancient legendary").
    rewrite split_app.
    change (split 32 (js "ancient legendary")) with [js "ancient"; js "legendary"].
    split; apply list_elem_of_In; apply list_elem_of_filter;
      (split; [discriminate|]); apply elem_of_app; right.
    + left.
    + right. left.
Qed.

(** X10. The basic search asks for every term at once: when it stands in
    for a structured query with an exact challenge rating of fifteen or
    more, every entry it returns is a plain search result whose name holds
    both "ancient" and "legendary"; the rating itself is never compared. *)
Theorem fallback_wants_both_tier_words
    (localeCompare : jsstring -> jsstring -> comparison)
    (criteria : Criteria) (limit : Z) (w w' : World) (n : Q)
    (answer : QueryResult) :
  c_challengeRating criteria = Some (Exact n) -> (15 <= n)%Q ->
  fallbackBasicCreatureSearch localeCompare criteria limit w = (Ok answer, w') ->
  fallback (searchSummary answer) = true
  /\ forall e, e ∈ qr_creatures answer ->
       exists r, e = BasicEntry r
                 /\ includes (toLowerCase (sr_name r)) (js "ancient") = true
                 /\ includes (toLowerCase (sr_name r)) (js "legendary") = true.
Proof.
  intros Hcr Hn. unfold fallbackBasicCreatureSearch. rewrite Hcr.
  assert (H0 : Qeq_bool n 0 = false).
  { destruct (Qeq_bool n 0) eqn:E; auto. apply Qeq_bool_iff in E.
    rewrite E in Hn. exfalso. revert Hn. apply Qlt_not_le. reflexivity. }
  assert (H15 : Qle_bool 15 n = true) by (apply Qle_bool_iff; exact Hn).
  rewrite H0, H15.
  set (q := match join (js " ") _ with [] => js "monster" | x => x end).
  assert (Hq : exists a, q = a ++ js " ancient legendary" \/ q = js "ancient legendary").
  { subst q. destruct (given (c_creatureType criteria)) as [t|] eqn:Ht.
    - exists t. left.
      change (join (js " ") ([t] ++ [js "ancient"; js "legendary"]))
        with (t ++ js " ancient legendary").
      destruct t; [|reflexivity].
      unfold given in Ht. destruct (c_creatureType criteria) as [[|]|]; discriminate.
    - exists []. right. reflexivity. }
  destruct (searchCompendium localeCompare q (Some (js "Actor")) w)
    as [[results|e] w1] eqn:Hs; simpl; [|discriminate].
  intros [= <- <-]. simpl. split; [reflexivity|].
  intros e He. apply list_elem_of_fmap in He as (r & -> & Hr).
  exists r. split; [reflexivity|].
  pose proof (searchCompendium_names _ _ _ _ _ _ Hs) as Hall.
  assert (Hin : r ∈ results).
  { destruct (slice0_sublist results limit) as [k Hk]. rewrite Hk in Hr.
    apply elem_of_take in Hr as (i & Hi & _). eapply list_elem_of_lookup_2; exact Hi. }
  pose proof (fun term => Hall r term Hin) as Hterms.
  assert (Hboth : In (js "ancient") (searchTermsOf q) /\ In (js "legendary") (searchTermsOf q)).
  { destruct Hq as [a [-> | ->]]; [apply terms_of_highest_tier|].
    split; vm_compute; tauto. }
  destruct Hboth as [H1 H2]. apply list_elem_of_In in H1, H2. auto.
Qed.

Lemma fallback_wants_both_tier_words_witness :
  fallback (searchSummary Cases.lairAnswer) = true
  /\ forall e, e ∈ qr_creatures Cases.lairAnswer ->
       exists r, e = BasicEntry r
                 /\ includes (toLowerCase (sr_name r)) (js "ancient") = true
                 /\ includes (toLowerCase (sr_name r)) (js "legendary") = true.
Proof.
  apply (fallback_wants_both_tier_words compareUnits Cases.rating17 500 Cases.lair
           (snd (fallbackBasicCreatureSearch compareUnits Cases.rating17 500 Cases.lair))
           17 Cases.lairAnswer).
  - reflexivity.
  - vm_compute. discriminate.
  - vm_compute. reflexivity.
Defined.

Example lair_answer :
  omap (fun e => match e with BasicEntry r => Some (sr_name r) | _ => None end)
       (qr_creatures Cases.lairAnswer)
  = [js "Legendary Ancient Wyrm"].
Proof. vm_compute. reflexivity. Qed.

(** ** The best match for a creature name *)

Lemma find_first {A} (f : A -> bool) l :
  match find f l with
  | Some x => x ∈ l /\ f x = true
  | None => forall y, y ∈ l -> f y = false
  end.
Proof.
  induction l as [|a l IH]; simpl.
  - intros y Hy. inversion Hy.
  - destruct (f a) eqn:Ha.
    + split; [left|exact Ha].
    + destruct (find f l) as [x|].
      * destruct IH. split; [right|]; auto.
      * intros y Hy. apply elem_of_cons in Hy as [->|Hy]; auto.
Qed.

(** X11. The best match for a creature name, for a name and results in
    plain text.  It is taken from the results of the free-text search for
    that name in Actor packs: the first result whose name is the name asked
    for (letter case apart) if there is one; else, when a pack is
    preferred, the first result of that pack if there is one; else the
    first result, and nothing when the search found nothing.  An error of
    the search is passed on. *)
Theorem best_match_rule
    (localeCompare : jsstring -> jsstring -> comparison)
    (creatureType : jsstring) (packPreference : option jsstring) (w : World) :
  plain creatureType = true ->
  match searchCompendium localeCompare creatureType (Some (js "Actor")) w with
  | (Throw e, w1) =>
      findBestCompendiumMatch localeCompare creatureType packPreference w = (Throw e, w1)
  | (Ok results, w1) =>
      Forall (fun r => plain (sr_name r) = true) results ->
      exists best,
        findBestCompendiumMatch localeCompare creatureType packPreference w
        = (Ok best, w1)
        /\ (best = None <-> results = [])
        /\ (forall x, firstWith (exactMatch creatureType) results x -> best = Some x)
        /\ ((forall y, y ∈ results -> exactMatch creatureType y = false) ->
            (forall preferred x,
               given packPreference = Some preferred ->
               firstWith (fun r => streq (sr_pack r) preferred) results x ->
               best = Some x)
            /\ ((forall preferred,
                   given packPreference = Some preferred ->
                   forall y, y ∈ results -> sr_pack y <> preferred) ->
                best = head results))
  end.
Proof.
  intros _. unfold findBestCompendiumMatch.
  destruct (searchCompendium localeCompare creatureType (Some (js "Actor")) w)
    as [[results|e] w1]; simpl; [|reflexivity].
  intros _.
  change (fun r => streq (toLowerCase (sr_name r)) (toLowerCase creatureType))
    with (exactMatch creatureType).
  pose proof (find_first (exactMatch creatureType) results) as He.
  destruct (find (exactMatch creatureType) results) as [x|] eqn:Hfind.
  - destruct He as [Hin Hx]. exists (Some x). split; [reflexivity|]. split; [|split].
    + split; [discriminate|]. intros ->. inversion Hin.
    + intros y Hy. apply find_firstWith in Hy. congruence.
    + intros Hnone. rewrite (Hnone x Hin) in Hx. discriminate.
  - assert (Hexact : forall y, firstWith (exactMatch creatureType) results y -> False).
    { intros y Hy. apply find_firstWith in Hy. congruence. }
    destruct (given packPreference) as [preferred|] eqn:Hp.
    + pose proof (find_first (fun r => streq (sr_pack r) preferred) results) as Hq.
      destruct (find (fun r => streq (sr_pack r) preferred) results) as [x|] eqn:Hpack.
      * destruct Hq as [Hin Hx]. exists (Some x). split; [reflexivity|]. split; [|split].
        -- split; [discriminate|]. intros ->. inversion Hin.
        -- intros y Hy. destruct (Hexact y Hy).
        -- intros _. split.
           ++ intros p' y [= <-] Hy. apply find_firstWith in Hy. congruence.
           ++ intros Hno. exfalso. apply (Hno preferred eq_refl x Hin).
              apply streq_true. exact Hx.
      * exists (head results). split; [reflexivity|]. split; [|split].
        -- destruct results; simpl; split; congruence.
        -- intros y Hy. destruct (Hexact y Hy).
        -- intros _. split; [|reflexivity].
           intros p' y [= <-] Hy. apply find_firstWith in Hy. congruence.
    + exists (head results). split; [reflexivity|]. split; [|split].
      * destruct results; simpl; split; congruence.
      * intros y Hy. destruct (Hexact y Hy).
      * intros _. split; [discriminate|reflexivity].
Qed.

(** In the warren the search for "goblin" finds Goblin, Goblin Boss and
    Hobgoblin; the best match is the first, whose name is the name asked
    for. *)
Lemma best_match_rule_witness :
  exists best,
    findBestCompendiumMatch compareUnits (js "goblin") None Cases.warren
    = (Ok best, snd Cases.goblinSearch)
    /\ sr_name <$> best = Some (js "Goblin")
    /\ (forall x, firstWith (exactMatch (js "goblin")) Cases.goblinsFound x ->
                  best = Some x).
Proof.
  pose proof (best_match_rule compareUnits (js "goblin") None Cases.warren eq_refl) as H.
  assert (Hs : searchCompendium compareUnits (js "goblin") (Some (js "Actor")) Cases.warren
               = (Ok Cases.goblinsFound, snd Cases.goblinSearch))
    by (vm_compute; reflexivity).
  rewrite Hs in H.
  destruct H as (best & Hbest & _ & Hfirst & _).
  - vm_compute. repeat constructor.
  - exists best. split; [exact Hbest|]. split; [|exact Hfirst].
    assert (E : fst (findBestCompendiumMatch compareUnits (js "goblin") None Cases.warren)
                = Ok best) by (rewrite Hbest; reflexivity).
    vm_compute in E. injection E as <-. vm_compute. reflexivity.
Defined.

(** ** The rebuild, reported *)

Lemma build_throw_keeps_file (force : bool) (w : World) e :
  fst (buildEnhancedIndex force w) = Throw e ->
  indexFile (snd (buildEnhancedIndex force w)) = indexFile w.
Proof.
  unfold buildEnhancedIndex.
  destruct (buildInProgress w && negb force); [reflexivity|].
  destruct (streq (systemId w) (js "pf2e")).
  - unfold buildPF2eIndex. destruct (buildPF2ePacks _ _ _) as [acc|e']; [|reflexivity].
    match goal with |- context [saveAndReturn ?w1 ?g ?a] =>
      pose proof (saveAndReturn_spec w1 g a) as (_ & _ & [(_ & -> & _)|(_ & Hf & _)])
    end; [discriminate|]. intros _. exact Hf.
  - destruct (streq (systemId w) (js "dnd5e")); [|reflexivity].
    unfold buildDnD5eIndex. destruct (buildDnD5ePacks _ _ _) as [ps1 acc].
    match goal with |- context [saveAndReturn ?w1 ?g ?a] =>
      pose proof (saveAndReturn_spec w1 g a) as (_ & _ & [(_ & -> & _)|(_ & Hf & _)])
    end; [discriminate|]. intros _. exact Hf.
Qed.

Lemma build_returns_flag (force : bool) (w w' : World) profiles :
  buildEnhancedIndex force w = (Ok profiles, w') -> buildInProgress w' = false.
Proof.
  unfold buildEnhancedIndex.
  destruct (buildInProgress w && negb force); [discriminate|].
  destruct (streq (systemId w) (js "pf2e")).
  - unfold buildPF2eIndex. destruct (buildPF2ePacks _ _ _) as [acc|e']; [|discriminate].
    match goal with |- context [saveAndReturn ?w1 ?g ?a] =>
      pose proof (saveAndReturn_spec w1 g a) as (_ & Hb & _)
    end. intros H. rewrite H in Hb. exact Hb.
  - destruct (streq (systemId w) (js "dnd5e")); [|discriminate].
    unfold buildDnD5eIndex. destruct (buildDnD5ePacks _ _ _) as [ps1 acc].
    match goal with |- context [saveAndReturn ?w1 ?g ?a] =>
      pose proof (saveAndReturn_spec w1 g a) as (_ & Hb & _)
    end. intros H. rewrite H in Hb. exact Hb.
Qed.

(** X12. [rebuildEnhancedCreatureIndex] never throws and its report is
    true to the index file: after a report of success the file holds an
    index with as many profiles as reported, which is also the count in its
    metadata, and no build is marked as running; after a report of failure
    the count is zero, the file is as it was, and the message carries the
    text of the error, which is never that of the build-in-progress
    latch. *)
Theorem rebuild_report_is_true (hostMessage : exn -> jsstring) (w : World) :
  let report := fst (rebuildEnhancedCreatureIndex hostMessage w) in
  let w' := snd (rebuildEnhancedCreatureIndex hostMessage w) in
  (success report = true ->
   exists index,
     loadPersistedIndex w' = Some index /\
     length (creatures index) = totalCreatures report /\
     md_totalCreatures (metadata index) = totalCreatures report /\
     buildInProgress w' = false)
  /\ (success report = false ->
      totalCreatures report = O /\ indexFile w' = indexFile w /\
      exists e, e <> Error buildInProgressMessage /\
                message report = js "Failed to rebuild index: "
                                   ++ errorMessage hostMessage e).
Proof.
  unfold rebuildEnhancedCreatureIndex, rebuildIndex.
  destruct (buildEnhancedIndex true w) as [[profiles|e] w1] eqn:Hb; simpl.
  - split; [|discriminate]. intros _.
    destruct (build_returns true w w1 profiles Hb)
      as (index & Hbuilt & -> & Hload & _).
    exists index. split; [exact Hload|]. split; [reflexivity|]. split.
    + unfold allPacksBuilt in Hbuilt.
      destruct (streq (systemId w) (js "pf2e")).
      * destruct (buildPF2ePacks _ _ _); [|discriminate].
        injection Hbuilt as <-. reflexivity.
      * destruct (streq (systemId w) (js "dnd5e")); [|discriminate].
        destruct (buildDnD5ePacks _ _ _). injection Hbuilt as <-. reflexivity.
    + eapply build_returns_flag. exact Hb.
  - split; [discriminate|]. intros _. split; [reflexivity|]. split.
    + pose proof (build_throw_keeps_file true w e) as Hk.
      rewrite Hb in Hk. apply Hk. reflexivity.
    + exists e. split; [|reflexivity].
      pose proof (build_errors true w e) as He. rewrite Hb in He.
      destruct (He eq_refl) as [(_ & _ & Hf) | [-> | [-> | [-> | ->]]]];
        discriminate.
Qed.

Lemma rebuild_report_is_true_witness :
  (exists index,
     loadPersistedIndex (snd (rebuildEnhancedCreatureIndex (fun _ => []) Sample.quiet))
     = Some index /\
     length (creatures index) = 2%nat /\
     md_totalCreatures (metadata index) = 2%nat /\
     buildInProgress (snd (rebuildEnhancedCreatureIndex (fun _ => []) Sample.quiet))
     = false)
  /\ totalCreatures (fst (rebuildEnhancedCreatureIndex (fun _ => []) Cases.otherSystem))
     = O
  /\ indexFile (snd (rebuildEnhancedCreatureIndex (fun _ => []) Cases.otherSystem))
     = indexFile Cases.otherSystem.
Proof.
  split.
  - apply (proj1 (rebuild_report_is_true (fun _ => []) Sample.quiet)).
    vm_compute. reflexivity.
  - destruct (proj2 (rebuild_report_is_true (fun _ => []) Cases.otherSystem))
      as (H1 & H2 & _); [vm_compute; reflexivity|].
    split; [exact H1|exact H2].
Defined.

Example rebuild_refused :
  message (fst (rebuildEnhancedCreatureIndex (fun _ => []) Cases.otherSystem))
  = js "Failed to rebuild index: Enhanced creature index not supported for system: swade. Only D&D 5e and Pathfinder 2e are currently supported.".
Proof. vm_compute. reflexivity. Qed.

(** ** Invalidation *)

Lemma hookHandler_run (h : FileHost) (event : HookEvent) (w : World) :
  hookHandler h event w = if concernsCreatures event then invalidateIndex h w else w.
Proof. destruct event; reflexivity. Qed.

(** X13. What a hook of the index does to the world: nothing but, at most,
    removing the index file.  The file is removed only when the event is
    about a creature document of a pack or about an Actor pack, the
    auto-rebuild setting is on, the world directory can be browsed and the
    host carries out the DELETE request; when all of these hold the file is
    gone afterwards and the next [getEnhancedIndex] runs a build. *)
Theorem hooks_only_remove_the_file (h : FileHost) (event : HookEvent) (w : World) :
  let w' := hookHandler h event w in
  (systemId w' = systemId w /\ packs w' = packs w /\
   buildInProgress w' = buildInProgress w /\ uploads w' = uploads w /\
   (indexFile w' = indexFile w \/ indexFile w' = None))
  /\ (indexFile w' <> indexFile w ->
      concernsCreatures event = true /\
      (exists v, autoRebuildIndex h = Ok v /\ truthy v = true) /\
      browseWorks h = true /\ deleteOutcome h = DeleteRemoves)
  /\ (concernsCreatures event = true ->
      (exists v, autoRebuildIndex h = Ok v /\ truthy v = true) ->
      browseWorks h = true -> deleteOutcome h = DeleteRemoves ->
      indexFile w' = None /\ getEnhancedIndex w' = buildEnhancedIndex false w').
Proof.
  cbv zeta. rewrite hookHandler_run.
  destruct (concernsCreatures event) eqn:Hc.
  2:{ split; [repeat split; auto|]. split; [congruence|discriminate]. }
  unfold invalidateIndex.
  destruct (autoRebuildIndex h) as [v|e] eqn:Hv.
  2:{ split; [repeat split; auto|]. split; [congruence|].
      intros _ (v' & Hv' & _). discriminate. }
  destruct (truthy v) eqn:Ht; simpl.
  2:{ split; [repeat split; auto|]. split; [congruence|].
      intros _ (v' & Hv' & Ht'). congruence. }
  destruct (browseWorks h) eqn:Hb; simpl.
  2:{ split; [repeat split; auto|]. split; [congruence|]. discriminate. }
  destruct (indexFile w) as [f|] eqn:Hf.
  2:{ split; [repeat split; auto|]. split; [congruence|].
      intros _ _ _ _. split; [exact Hf|].
      unfold getEnhancedIndex, loadPersistedIndex. rewrite Hf. reflexivity. }
  destruct (deleteOutcome h) eqn:Hd.
  - split; [simpl; repeat split; auto|]. split.
    + intros _. repeat split; eauto.
    + intros _ _ _ _. split; reflexivity.
  - split; [repeat split; auto|]. split; [congruence|]. discriminate.
  - split; [repeat split; auto|]. split; [congruence|]. discriminate.
Qed.

Lemma hooks_only_remove_the_file_witness :
  indexFile (hookHandler Cases.obliging
               (updateDocument (Some (js "world.monsters")) (js "npc")) Sample.built)
  = None
  /\ getEnhancedIndex
       (hookHandler Cases.obliging
          (updateDocument (Some (js "world.monsters")) (js "npc")) Sample.built)
     = buildEnhancedIndex false
         (hookHandler Cases.obliging
            (updateDocument (Some (js "world.monsters")) (js "npc")) Sample.built).
Proof.
  apply (proj2 (proj2 (hooks_only_remove_the_file Cases.obliging
                         (updateDocument (Some (js "world.monsters")) (js "npc"))
                         Sample.built))).
  - reflexivity.
  - exists (JBool true). split; reflexivity.
  - reflexivity.
  - reflexivity.
Defined.

(** ** Sanitized data *)

Lemma JVal_nested_ind (P : JVal -> Prop) :
  P JUndefined -> P JNull -> (forall b, P (JBool b)) -> (forall q, P (JNum q)) ->
  (forall s, P (JStr s)) ->
  (forall elems, Forall P elems -> P (JArr elems)) ->
  (forall props, Forall (fun kv => P (snd kv)) props -> P (JObj props)) ->
  P JThrows ->
  forall v, P v.
Proof.
  intros Hu Hn Hb Hq Hs Harr Hobj Ht.
  fix IH 1. intros [ | | b | q | s | elems | props | ].
  - exact Hu.
  - exact Hn.
  - apply Hb.
  - apply Hq.
  - apply Hs.
  - apply Harr. revert elems. fix IHl 1. intros [|x r].
    + constructor.
    + constructor; [apply IH|apply IHl].
  - apply Hobj. revert props. fix IHl 1. intros [|[k x] r].
    + constructor.
    + constructor; [simpl; apply IH|apply IHl].
  - exact Ht.
Qed.

Lemma allKeys_obj props :
  allKeys (JObj props) = flat_map (fun kv => fst kv :: allKeys (snd kv)) props.
Proof.
  induction props as [|[k x] r IH]; simpl; auto.
  simpl in IH. rewrite IH. reflexivity.
Qed.

Lemma threadMap_all {A B S} (P : B -> Prop) (f : A -> S -> B * S) l s :
  (forall x s0, P (fst (f x s0))) -> Forall P (fst (threadMap f l s)).
Proof.
  intros H. revert s. induction l as [|x r IH]; intros s; simpl; [constructor|].
  specialize (H x s). destruct (f x s) as [y s1].
  specialize (IH s1). destruct (threadMap f r s1) as [ys s2].
  constructor; auto.
Qed.

Lemma removeSensitiveFields_keys levels store obj visited :
  Forall (fun k => skippedKey k = false)
         (allKeys (fst (removeSensitiveFields levels store obj visited))).
Proof.
  revert obj visited. induction levels as [|below IH]; intros obj visited;
    destruct obj as [ | | b | q | s | a]; simpl; try constructor.
  destruct (existsb (Nat.eqb a) visited); [constructor|].
  destruct (store a) as [entries|elems|]; [| |constructor].
  - pose proof (threadMap_all
      (fun kept : option (list N * JVal) =>
         match kept with
         | Some (k, v) => skippedKey k = false /\
                          Forall (fun k => skippedKey k = false) (allKeys v)
         | None => True
         end)
      (fun (entry : list N * Ref) seen =>
         if skippedKey (fst entry) then (None, seen)
         else
           let '(value, seen1) := removeSensitiveFields below store (snd entry) seen in
           (Some (fst entry, value), seen1))
      entries (a :: visited)) as Hall.
    destruct (threadMap _ entries (a :: visited)) as [kept visited2].
    cbn [fst] in *. rewrite allKeys_obj.
    assert (Hk : Forall (fun kept : option (list N * JVal) =>
                   match kept with
                   | Some (k, v) => skippedKey k = false /\
                                    Forall (fun k => skippedKey k = false) (allKeys v)
                   | None => True
                   end) kept).
    { apply Hall. intros [k r] seen. simpl.
      destruct (skippedKey k) eqn:Hs; simpl; auto.
      specialize (IH r seen).
      destruct (removeSensitiveFields below store r seen) as [value seen1].
      simpl in *. auto. }
    clear Hall. induction Hk as [|[[k v]|] rest Hx _ IHk]; simpl; auto.
    destruct Hx as [Hx1 Hx2]. constructor; [exact Hx1|].
    apply Forall_app. split; auto.
  - pose proof (threadMap_all
      (fun item => Forall (fun k => skippedKey k = false) (allKeys item))
      (removeSensitiveFields below store) elems (a :: visited)) as Hall.
    destruct (threadMap _ elems (a :: visited)) as [items visited2].
    simpl in *. specialize (Hall (fun x s0 => IH x s0)).
    induction Hall as [|item rest Hx _ IHk]; simpl; [constructor|].
    apply Forall_app. split; auto.
Qed.

Lemma jsonRoundTrip_keys v k : k ∈ allKeys (jsonRoundTrip v) -> k ∈ allKeys v.
Proof.
  revert k. induction v as [ | | b | q | s | elems IH | props IH | ] using JVal_nested_ind;
    intros k; simpl; auto.
  - induction IH as [|x r Hx _ IHr]; simpl; auto.
    rewrite !elem_of_app. intros [H|H]; [left|right; auto].
    destruct x; simpl in *; auto; try (inversion H; fail).
  - change (k ∈ allKeys (jsonRoundTrip (JObj props)) -> k ∈ allKeys (JObj props)).
    rewrite (allKeys_obj props).
    induction IH as [|[key x] r Hx _ IHr]; simpl; auto.
    simpl in Hx.
    assert (Hrest : k ∈ allKeys (jsonRoundTrip (JObj r)) ->
                    k ∈ key :: allKeys x ++ flat_map (fun kv => fst kv :: allKeys (snd kv)) r).
    { intros H. right. apply elem_of_app. right. auto. }
    assert (Hkeep : k ∈ key :: allKeys (jsonRoundTrip x) ++ allKeys (jsonRoundTrip (JObj r)) ->
                    k ∈ key :: allKeys x ++ flat_map (fun kv => fst kv :: allKeys (snd kv)) r).
    { intros H. apply elem_of_cons in H as [->|H]; [left|right].
      apply elem_of_app in H as [H|H]; apply elem_of_app; [left|right]; auto. }
    destruct x; simpl in *; auto;
      destruct (streq key (js "save")); simpl; auto.
Qed.

Lemma sanitizeData_addr store a :
  sanitizeData store (RAddr a)
  = jsonRoundTrip (fst (removeSensitiveFields 51 store (RAddr a) [])).
Proof. reflexivity. Qed.

Lemma sanitizeData_keys store data k :
  k ∈ allKeys (sanitizeData store data) ->
  exists a, data = RAddr a
            /\ k ∈ allKeys (fst (removeSensitiveFields 51 store (RAddr a) [])).
Proof.
  destruct data as [ | | b | q | s | a].
  1-5: intros H; exfalso; revert H; apply not_elem_of_nil.
  rewrite sanitizeData_addr. intros H. exists a. split; [reflexivity|].
  apply jsonRoundTrip_keys. exact H.
Qed.

(** X14. Sanitized data holds no listed name: whatever the data, no
    property of the result, at any depth, is named by one of the sensitive,
    problematic or deprecated keys, and a property whose name starts with
    an underscore is [_id], [_stats] or [_source]. *)
Theorem sanitized_data_has_no_listed_key (store : nat -> Cell) (data : Ref) (k : jsstring) :
  k ∈ allKeys (sanitizeData store data) ->
  isSensitiveOrProblematicField k = false
  /\ (startsWith (js "_") k = true -> k ∈ [js "_id"; js "_stats"; js "_source"]).
Proof.
  intros Hk.
  assert (Hs : skippedKey k = false).
  { apply sanitizeData_keys in Hk as (a & _ & Hk).
    pose proof (removeSensitiveFields_keys 51 store (RAddr a) []) as Hall.
    rewrite Forall_forall in Hall. apply Hall. exact Hk. }
  unfold skippedKey in Hs. apply orb_false_iff in Hs as [Hs1 Hs2].
  split; [exact Hs1|]. intros Hu. rewrite Hu, andb_true_l in Hs2.
  apply negb_false_iff in Hs2. unfold listed in Hs2.
  apply existsb_exists in Hs2 as (x & Hx & Hkx). apply streq_true in Hkx. subst x.
  apply list_elem_of_In. exact Hx.
Qed.

Lemma sanitized_data_has_no_listed_key_witness :
  isSensitiveOrProblematicField (js "passwordHash") = false
  /\ (startsWith (js "_") (js "passwordHash") = true ->
      js "passwordHash" ∈ [js "_id"; js "_stats"; js "_source"]).
Proof.
  apply (sanitized_data_has_no_listed_key Cases.vault (RAddr 0)).
  vm_compute. right. left.
Defined.

Example vault_sanitized :
  sanitizeData Cases.vault (RAddr 0)
  = JObj [(js "name", JStr (js "Mira"));
          (js "passwordHash", JStr (js "5f4dcc3b"));
          (js "apiKey", JStr (js "k-123"));
          (js "_id", JStr (js "a1"));
          (js "hp", JObj [(js "value", JNum 7); (js "max", JNum 12)]);
          (js "history", JArr [JStr (js "[Circular Reference]"); JNull])].
Proof. vm_compute. reflexivity. Qed.

Lemma removeSensitiveFields_addr below store a visited :
  removeSensitiveFields (S below) store (RAddr a) visited =
  if existsb (Nat.eqb a) visited
  then (JStr (js "[Circular Reference]"), visited)
  else
    match store a with
    | CThrowing => (JStr (js "[Sanitization failed]"), a :: visited)
    | CArray elems =>
        let '(items, visited2) :=
          threadMap (removeSensitiveFields below store) elems (a :: visited) in
        (JArr items, visited2)
    | CObject entries =>
        let '(kept, visited2) :=
          threadMap
            (fun (entry : jsstring * Ref) seen =>
               if skippedKey (fst entry) then (None, seen)
               else
                 let '(value, seen1) :=
                   removeSensitiveFields below store (snd entry) seen in
                 (Some (fst entry, value), seen1))
            entries (a :: visited) in
        (JObj (omap (fun kept => kept) kept), visited2)
    end.
Proof. reflexivity. Qed.

Lemma threadMap_grows {A B} (f : A -> list nat -> B * list nat) l s x :
  (forall y s0, existsb (Nat.eqb x) s0 = true ->
                existsb (Nat.eqb x) (snd (f y s0)) = true) ->
  existsb (Nat.eqb x) s = true ->
  existsb (Nat.eqb x) (snd (threadMap f l s)) = true.
Proof.
  intros H. revert s. induction l as [|y r IH]; intros s Hs; simpl; auto.
  specialize (H y s Hs). destruct (f y s) as [b s1].
  specialize (IH s1 H). destruct (threadMap f r s1) as [ys s2]. exact IH.
Qed.

Lemma removeSensitiveFields_grows levels store obj visited x :
  existsb (Nat.eqb x) visited = true ->
  existsb (Nat.eqb x) (snd (removeSensitiveFields levels store obj visited)) = true.
Proof.
  revert obj visited. induction levels as [|below IH]; intros obj visited Hx;
    destruct obj as [ | | b | q | s | a]; try exact Hx.
  rewrite removeSensitiveFields_addr.
  destruct (existsb (Nat.eqb a) visited); [exact Hx|].
  assert (Hx1 : existsb (Nat.eqb x) (a :: visited) = true).
  { simpl. rewrite Hx. apply orb_true_r. }
  destruct (store a) as [entries|elems|]; [| |exact Hx1].
  - pose proof (threadMap_grows
      (fun (entry : list N * Ref) seen =>
         if skippedKey (fst entry) then (None, seen)
         else
           let '(value, seen1) := removeSensitiveFields below store (snd entry) seen in
           (Some (fst entry, value), seen1))
      entries (a :: visited) x) as Hg.
    destruct (threadMap _ entries (a :: visited)) as [kept visited2].
    apply Hg; [|exact Hx1]. intros [k r] s0 Hs0. simpl.
    destruct (skippedKey k); [exact Hs0|].
    specialize (IH r s0 Hs0).
    destruct (removeSensitiveFields below store r s0). exact IH.
  - pose proof (threadMap_grows (removeSensitiveFields below store)
                  elems (a :: visited) x) as Hg.
    destruct (threadMap _ elems (a :: visited)) as [items visited2].
    apply Hg; [|exact Hx1]. intros y s0. apply IH.
Qed.

Lemma removeSensitiveFields_marks below store a visited :
  existsb (Nat.eqb a)
    (snd (removeSensitiveFields (S below) store (RAddr a) visited)) = true.
Proof.
  rewrite removeSensitiveFields_addr.
  destruct (existsb (Nat.eqb a) visited) eqn:Hv; [exact Hv|].
  assert (Hx1 : existsb (Nat.eqb a) (a :: visited) = true).
  { simpl. rewrite Nat.eqb_refl. reflexivity. }
  destruct (store a) as [entries|elems|]; [| |exact Hx1].
  - pose proof (threadMap_grows
      (fun (entry : list N * Ref) seen =>
         if skippedKey (fst entry) then (None, seen)
         else
           let '(value, seen1) := removeSensitiveFields below store (snd entry) seen in
           (Some (fst entry, value), seen1))
      entries (a :: visited) a) as Hg.
    destruct (threadMap _ entries (a :: visited)) as [kept visited2].
    apply Hg; [|exact Hx1]. intros [k r] s0 Hs0. simpl.
    destruct (skippedKey k); [exact Hs0|].
    pose proof (removeSensitiveFields_grows below store r s0 a Hs0) as Hr.
    destruct (removeSensitiveFields below store r s0). exact Hr.
  - pose proof (threadMap_grows (removeSensitiveFields below store)
                  elems (a :: visited) a) as Hg.
    destruct (threadMap _ elems (a :: visited)) as [items visited2].
    apply Hg; [|exact Hx1]. intros y s0. apply removeSensitiveFields_grows.
Qed.

Lemma removeSensitiveFields_fresh below store a visited :
  existsb (Nat.eqb a) visited = false ->
  fst (removeSensitiveFields (S below) store (RAddr a) visited)
  <> JStr (js "[Circular Reference]")
  /\ fst (removeSensitiveFields (S below) store (RAddr a) visited) <> JUndefined.
Proof.
  intros Hv. rewrite removeSensitiveFields_addr, Hv.
  destruct (store a) as [entries|elems|].
  - destruct (threadMap _ entries (a :: visited)). split; discriminate.
  - destruct (threadMap _ elems (a :: visited)). split; discriminate.
  - split; discriminate.
Qed.

(** X15. An object met a second time is reported as circular even when it
    lies on no cycle: of an array that holds the same object twice, the
    sanitized copy holds the object's copy first and the text
    "[Circular Reference]" in its place the second time. *)
Theorem second_visit_is_called_circular (store : nat -> Cell) (a b : nat) :
  a <> b -> store b = CArray [RAddr a; RAddr a] ->
  exists copy,
    sanitizeData store (RAddr b) = JArr [copy; JStr (js "[Circular Reference]")]
    /\ copy = jsonRoundTrip (fst (removeSensitiveFields 50 store (RAddr a) [b]))
    /\ copy <> JStr (js "[Circular Reference]").
Proof.
  intros Hab Hb.
  assert (Hfresh : existsb (Nat.eqb a) [b] = false).
  { simpl. rewrite orb_false_r. apply Nat.eqb_neq. exact Hab. }
  destruct (removeSensitiveFields_fresh 49 store a [b] Hfresh) as [Hc Hu].
  pose proof (removeSensitiveFields_marks 49 store a [b]) as Hm.
  exists (jsonRoundTrip (fst (removeSensitiveFields 50 store (RAddr a) [b]))).
  split; [|split; [reflexivity|]].
  - rewrite sanitizeData_addr, (removeSensitiveFields_addr 50). simpl existsb.
    rewrite Hb. cbn [threadMap].
    destruct (removeSensitiveFields 50 store (RAddr a) [b]) as [first seen] eqn:Hfirst.
    cbn [fst snd] in *.
    rewrite (removeSensitiveFields_addr 49), Hm. cbn [fst jsonRoundTrip map].
    destruct first; try reflexivity. contradiction.
  - destruct (removeSensitiveFields 50 store (RAddr a) [b]) as [first seen].
    cbn [fst] in *. destruct first; simpl; try discriminate; try congruence.
Qed.

Lemma second_visit_is_called_circular_witness :
  exists copy,
    sanitizeData Cases.twins (RAddr 0) = JArr [copy; JStr (js "[Circular Reference]")]
    /\ copy = jsonRoundTrip (fst (removeSensitiveFields 50 Cases.twins (RAddr 1) [O]))
    /\ copy <> JStr (js "[Circular Reference]").
Proof.
  apply (second_visit_is_called_circular Cases.twins 1 0).
  - discriminate.
  - reflexivity.
Defined.

Lemma removeSensitiveFields_plain levels store v visited :
  (forall x, v <> RAddr x) ->
  removeSensitiveFields levels store v visited = (sanitizeData store v, visited).
Proof.
  intros Hv. destruct levels, v; try reflexivity; exfalso; eapply Hv; reflexivity.
Qed.

Lemma jsonRoundTrip_flat props :
  Forall (fun kv : list N * JVal => isObjectValue (snd kv) = false) props ->
  jsonRoundTrip (JObj props)
  = JObj (omap (fun kv : list N * JVal =>
                  match snd kv with
                  | JUndefined => None
                  | v => Some (fst kv, v)
                  end) props).
Proof.
  induction 1 as [|[k v] r Hv _ IH]; [reflexivity|].
  simpl in Hv. injection IH as IH.
  destruct v; try discriminate; simpl; rewrite ?andb_false_r; f_equal; f_equal;
    try exact IH; f_equal; exact IH.
Qed.

(** X16. Names are removed by exact match only.  Of an object whose
    properties hold no objects, the sanitized copy keeps, in order, every
    property that has a value other than undefined and a name that is not
    one of the listed names and does not start with an underscore
    (unless it is [_id], [_stats] or [_source]); a name that only contains
    a listed one, such as "passwordHash", stays. *)
Theorem only_exact_names_are_removed (store : nat -> Cell) (a : nat)
    (entries : list (jsstring * Ref)) :
  store a = CObject entries ->
  (forall kv x, kv ∈ entries -> snd kv <> RAddr x) ->
  sanitizeData store (RAddr a)
  = JObj (omap (fun kv : jsstring * Ref =>
                  if skippedKey (fst kv) then None
                  else match snd kv with
                       | RUndefined => None
                       | v => Some (fst kv, sanitizeData store v)
                       end) entries).
Proof.
  intros Ha Hflat.
  rewrite sanitizeData_addr, (removeSensitiveFields_addr 50). simpl existsb. rewrite Ha.
  assert (Hloop : forall visited,
    threadMap
      (fun (entry : list N * Ref) seen =>
         if skippedKey (fst entry) then (None, seen)
         else
           let '(value, seen1) := removeSensitiveFields 50 store (snd entry) seen in
           (Some (fst entry, value), seen1))
      entries visited
    = (map (fun kv : list N * Ref =>
              if skippedKey (fst kv) then None
              else Some (fst kv, sanitizeData store (snd kv))) entries,
       visited)).
  { clear Ha. induction entries as [|[k v] r IH]; intros visited; [reflexivity|].
    cbn [threadMap map fst snd].
    assert (Hr : forall kv x, kv ∈ r -> snd kv <> RAddr x).
    { intros kv x Hkv. apply Hflat. right. exact Hkv. }
    specialize (IH Hr).
    assert (Hv : forall x, v <> RAddr x).
    { intros x. apply (Hflat (k, v) x). left. }
    destruct (skippedKey k).
    - rewrite IH. reflexivity.
    - rewrite removeSensitiveFields_plain by exact Hv. rewrite IH. reflexivity. }
  rewrite Hloop. cbn [fst].
  rewrite jsonRoundTrip_flat.
  - f_equal. clear Hloop Ha.
    induction entries as [|[k v] r IH]; [reflexivity|].
    assert (Hr : forall kv x, kv ∈ r -> snd kv <> RAddr x).
    { intros kv x Hkv. apply Hflat. right. exact Hkv. }
    specialize (IH Hr).
    assert (Hv : forall x, v <> RAddr x).
    { intros x. apply (Hflat (k, v) x). left. }
    cbn [map omap list_omap fst snd]. destruct (skippedKey k); [exact IH|].
    destruct v as [ | | b | q | s | x];
      cbn [map omap list_omap fst snd sanitizeData]; rewrite ?IH; try reflexivity.
    exfalso. apply (Hv x). reflexivity.
  - clear Hloop Ha. induction entries as [|[k v] r IH]; [constructor|].
    assert (Hr : forall kv x, kv ∈ r -> snd kv <> RAddr x).
    { intros kv x Hkv. apply Hflat. right. exact Hkv. }
    specialize (IH Hr).
    assert (Hv : forall x, v <> RAddr x).
    { intros x. apply (Hflat (k, v) x). left. }
    cbn [map omap list_omap fst snd]. destruct (skippedKey k); [exact IH|].
    constructor; [|exact IH].
    destruct v as [ | | b | q | s | x]; try reflexivity.
    exfalso. apply (Hv x). reflexivity.
Qed.

Lemma only_exact_names_are_removed_witness :
  sanitizeData Cases.ledger (RAddr 0)
  = JObj [(js "user", JStr (js "mira")); (js "passwordHash", JStr (js "5f4dcc3b"));
          (js "tokens", JNum 3); (js "_id", JStr (js "a1"))].
Proof.
  refine (only_exact_names_are_removed Cases.ledger 0 Cases.account eq_refl _).
  intros kv x Hkv.
  repeat (apply elem_of_cons in Hkv as [->|Hkv]; [discriminate|]).
  inversion Hkv.
Defined.

(** ** The free-text search with filters *)

(** X17. With a creature filter on Actor packs and the enhanced index
    switched on, the text of the query plays no part: when the structured
    query answers, any two queries that pass the length check get the same
    result, namely the entries of the structured query for the filters,
    whatever their names; there can be up to a hundred of them. *)
Theorem enhanced_search_ignores_the_query
    (localeCompare : jsstring -> jsstring -> comparison)
    (filters : Filters) (packType : option jsstring) (w w1 : World)
    (answer : QueryResult) (query1 query2 : jsstring) :
  wantsEnhancedSearch packType filters = true ->
  enableEnhancedCreatureIndex w = true ->
  listCreaturesByCriteria localeCompare (criteriaOfFilters filters) w = (Ok answer, w1) ->
  (2 <= length (trim query1))%nat -> (2 <= length (trim query2))%nat ->
  searchCompendiumWith localeCompare filters query1 packType w
  = (Ok (map (fun creature => EnhancedHit (toEnhancedSearchResult creature))
             (qr_creatures answer)), w1)
  /\ searchCompendiumWith localeCompare filters query2 packType w
     = searchCompendiumWith localeCompare filters query1 packType w
  /\ (length (qr_creatures answer) <= 100)%nat.
Proof.
  intros Hwant Hon Hanswer H1 H2.
  assert (Hrun : forall query, (2 <= length (trim query))%nat ->
            searchCompendiumWith localeCompare filters query packType w
            = (Ok (map (fun creature => EnhancedHit (toEnhancedSearchResult creature))
                       (qr_creatures answer)), w1)).
  { intros query Hq. unfold searchCompendiumWith.
    assert (bool_decide (query = []) = false) as ->.
    { apply bool_decide_eq_false. intros ->. simpl in Hq. lia. }
    assert ((length (trim query) <? 2)%nat = false) as -> by (apply Nat.ltb_ge; exact Hq).
    simpl. rewrite Hwant, Hon. simpl. rewrite Hanswer. reflexivity. }
  split; [apply Hrun; exact H1|]. split; [rewrite !Hrun; auto|].
  apply (listCreaturesByCriteria_length localeCompare) in Hanswer.
  - exact Hanswer.
  - unfold effectiveLimit. simpl. lia.
Qed.

Lemma enhanced_search_ignores_the_query_witness :
  searchCompendiumWith compareUnits Cases.beasts (js "dragon") (Some (js "Actor"))
                       Sample.cached
  = searchCompendiumWith compareUnits Cases.beasts (js "zz") (Some (js "Actor"))
                         Sample.cached
  /\ (length (qr_creatures Cases.beastAnswer) <= 100)%nat.
Proof.
  refine (proj2 (enhanced_search_ignores_the_query compareUnits Cases.beasts
                   (Some (js "Actor")) Sample.cached
                   (snd (listCreaturesByCriteria compareUnits
                           (criteriaOfFilters Cases.beasts) Sample.cached))
                   Cases.beastAnswer (js "zz") (js "dragon") _ _ _ _ _)).
  - reflexivity.
  - reflexivity.
  - vm_compute. reflexivity.
  - vm_compute. lia.
  - vm_compute. lia.
Defined.

Example beasts_found :
  omap (fun hit => match hit with
                   | EnhancedHit r => Some (es_name r, es_summary r)
                   | PlainHit _ => None
                   end)
       (match fst (searchCompendiumWith compareUnits Cases.beasts (js "zz")
                     (Some (js "Actor")) Sample.cached) with
        | Ok hits => hits
        | Throw _ => []
        end)
  = [(js "A", js "CR 2 beast from Monsters");
     (js "C", js "CR 2 beast from Monsters");
     (js "B", js "CR 5 beast from Monsters")].
Proof. vm_compute. reflexivity. Qed.

Lemma searchCriteriaOf_withAlignment filters alignment spellcaster :
  searchCriteriaOf (withAlignment filters alignment spellcaster) = searchCriteriaOf filters.
Proof. reflexivity. Qed.

Lemma excluded_withAlignment filters alignment spellcaster entry :
  shouldApplyFilters entry (withAlignment filters alignment spellcaster)
  && negb (matchesSearchCriteria entry (searchCriteriaOf filters))
  = shouldApplyFilters entry filters
    && negb (matchesSearchCriteria entry (searchCriteriaOf filters)).
Proof.
  destruct (matchesSearchCriteria entry (searchCriteriaOf filters)) eqn:Hm.
  { rewrite !andb_false_r. reflexivity. }
  rewrite !andb_true_r.
  assert (Hset : is_Some (f_challengeRating filters) \/ is_Some (f_creatureType filters)).
  { unfold matchesSearchCriteria, searchCriteriaOf in Hm. simpl in Hm.
    destruct (f_challengeRating filters) as [cr|]; [left; eauto|].
    destruct (f_creatureType filters) as [t|]; [right; eauto|].
    simpl in Hm. discriminate. }
  unfold shouldApplyFilters. simpl.
  destruct (negb _ && negb _); [reflexivity|].
  destruct Hset as [[x Hx]|[x Hx]]; rewrite Hx; simpl; rewrite ?orb_true_r; reflexivity.
Qed.

Lemma searchEntriesWith_withAlignment filters alignment spellcaster pack terms entries results :
  searchEntriesWith (withAlignment filters alignment spellcaster) pack terms entries results
  = searchEntriesWith filters pack terms entries results.
Proof.
  revert results. induction entries as [|entry rest IH]; intros results;
    cbn [searchEntriesWith]; auto.
  destruct (entry_name entry) as [name|]; [|apply IH].
  destruct (bool_decide (name = []) || bool_decide (trim name = [])); [apply IH|].
  cbv zeta. rewrite searchCriteriaOf_withAlignment.
  assert (Hsame :
    forallb (fun term => includes (toLowerCase name) term) terms
    && shouldApplyFilters entry (withAlignment filters alignment spellcaster)
    && streq (pack_type pack) (js "Actor")
    && negb (matchesSearchCriteria entry (searchCriteriaOf filters))
    = forallb (fun term => includes (toLowerCase name) term) terms
      && shouldApplyFilters entry filters
      && streq (pack_type pack) (js "Actor")
      && negb (matchesSearchCriteria entry (searchCriteriaOf filters))).
  { pose proof (excluded_withAlignment filters alignment spellcaster entry) as He.
    destruct (forallb _ terms); simpl; auto.
    destruct (streq (pack_type pack) (js "Actor")); simpl.
    - rewrite !andb_true_r. exact He.
    - rewrite !andb_false_r. reflexivity. }
  rewrite Hsame. rewrite !IH. reflexivity.
Qed.

Lemma searchPacksWith_withAlignment filters alignment spellcaster packType terms ps results :
  searchPacksWith (withAlignment filters alignment spellcaster) packType terms ps results
  = searchPacksWith filters packType terms ps results.
Proof.
  revert results. induction ps as [|pack rest IH]; intros results;
    cbn [searchPacksWith]; auto.
  assert (Hp : searchPackWith (withAlignment filters alignment spellcaster) terms pack results
               = searchPackWith filters terms pack results).
  { unfold searchPackWith. destruct (ensureIndexed pack) as [pack1|]; auto.
    destruct (pack_index pack1); auto. rewrite searchEntriesWith_withAlignment. reflexivity. }
  rewrite Hp. destruct (packSearched packType pack).
  - destruct (searchPackWith filters terms pack results) as [pack1 results1].
    rewrite IH. reflexivity.
  - rewrite IH. reflexivity.
Qed.

(** X18. The filters [alignment] and [spellcaster] are accepted and never
    used: the free-text search returns the same results, in the same order,
    and leaves the same world, whatever values the two are given or
    whether they are given at all. *)
Theorem alignment_and_spellcaster_are_ignored
    (localeCompare : jsstring -> jsstring -> comparison)
    (filters : Filters) (alignment : option jsstring) (spellcaster : option bool)
    (query : jsstring) (packType : option jsstring) (w : World) :
  searchCompendiumWith localeCompare (withAlignment filters alignment spellcaster)
                       query packType w
  = searchCompendiumWith localeCompare filters query packType w.
Proof.
  assert (Hbasic : forall w0,
    basicSearchWith localeCompare (withAlignment filters alignment spellcaster)
                    query packType w0
    = basicSearchWith localeCompare filters query packType w0).
  { intros w0. unfold basicSearchWith.
    rewrite searchPacksWith_withAlignment. reflexivity. }
  unfold searchCompendiumWith. rewrite !Hbasic.
  change (wantsEnhancedSearch packType (withAlignment filters alignment spellcaster))
    with (wantsEnhancedSearch packType filters).
  change (criteriaOfFilters (withAlignment filters alignment spellcaster))
    with (criteriaOfFilters filters).
  destruct (bool_decide (query = []) || _); [reflexivity|].
  destruct (wantsEnhancedSearch packType filters && _); [|reflexivity].
  destruct (listCreaturesByCriteria _ _ _) as [[answer|e] w1]; [reflexivity|].
  apply Hbasic.
Qed.

Lemma alignment_and_spellcaster_are_ignored_witness :
  searchCompendiumWith compareUnits
    (withAlignment Cases.evilCasters None None) (js "goblin") None Cases.warren
  = searchCompendiumWith compareUnits Cases.evilCasters (js "goblin") None Cases.warren.
Proof.
  apply (alignment_and_spellcaster_are_ignored compareUnits Cases.evilCasters None None).
Defined.

Lemma toLowerCase_nil s : toLowerCase s = [] -> s = [].
Proof. destruct s; [reflexivity|discriminate]. Qed.

(** X19. The score that ranks the results of a filtered search is
    computed for every result and never holds the bonus for a matching
    creature type: a search result carries no [system], so its type reads as
    the empty text.  Nor does it hold the bonus for an exact challenge
    rating, unless the rating asked for is zero.  The score is the one the
    filters would give without those fields. *)
Theorem result_scores_ignore_type_and_rating
    (name : jsstring) (filters : Filters) (query : jsstring) :
  exists score,
    calculateRelevanceScore JUndefined name filters query = Ok score
    /\ calculateRelevanceScore JUndefined name (withoutType filters) query = Ok score
    /\ (forall n, f_challengeRating filters = Some (Exact n) -> ~ (n == 0)%Q ->
          calculateRelevanceScore JUndefined name (withoutRating filters) query
          = Ok score).
Proof.
  unfold calculateRelevanceScore. simpl.
  assert (Htype :
    match given (f_creatureType filters) with
    | Some creatureType =>
        Ok (if streq [] (toLowerCase creatureType) then 20%Q else 0%Q)
    | None => Ok 0%Q
    end = (Ok 0%Q : result Q)).
  { destruct (given (f_creatureType filters)) as [t|] eqn:Ht; [|reflexivity].
    destruct (streq [] (toLowerCase t)) eqn:E; [|reflexivity].
    apply streq_true in E. symmetry in E. apply toLowerCase_nil in E. subst t.
    unfold given in Ht. destruct (f_creatureType filters) as [[|]|]; discriminate. }
  rewrite Htype. simpl.
  destruct (f_challengeRating filters) as [[n|lo hi]|] eqn:Hcr; simpl.
  - eexists. split; [reflexivity|]. split; [reflexivity|].
    intros n' [= <-] Hn.
    assert (Qeq_bool 0 n = false) as ->; [|reflexivity].
    destruct (Qeq_bool 0 n) eqn:E; [|reflexivity].
    apply Qeq_bool_iff in E. exfalso. apply Hn. symmetry. exact E.
  - destruct lo as [lo|], hi as [hi|]; simpl;
      (eexists; split; [reflexivity|]; split; [reflexivity|]; intros n' Hn'; discriminate).
  - eexists. split; [reflexivity|]. split; [reflexivity|]. intros n' Hn'. discriminate.
Qed.

Lemma result_scores_ignore_type_and_rating_witness :
  exists score,
    calculateRelevanceScore JUndefined (js "Goblin Boss") Cases.evilCasters (js "goblin")
    = Ok score
    /\ calculateRelevanceScore JUndefined (js "Goblin Boss")
         (withoutRating Cases.evilCasters) (js "goblin") = Ok score.
Proof.
  destruct (result_scores_ignore_type_and_rating (js "Goblin Boss") Cases.evilCasters
              (js "goblin")) as (score & H1 & _ & H3).
  exists score. split; [exact H1|].
  apply (H3 3%Q); [reflexivity|]. intros H. vm_compute in H. discriminate.
Defined.

Example goblin_boss_score :
  calculateRelevanceScore JUndefined (js "Goblin Boss") Cases.beasts (js "goblin")
  = Ok (0 + 0 + 5 + (0 + 3))%Q.
Proof. reflexivity. Qed.

(** *** Players *)

Lemma startsWith_refl s : startsWith s s = true.
Proof. induction s as [|c s IH]; simpl; [reflexivity|]. rewrite N.eqb_refl. exact IH. Qed.

Lemma includes_refl s : includes s s = true.
Proof. destruct s; simpl; [reflexivity|]. rewrite N.eqb_refl, startsWith_refl. reflexivity. Qed.

Lemma includes_nil s : includes [] s = true -> s = [].
Proof. destruct s; simpl; [reflexivity|discriminate]. Qed.

Lemma find_elem {A} (f : A -> bool) (l : list A) (x : A) :
  find f l = Some x -> x ∈ l /\ f x = true.
Proof. intros H. apply find_some in H as [H1 H2]. split; [apply list_elem_of_In; exact H1|exact H2]. Qed.

Lemma find_nothing {A} (f : A -> bool) (l : list A) (x : A) :
  find f l = None -> x ∈ l -> f x = false.
Proof. intros H Hx. apply (find_none f l H). apply list_elem_of_In. exact Hx. Qed.

(** A name that holds the search term is found by one of the two looks at
    the names: the exact one or the partial one. *)
Lemma name_found (term s : jsstring) :
  includes (toLowerCase s) term = true ->
  exactName term (Some s) = true \/ partialName term (Some s) = true.
Proof.
  intros H. simpl. destruct s as [|c s].
  - left. apply includes_nil in H. subst term. reflexivity.
  - right. rewrite H. reflexivity.
Qed.

Lemma exactName_includes term name :
  exactName term name = true ->
  exists s, name = Some s /\ includes (toLowerCase s) term = true.
Proof.
  destruct name as [s|]; simpl; [|discriminate]. intros H. apply streq_true in H.
  exists s. split; [reflexivity|]. rewrite H. apply includes_refl.
Qed.

Lemma partialName_includes term name :
  partialName term name = true ->
  exists s, name = Some s /\ s <> [] /\ includes (toLowerCase s) term = true.
Proof.
  destruct name as [s|]; simpl; [|discriminate]. intros H.
  apply andb_true_iff in H as [H1 H2]. exists s. split; [reflexivity|]. split; [|exact H2].
  intros ->. discriminate.
Qed.

Lemma anyName_includes term name :
  anyName term name = true ->
  exists s, name = Some s /\ s <> [] /\ includes (toLowerCase s) term = true.
Proof.
  destruct name as [s|]; simpl; [|discriminate].
  destruct (bool_decide (s = [])) eqn:E; [discriminate|]. intros H.
  exists s. split; [reflexivity|]. split.
  - intros ->. discriminate.
  - apply orb_true_iff in H as [H|H]; [|exact H].
    apply streq_true in H. rewrite H. apply includes_refl.
Qed.

Lemma includes_anyName term s :
  s <> [] -> includes (toLowerCase s) term = true -> anyName term (Some s) = true.
Proof.
  intros Hne Hi. unfold anyName. destruct (bool_decide (s = [])) eqn:E.
  - apply bool_decide_eq_true in E. contradiction.
  - rewrite Hi. apply orb_true_r.
Qed.

Section PlayerFacts.

Variable testUserPermission : Actor -> User -> bool.

Lemma userFound_facts g u :
  u ∈ game_users g ->
  let info := userFound testUserPermission g u in
  pi_user info = Some u
  /\ pi_found info = active u
  /\ pi_errorType info = (if active u then None else Some PLAYER_OFFLINE)
  /\ (forall c, pi_character info = Some c ->
        c ∈ game_actors g /\ testUserPermission c u = true /\ isGM u = false
        /\ active u = true)
  /\ (pi_found info = false -> exists m, pi_errorMessage info = Some m /\ m <> []).
Proof.
  intros Hu. unfold userFound. destruct (active u); simpl.
  - split; [reflexivity|]. split; [reflexivity|]. split; [reflexivity|]. split.
    + intros c Hc. apply find_elem in Hc as [Hin Hown]. unfold ownedBy in Hown.
      apply andb_true_iff in Hown as [H1 H2]. apply negb_true_iff in H2. auto.
    + discriminate.
  - split; [reflexivity|]. split; [reflexivity|]. split; [reflexivity|]. split.
    + discriminate.
    + intros _. eexists. split; [reflexivity|]. discriminate.
Qed.

Lemma characterFound_facts g c :
  c ∈ game_actors g ->
  let info := characterFound testUserPermission g c in
  pi_character info = Some c
  /\ pi_errorType info <> Some PLAYER_NOT_FOUND
  /\ pi_errorType info <> Some CHARACTER_NOT_FOUND
  /\ (pi_found info = true -> pi_errorType info = None)
  /\ (forall u, pi_user info = Some u ->
        u ∈ game_users g /\ testUserPermission c u = true /\ isGM u = false
        /\ active u = pi_found info)
  /\ (pi_found info = false ->
        pi_errorType info = Some PLAYER_OFFLINE
        /\ (exists u, pi_user info = Some u)
        /\ exists m, pi_errorMessage info = Some m /\ m <> []).
Proof.
  intros Hc. unfold characterFound.
  destruct (find _ _) as [owner|] eqn:Hf.
  - apply find_elem in Hf as [Hin Hown]. unfold ownerOf in Hown.
    apply andb_true_iff in Hown as [H1 H2]. apply negb_true_iff in H2.
    destruct (active owner) eqn:Ha; simpl.
    + split; [reflexivity|]. split; [discriminate|]. split; [discriminate|].
      split; [reflexivity|]. split; [|discriminate].
      intros u [= <-]. auto.
    + split; [reflexivity|]. split; [discriminate|]. split; [discriminate|].
      split; [discriminate|]. split.
      * intros u [= <-]. auto.
      * intros _. split; [reflexivity|]. split; [eexists; reflexivity|].
        eexists. split; [reflexivity|]. discriminate.
  - simpl. split; [reflexivity|]. split; [discriminate|]. split; [discriminate|].
    split; [reflexivity|]. split; discriminate.
Qed.

End PlayerFacts.

(** X20. A roll request is never addressed to a user who is offline: when
    [resolveTargetPlayer] reports the target as found, there is no error,
    the user it names (if any) is a user of the game who is logged in, and
    the character it names (if any) is an actor of the game; one of the two
    is named.  When it reports the target as not found there is an error
    message, and either the error is PLAYER_OFFLINE with a user who is not
    logged in, or it is PLAYER_NOT_FOUND with no user and no character.
    The error CHARACTER_NOT_FOUND is never returned. *)
Theorem roll_target_is_never_offline
    (testUserPermission : Actor -> User -> bool) (targetPlayer : jsstring) (g : Game) :
  let info := resolveTargetPlayer testUserPermission targetPlayer g in
  (pi_found info = true ->
     pi_errorType info = None
     /\ (forall u, pi_user info = Some u -> u ∈ game_users g /\ active u = true)
     /\ (forall c, pi_character info = Some c -> c ∈ game_actors g)
     /\ (pi_user info <> None \/ pi_character info <> None))
  /\ (pi_found info = false ->
        (exists m, pi_errorMessage info = Some m /\ m <> [])
        /\ ((pi_errorType info = Some PLAYER_OFFLINE
             /\ exists u, pi_user info = Some u /\ u ∈ game_users g /\ active u = false)
            \/ (pi_errorType info = Some PLAYER_NOT_FOUND
                /\ pi_user info = None /\ pi_character info = None)))
  /\ pi_errorType info <> Some CHARACTER_NOT_FOUND.
Proof.
  assert (Huser : forall u, u ∈ game_users g ->
    let info := userFound testUserPermission g u in
    (pi_found info = true ->
       pi_errorType info = None
       /\ (forall u, pi_user info = Some u -> u ∈ game_users g /\ active u = true)
       /\ (forall c, pi_character info = Some c -> c ∈ game_actors g)
       /\ (pi_user info <> None \/ pi_character info <> None))
    /\ (pi_found info = false ->
          (exists m, pi_errorMessage info = Some m /\ m <> [])
          /\ ((pi_errorType info = Some PLAYER_OFFLINE
               /\ exists u, pi_user info = Some u /\ u ∈ game_users g /\ active u = false)
              \/ (pi_errorType info = Some PLAYER_NOT_FOUND
                  /\ pi_user info = None /\ pi_character info = None)))
    /\ pi_errorType info <> Some CHARACTER_NOT_FOUND).
  { intros u Hu info.
    destruct (userFound_facts testUserPermission g u Hu) as (Hus & Hfound & Herr & Hch & Hmsg).
    fold info in Hus, Hfound, Herr, Hch, Hmsg.
    split; [|split].
    - intros Hf. rewrite Hfound in Hf. rewrite Herr, Hf.
      split; [reflexivity|]. split; [|split].
      + intros u' Hu'. rewrite Hus in Hu'. injection Hu' as <-. auto.
      + intros c Hc. apply Hch in Hc. tauto.
      + left. rewrite Hus. discriminate.
    - intros Hf. split; [auto|]. left. rewrite Hfound in Hf. rewrite Herr, Hf.
      split; [reflexivity|]. exists u. auto.
    - rewrite Herr. destruct (active u); discriminate. }
  assert (Hnone :
    let info := notFound g targetPlayer in
    (pi_found info = true ->
       pi_errorType info = None
       /\ (forall u, pi_user info = Some u -> u ∈ game_users g /\ active u = true)
       /\ (forall c, pi_character info = Some c -> c ∈ game_actors g)
       /\ (pi_user info <> None \/ pi_character info <> None))
    /\ (pi_found info = false ->
          (exists m, pi_errorMessage info = Some m /\ m <> [])
          /\ ((pi_errorType info = Some PLAYER_OFFLINE
               /\ exists u, pi_user info = Some u /\ u ∈ game_users g /\ active u = false)
              \/ (pi_errorType info = Some PLAYER_NOT_FOUND
                  /\ pi_user info = None /\ pi_character info = None)))
    /\ pi_errorType info <> Some CHARACTER_NOT_FOUND).
  { simpl. split; [discriminate|]. split; [|discriminate].
    intros _. split; [|right; auto].
    eexists. split; [reflexivity|]. discriminate. }
  unfold resolveTargetPlayer. cbv zeta.
  destruct (find (fun u => exactName _ (user_name u)) (game_users g)) as [u|] eqn:Hexact.
  { apply Huser. apply find_elem in Hexact. tauto. }
  destruct (find (fun u => partialName _ (user_name u)) (game_users g))
    as [u|] eqn:Hpartial.
  { apply Huser. apply find_elem in Hpartial. tauto. }
  match goal with
  | |- context [match ?c with Some actor => characterFound _ _ actor | None => _ end] =>
      destruct c as [actor|] eqn:Hchar
  end.
  { assert (Hin : actor ∈ game_actors g).
    { destruct (find _ (game_actors g)) as [a|] eqn:H1.
      - injection Hchar as <-. apply find_elem in H1. tauto.
      - apply find_elem in Hchar. tauto. }
    destruct (characterFound_facts testUserPermission g actor Hin)
      as (Hc & Hnf & Hcnf & Hok & Hus & Hoff).
    split; [|split].
    - intros Hf. split; [auto|]. split; [|split].
      + intros u Hu. apply Hus in Hu. rewrite Hf in Hu. tauto.
      + intros c. rewrite Hc. intros [= <-]. exact Hin.
      + right. rewrite Hc. discriminate.
    - intros Hf. destruct (Hoff Hf) as (Herr & [u Hu] & Hmsg).
      split; [exact Hmsg|]. left. split; [exact Herr|].
      exists u. split; [exact Hu|]. apply Hus in Hu. rewrite Hf in Hu. tauto.
    - exact Hcnf. }
  destruct (find (fun actor => anyName _ (actor_name actor)) (game_actors g))
    as [anyCharacter|] eqn:Hany; [|exact Hnone].
  destruct (hasPlayerOwner anyCharacter); simpl negb; cbv iota; [exact Hnone|].
  simpl. split; [|split; discriminate].
  intros _. split; [reflexivity|]. split; [discriminate|]. split.
  - intros c [= <-]. apply find_elem in Hany. tauto.
  - right. discriminate.
Qed.

(** X21. Users come before characters, for names and a target in plain
    text: as soon as the name of some user holds the search term (the
    target in lower case, trimmed), the user [resolveTargetPlayer] names
    is a user whose name holds the term, whatever the actors are called; a
    character is named with it only if that user owns it, is logged in and
    is not a GM.  A blank target is held by every name, so it resolves to
    a user whenever a user has a name. *)
Theorem user_names_come_before_characters
    (testUserPermission : Actor -> User -> bool) (targetPlayer : jsstring) (g : Game)
    (u0 : User) (s0 : jsstring) :
  plain targetPlayer = true -> plainGame g = true ->
  u0 ∈ game_users g -> user_name u0 = Some s0 ->
  includes (toLowerCase s0) (trim (toLowerCase targetPlayer)) = true ->
  let info := resolveTargetPlayer testUserPermission targetPlayer g in
  exists u s,
    pi_user info = Some u /\ u ∈ game_users g /\ user_name u = Some s
    /\ includes (toLowerCase s) (trim (toLowerCase targetPlayer)) = true
    /\ pi_found info = active u
    /\ (forall c, pi_character info = Some c ->
          testUserPermission c u = true /\ isGM u = false /\ active u = true).
Proof.
  intros _ _ Hu0 Hname Hinc info. subst info. unfold resolveTargetPlayer. cbv zeta.
  assert (Hgoal : forall u s, u ∈ game_users g -> user_name u = Some s ->
            includes (toLowerCase s) (trim (toLowerCase targetPlayer)) = true ->
            exists u' s',
              pi_user (userFound testUserPermission g u) = Some u'
              /\ u' ∈ game_users g /\ user_name u' = Some s'
              /\ includes (toLowerCase s') (trim (toLowerCase targetPlayer)) = true
              /\ pi_found (userFound testUserPermission g u) = active u'
              /\ (forall c, pi_character (userFound testUserPermission g u) = Some c ->
                    testUserPermission c u' = true /\ isGM u' = false
                    /\ active u' = true)).
  { intros u s Hu Hs Hi.
    destruct (userFound_facts testUserPermission g u Hu) as (Hus & Hfound & _ & Hch & _).
    exists u, s. repeat split; auto; apply Hch in H; tauto. }
  destruct (find (fun u => exactName _ (user_name u)) (game_users g)) as [u|] eqn:Hexact.
  { apply find_elem in Hexact as [Hin He].
    apply exactName_includes in He as (s & Hs & Hi). apply (Hgoal u s); auto. }
  destruct (find (fun u => partialName _ (user_name u)) (game_users g))
    as [u|] eqn:Hpartial.
  { apply find_elem in Hpartial as [Hin Hp].
    apply partialName_includes in Hp as (s & Hs & _ & Hi). apply (Hgoal u s); auto. }
  exfalso.
  pose proof (find_nothing _ _ u0 Hexact Hu0) as H1.
  pose proof (find_nothing _ _ u0 Hpartial Hu0) as H2.
  cbv beta in H1, H2. rewrite Hname in H1, H2.
  destruct (name_found _ _ Hinc) as [H|H]; congruence.
Qed.

Lemma user_names_come_before_characters_witness :
  exists u s,
    pi_user (resolveTargetPlayer Party.owns (js " AN ") Party.game) = Some u
    /\ u ∈ game_users Party.game /\ user_name u = Some s
    /\ includes (toLowerCase s) (trim (toLowerCase (js " AN "))) = true
    /\ pi_found (resolveTargetPlayer Party.owns (js " AN ") Party.game) = active u
    /\ (forall c, pi_character (resolveTargetPlayer Party.owns (js " AN ") Party.game)
                  = Some c ->
          Party.owns c u = true /\ isGM u = false /\ active u = true).
Proof.
  apply (user_names_come_before_characters Party.owns (js " AN ") Party.game
           Party.ann (js "Ann")).
  - reflexivity.
  - reflexivity.
  - right. left.
  - reflexivity.
  - vm_compute. reflexivity.
Defined.

Example ann_is_asked :
  let info := resolveTargetPlayer Party.owns (js " AN ") Party.game in
  pi_found info = true /\ pi_user info = Some Party.ann
  /\ pi_character info = Some Party.zed /\ pi_targetName info = js "Ann".
Proof. vm_compute. auto. Qed.

Example bob_is_offline :
  let info := resolveTargetPlayer Party.owns (js "Bob") Party.game in
  pi_found info = false /\ pi_errorType info = Some PLAYER_OFFLINE.
Proof. vm_compute. auto. Qed.

(** X22. For names and a target in plain text, the error
    PLAYER_NOT_FOUND is returned exactly when no name holds the search
    term: no user has a name that holds it, and the only actors whose name
    holds it are actors with an empty name and without a player owner
    (which a blank target does not find). *)
Theorem player_not_found_rule
    (testUserPermission : Actor -> User -> bool) (targetPlayer : jsstring) (g : Game) :
  plain targetPlayer = true -> plainGame g = true ->
  let searchTerm := trim (toLowerCase targetPlayer) in
  pi_errorType (resolveTargetPlayer testUserPermission targetPlayer g)
  = Some PLAYER_NOT_FOUND
  <-> (forall u s, u ∈ game_users g -> user_name u = Some s ->
         includes (toLowerCase s) searchTerm = false)
      /\ (forall a s, a ∈ game_actors g -> actor_name a = Some s ->
            includes (toLowerCase s) searchTerm = true ->
            s = [] /\ hasPlayerOwner a = false).
Proof.
  intros _ _ searchTerm. unfold resolveTargetPlayer. cbv zeta. fold searchTerm.
  destruct (find (fun u => exactName _ (user_name u)) (game_users g)) as [u|] eqn:Hexact.
  { apply find_elem in Hexact as [Hin He].
    destruct (userFound_facts testUserPermission g u Hin) as (_ & _ & Herr & _).
    apply exactName_includes in He as (s & Hs & Hi). split.
    - rewrite Herr. destruct (active u); discriminate.
    - intros [Hno _]. rewrite (Hno u s Hin Hs) in Hi. discriminate. }
  destruct (find (fun u => partialName _ (user_name u)) (game_users g))
    as [u|] eqn:Hpartial.
  { apply find_elem in Hpartial as [Hin Hp].
    destruct (userFound_facts testUserPermission g u Hin) as (_ & _ & Herr & _).
    apply partialName_includes in Hp as (s & Hs & _ & Hi). split.
    - rewrite Herr. destruct (active u); discriminate.
    - intros [Hno _]. rewrite (Hno u s Hin Hs) in Hi. discriminate. }
  assert (Husers : forall u s, u ∈ game_users g -> user_name u = Some s ->
                     includes (toLowerCase s) searchTerm = false).
  { intros u s Hu Hs. destruct (includes (toLowerCase s) searchTerm) eqn:Hi; [|reflexivity].
    pose proof (find_nothing _ _ u Hexact Hu) as H1.
    pose proof (find_nothing _ _ u Hpartial Hu) as H2.
    cbv beta in H1, H2. rewrite Hs in H1, H2.
    destruct (name_found _ _ Hi) as [H|H]; congruence. }
  destruct (find (fun actor => exactName _ (actor_name actor) && hasPlayerOwner actor)
                 (game_actors g)) as [actor|] eqn:Hcexact.
  { apply find_elem in Hcexact as [Hin He]. apply andb_true_iff in He as [He Hown].
    destruct (characterFound_facts testUserPermission g actor Hin) as (_ & Hnf & _).
    apply exactName_includes in He as (s & Hs & Hi). split.
    - intros H. contradiction.
    - intros [_ Hno]. destruct (Hno actor s Hin Hs Hi) as [_ H]. congruence. }
  destruct (find (fun actor => partialName _ (actor_name actor) && hasPlayerOwner actor)
                 (game_actors g)) as [actor|] eqn:Hcpartial.
  { apply find_elem in Hcpartial as [Hin He]. apply andb_true_iff in He as [He Hown].
    destruct (characterFound_facts testUserPermission g actor Hin) as (_ & Hnf & _).
    apply partialName_includes in He as (s & Hs & _ & Hi). split.
    - intros H. contradiction.
    - intros [_ Hno]. destruct (Hno actor s Hin Hs Hi) as [_ H]. congruence. }
  assert (Howned : forall a s, a ∈ game_actors g -> actor_name a = Some s ->
                     includes (toLowerCase s) searchTerm = true ->
                     hasPlayerOwner a = false).
  { intros a s Ha Hs Hi. destruct (hasPlayerOwner a) eqn:Hown; [|reflexivity].
    pose proof (find_nothing _ _ a Hcexact Ha) as H1.
    pose proof (find_nothing _ _ a Hcpartial Ha) as H2.
    cbv beta in H1, H2. rewrite Hs, Hown, andb_true_r in H1, H2.
    destruct (name_found _ _ Hi) as [H|H]; congruence. }
  destruct (find (fun actor => anyName _ (actor_name actor)) (game_actors g))
    as [anyCharacter|] eqn:Hany.
  { apply find_elem in Hany as [Hin Ha].
    apply anyName_includes in Ha as (s & Hs & Hne & Hi).
    rewrite (Howned anyCharacter s Hin Hs Hi). simpl. split; [discriminate|].
    intros [_ Hno]. destruct (Hno anyCharacter s Hin Hs Hi) as [H _]. contradiction. }
  simpl. split; [|reflexivity]. intros _. split; [exact Husers|].
  intros a s Ha Hs Hi. split; [|eapply Howned; eauto].
  destruct s as [|c s]; [reflexivity|].
  pose proof (find_nothing _ _ a Hany Ha) as H. cbv beta in H. rewrite Hs in H.
  rewrite includes_anyName in H; [discriminate|discriminate|exact Hi].
Qed.

(** Nobody at the table is called Zorro. *)
Lemma player_not_found_rule_witness :
  pi_errorType (resolveTargetPlayer Party.owns (js "Zorro") Party.game)
  = Some PLAYER_NOT_FOUND.
Proof.
  apply (player_not_found_rule Party.owns (js "Zorro") Party.game eq_refl eq_refl).
  split.
  - intros u s Hu. apply list_elem_of_In in Hu. simpl in Hu.
    destruct Hu as [<-|[<-|[<-|[]]]]; intros [= <-]; vm_compute; reflexivity.
  - intros a s Ha. apply list_elem_of_In in Ha. simpl in Ha.
    destruct Ha as [<-|[<-|[]]]; intros [= <-] H; vm_compute in H; discriminate.
Defined.

(** *** Finding players *)

Section FindPlayers.

Variable testUserPermission : Actor -> User -> bool.

Lemma playersByCharacter_all (P : PlayerRef -> Prop) allow term users actors :
  (forall actor owner, actor ∈ actors ->
     actor_type actor = js "character" ->
     nameMatches allow term (actor_name actor) = true ->
     find (ownerOf testUserPermission actor) users = Some owner ->
     P (playerRef owner)) ->
  forall players, Forall P players ->
  Forall P (playersByCharacter testUserPermission allow term users actors players).
Proof.
  induction actors as [|actor rest IH]; intros Hstep players Hp; simpl; [exact Hp|].
  apply IH.
  - intros a o Ha. apply Hstep. right. exact Ha.
  - destruct (streq (actor_type actor) (js "character")) eqn:Hty; simpl; [|exact Hp].
    destruct (nameMatches allow term (actor_name actor)) eqn:Hm; [|exact Hp].
    destruct (find _ users) as [owner|] eqn:Hf; [|exact Hp].
    destruct (existsb _ players); simpl; [exact Hp|].
    apply Forall_app. split; [exact Hp|]. constructor; [|constructor].
    apply (Hstep actor owner); auto. left. apply streq_true. exact Hty.
Qed.

Lemma playersByCharacter_once allow term users actors :
  forall players,
    NoDup (map p_id (filter hasId players)) ->
    NoDup (map p_id (filter hasId
             (playersByCharacter testUserPermission allow term users actors players))).
Proof.
  induction actors as [|actor rest IH]; intros players Hp; simpl; [exact Hp|].
  apply IH.
  destruct (negb (streq (actor_type actor) (js "character"))); [exact Hp|].
  destruct (nameMatches allow term (actor_name actor)); [|exact Hp].
  destruct (find _ users) as [owner|]; [|exact Hp].
  destruct (existsb (sameId owner) players) eqn:Hex; simpl; [exact Hp|].
  rewrite filter_app. simpl. unfold filter at 2. simpl.
  destruct (decide (hasId (playerRef owner))) as [Hid|Hid];
    [|rewrite app_nil_r; exact Hp].
  rewrite map_app. simpl. apply NoDup_app. split; [exact Hp|]. split.
  - intros i Hi [Heq|[]]%list_elem_of_In. subst i.
    apply list_elem_of_fmap in Hi as (p & Hpi & Hin).
    apply list_elem_of_filter in Hin as [_ Hin].
    assert (Hfalse : sameId owner p = false).
    { destruct (sameId owner p) eqn:E; [|reflexivity].
      assert (existsb (sameId owner) players = true); [|congruence].
      apply existsb_exists. exists p. split; [apply list_elem_of_In; exact Hin|exact E]. }
    unfold sameId in Hfalse. unfold playerRef in Hpi, Hid. simpl in Hpi.
    unfold hasId in Hid. simpl in Hid.
    destruct (user_id owner) as [i|]; simpl in *.
    + rewrite <- Hpi in Hfalse. unfold streq in Hfalse.
      rewrite bool_decide_eq_false in Hfalse. congruence.
    + exact Hid.
  - apply NoDup_singleton.
Qed.

Lemma playersByName_once allow term users :
  NoDup (omap user_id users) ->
  NoDup (map p_id (filter hasId (playersByName allow term users)))
  /\ forall i, i ∈ map p_id (filter hasId (playersByName allow term users)) ->
               i ∈ omap user_id users.
Proof.
  unfold playersByName.
  induction users as [|u rest IH]; intros Hnd.
  - split; [constructor|]. intros i Hi. inversion Hi.
  - assert (Hrest : NoDup (omap user_id rest)).
    { simpl in Hnd. destruct (user_id u); [inversion Hnd; assumption|exact Hnd]. }
    destruct (IH Hrest) as [IH1 IH2]. clear IH.
    assert (Hweak : forall i, i ∈ omap user_id rest -> i ∈ omap user_id (u :: rest)).
    { intros i Hi. simpl. destruct (user_id u); [right|]; exact Hi. }
    rewrite filter_cons.
    destruct (decide _) as [Hsel|Hsel]; [|split; [exact IH1|intros i Hi; auto]].
    rewrite fmap_cons, filter_cons.
    destruct (decide (hasId (playerRef u))) as [Hid|Hid];
      [|split; [exact IH1|intros i Hi; auto]].
    unfold hasId, playerRef in Hid. simpl in Hid.
    destruct (user_id u) as [i0|] eqn:Hu; simpl in Hid; [|destruct Hid].
    assert (Hhead : p_id (playerRef u) = i0) by (unfold playerRef; simpl; rewrite Hu; reflexivity).
    rewrite map_cons, Hhead. split.
    + apply NoDup_cons. split; [|exact IH1].
      intros Hin. apply IH2 in Hin. simpl in Hnd. rewrite Hu in Hnd.
      apply NoDup_cons in Hnd as [Hnot _]. contradiction.
    + intros i Hi. simpl. rewrite Hu. apply elem_of_cons in Hi as [->|Hi].
      * left.
      * right. apply IH2. exact Hi.
Qed.

End FindPlayers.

(** X23. Whom [findPlayers] returns, for names and an identifier in plain
    text.  Every player returned is a user of the game who is not a GM,
    with that user's id (which is not empty) and name.  The user was found
    by name, or else no user but a GM matches by name and the user is the
    first owner, GMs apart, of an actor of type character whose name
    matches.  When the users' ids are distinct, no player is returned
    twice. *)
Theorem found_players_are_players
    (testUserPermission : Actor -> User -> bool) (identifier : jsstring)
    (allowPartialMatch includeCharacterOwners : option bool) (g : Game)
    (players : list PlayerRef) :
  plain identifier = true -> plainGame g = true ->
  findPlayers testUserPermission identifier allowPartialMatch includeCharacterOwners g
  = Ok players ->
  let allow := default true allowPartialMatch in
  let searchTerm := toLowerCase identifier in
  (forall p, p ∈ players ->
     p_id p <> []
     /\ exists u, u ∈ game_users g /\ isGM u = false /\ user_id u = Some (p_id p)
          /\ p_name p = nameOr (user_name u) (js "Unknown")
          /\ (nameMatches allow searchTerm (user_name u) = true
              \/ (default true includeCharacterOwners = true
                  /\ (forall u', u' ∈ game_users g -> isGM u' = false ->
                        nameMatches allow searchTerm (user_name u') = false)
                  /\ exists a, a ∈ game_actors g /\ actor_type a = js "character"
                       /\ nameMatches allow searchTerm (actor_name a) = true
                       /\ firstWith (ownerOf testUserPermission a) (game_users g) u)))
  /\ (NoDup (omap user_id (game_users g)) -> NoDup (map p_id players)).
Proof.
  intros _ _ H allow searchTerm. unfold findPlayers in H.
  destruct (validateFoundryState g) as [[]|e]; [|discriminate].
  unfold mbind, result_bind in H. injection H as <-.
  fold allow searchTerm.
  set (byName := playersByName allow searchTerm (game_users g)).
  assert (Hid : forall u, p_id (playerRef u) <> [] -> user_id u = Some (p_id (playerRef u))).
  { intros u. unfold playerRef. simpl. destruct (user_id u); simpl; congruence. }
  assert (HbyName : forall p, p ∈ byName ->
            exists u, p = playerRef u /\ u ∈ game_users g /\ isGM u = false
                      /\ nameMatches allow searchTerm (user_name u) = true).
  { intros p Hp. unfold byName, playersByName in Hp.
    apply list_elem_of_fmap in Hp as (u & -> & Hu).
    apply list_elem_of_filter in Hu as [Hsel Hu].
    apply Is_true_true, andb_true_iff in Hsel as [H1 H2]. apply negb_true_iff in H1.
    exists u. auto. }
  split.
  - intros p Hp. apply list_elem_of_filter in Hp as [Hne Hp].
    apply Is_true_true, negb_true_iff, bool_decide_eq_false in Hne.
    split; [exact Hne|].
    destruct (default true includeCharacterOwners && (length byName =? 0)%nat) eqn:Hcond.
    + apply andb_true_iff in Hcond as [Hinc Hlen]. apply Nat.eqb_eq in Hlen.
      assert (Hnil : byName = []) by (destruct byName; [reflexivity|discriminate]).
      assert (Hnobody : forall u', u' ∈ game_users g -> isGM u' = false ->
                nameMatches allow searchTerm (user_name u') = false).
      { intros u' Hu' Hgm. destruct (nameMatches allow searchTerm (user_name u')) eqn:E;
          [|reflexivity].
        assert (Hin : playerRef u' ∈ byName).
        { unfold byName, playersByName. apply list_elem_of_fmap. exists u'.
          split; [reflexivity|]. apply list_elem_of_filter. split; [|exact Hu'].
          rewrite Hgm, E. exact I. }
        rewrite Hnil in Hin. inversion Hin. }
      assert (Hall : Forall (fun p => p_id p <> [] ->
        exists u, u ∈ game_users g /\ isGM u = false /\ user_id u = Some (p_id p)
          /\ p_name p = nameOr (user_name u) (js "Unknown")
          /\ (nameMatches allow searchTerm (user_name u) = true
              \/ (default true includeCharacterOwners = true
                  /\ (forall u', u' ∈ game_users g -> isGM u' = false ->
                        nameMatches allow searchTerm (user_name u') = false)
                  /\ exists a, a ∈ game_actors g /\ actor_type a = js "character"
                       /\ nameMatches allow searchTerm (actor_name a) = true
                       /\ firstWith (ownerOf testUserPermission a) (game_users g) u)))
        (playersByCharacter testUserPermission allow searchTerm (game_users g)
           (game_actors g) byName));
        [|rewrite Forall_forall in Hall; apply Hall; assumption].
      clear Hne Hp.
      apply playersByCharacter_all; [|rewrite Hnil; constructor].
      intros actor owner Ha Hty Hm Hf Hne.
      pose proof (proj1 (find_firstWith _ _ _) Hf) as Hfirst.
      apply find_elem in Hf as [Hin Hown]. unfold ownerOf in Hown.
      apply andb_true_iff in Hown as [H1 H2]. apply negb_true_iff in H2.
      exists owner. split; [exact Hin|]. split; [exact H2|]. split; [auto|].
      split; [reflexivity|]. right. split; [exact Hinc|]. split; [exact Hnobody|].
      exists actor. auto.
    + destruct (HbyName p Hp) as (u & -> & Hu & Hgm & Hm).
      exists u. split; [exact Hu|]. split; [exact Hgm|]. split; [auto|].
      split; [reflexivity|]. left. exact Hm.
  - intros Hnd.
    change (fun p => negb (bool_decide (p_id p = []))) with hasId.
    destruct (default true includeCharacterOwners && (length byName =? 0)%nat) eqn:Hcond.
    + apply andb_true_iff in Hcond as [_ Hlen]. apply Nat.eqb_eq in Hlen.
      assert (Hnil : byName = []) by (destruct byName; [reflexivity|discriminate]).
      rewrite Hnil. apply playersByCharacter_once. constructor.
    + apply playersByName_once. exact Hnd.
Qed.

(** X24. For names and an identifier in plain text, every user who is not
    a GM, has an id and matches by name is returned by [findPlayers]: the
    name in lower case equals the identifier in lower case, or holds it
    when partial matches are allowed (the default).  Owners of characters
    are not looked at then. *)
Theorem players_are_found_by_name
    (testUserPermission : Actor -> User -> bool) (identifier : jsstring)
    (allowPartialMatch includeCharacterOwners : option bool) (g : Game)
    (players : list PlayerRef) (u : User) (i : jsstring) :
  plain identifier = true -> plainGame g = true ->
  findPlayers testUserPermission identifier allowPartialMatch includeCharacterOwners g
  = Ok players ->
  u ∈ game_users g -> isGM u = false -> user_id u = Some i -> i <> [] ->
  nameMatches (default true allowPartialMatch) (toLowerCase identifier) (user_name u) = true ->
  playerRef u ∈ players
  /\ players
     = filter (fun p => negb (bool_decide (p_id p = [])))
         (map playerRef
            (filter (fun u => negb (isGM u)
                              && nameMatches (default true allowPartialMatch)
                                   (toLowerCase identifier) (user_name u))
                    (game_users g))).
Proof.
  intros _ _. unfold findPlayers.
  destruct (validateFoundryState g) as [[]|e]; [|discriminate].
  unfold mbind, result_bind. intros [= <-] Hu Hgm Hi Hne Hm.
  assert (Hin : playerRef u ∈ playersByName (default true allowPartialMatch)
                                (toLowerCase identifier) (game_users g)).
  { unfold playersByName. apply list_elem_of_fmap. exists u.
    split; [reflexivity|]. apply list_elem_of_filter. split; [|exact Hu].
    rewrite Hgm, Hm. exact I. }
  assert ((length (playersByName (default true allowPartialMatch)
                     (toLowerCase identifier) (game_users g)) =? 0)%nat = false) as ->.
  { apply Nat.eqb_neq. intros Hlen.
    destruct (playersByName _ _ _); [inversion Hin|discriminate]. }
  rewrite andb_false_r. split; [|reflexivity].
  apply list_elem_of_filter. split; [|exact Hin].
  unfold playerRef. simpl. rewrite Hi. simpl.
  apply Is_true_true, negb_true_iff, bool_decide_eq_false. exact Hne.
Qed.

Lemma found_players_are_players_witness :
  findPlayers Party.owns (js "Zed") None None Party.game = Ok [playerRef Party.ann]
  /\ (forall p, p ∈ [playerRef Party.ann] ->
     p_id p <> []
     /\ exists u, u ∈ game_users Party.game /\ isGM u = false
          /\ user_id u = Some (p_id p))
  /\ NoDup (map p_id [playerRef Party.ann]).
Proof.
  split; [vm_compute; reflexivity|].
  destruct (found_players_are_players Party.owns (js "Zed") None None Party.game
              [playerRef Party.ann]) as [Hwho Honce].
  - reflexivity.
  - reflexivity.
  - vm_compute. reflexivity.
  - split.
    + intros p Hp. destruct (Hwho p Hp) as (Hne & u & Hu & Hgm & Hid & _).
      split; [exact Hne|]. exists u. auto.
    + apply Honce. vm_compute.
      repeat (apply NoDup_cons; split;
              [rewrite ?elem_of_cons, elem_of_nil; intros H;
               repeat (destruct H as [H|H]; [discriminate|]); exact H|]).
      apply NoDup_nil. exact I.
Defined.

Lemma players_are_found_by_name_witness :
  findPlayers Party.owns (js "AN") None None Party.game = Ok [playerRef Party.ann]
  /\ playerRef Party.ann ∈ [playerRef Party.ann].
Proof.
  split; [vm_compute; reflexivity|].
  apply (players_are_found_by_name Party.owns (js "AN") None None Party.game
           [playerRef Party.ann] Party.ann (js "u1")).
  - reflexivity.
  - reflexivity.
  - vm_compute. reflexivity.
  - right. left.
  - reflexivity.
  - reflexivity.
  - discriminate.
  - vm_compute. reflexivity.
Defined.

(** *** Skill codes and roll formulas *)

Lemma toLowerCase_lower s : hasUpper (toLowerCase s) = false.
Proof.
  induction s as [|u s IH]; [reflexivity|].
  unfold hasUpper in *. simpl. rewrite IH, orb_false_r. unfold lowerUnit.
  destruct ((65 <=? u)%N && (u <=? 90)%N) eqn:E; [|exact E].
  apply andb_true_iff in E as [H1 H2]. apply N.leb_le in H1, H2.
  apply andb_false_iff. right. apply N.leb_gt. lia.
Qed.

Lemma withoutWhiteSpace_lower s : hasUpper s = false -> hasUpper (withoutWhiteSpace s) = false.
Proof.
  unfold hasUpper, withoutWhiteSpace. induction s as [|u s IH]; [reflexivity|].
  simpl. intros H. apply orb_false_iff in H as [H1 H2].
  rewrite filter_cons. destruct (decide _); [|auto].
  simpl. rewrite H1. simpl. auto.
Qed.

Lemma withoutWhiteSpace_twice s :
  withoutWhiteSpace (withoutWhiteSpace s) = withoutWhiteSpace s.
Proof.
  unfold withoutWhiteSpace. induction s as [|u s IH]; [reflexivity|].
  rewrite filter_cons. destruct (decide _) as [H|H]; [|exact IH].
  rewrite filter_cons. destruct (decide _); [|contradiction]. rewrite IH. reflexivity.
Qed.

Lemma own_elem k table code : own k table = Some code -> (k, code) ∈ table.
Proof.
  induction table as [|[k' v] r IH]; simpl; [discriminate|].
  destruct (streq k k') eqn:E.
  - intros [= ->]. apply streq_true in E. subst. left.
  - intros H. right. auto.
Qed.

Lemma skillMap_found name code :
  (name, code) ∈ skillMap ->
  skillMapAt (withoutWhiteSpace name) = Some (SkillText code).
Proof.
  intros H. apply list_elem_of_In in H. unfold skillMap in H. simpl in H.
  repeat (destruct H as [H|H]; [injection H as <- <-; vm_compute; reflexivity|]).
  destruct H.
Qed.

Lemma inherited_lower k :
  existsb (streq k) inheritedNames = true -> hasUpper k = false ->
  k = js "constructor" \/ k = js "__proto__".
Proof.
  intros H Hlow. apply existsb_exists in H as (x & Hx & Hk).
  apply streq_true in Hk. subst x. unfold inheritedNames in Hx. simpl in Hx.
  repeat (destruct Hx as [Hx|Hx];
          [subst k; first [left; reflexivity | right; reflexivity
                           | vm_compute in Hlow; discriminate]|]).
  destruct Hx.
Qed.

Lemma skillMapAt_inherited k n :
  skillMapAt k = Some (Inherited n) -> hasUpper k = false ->
  n = k /\ (k = js "constructor" \/ k = js "__proto__").
Proof.
  unfold skillMapAt. destruct (own k skillMap); [discriminate|].
  destruct (existsb (streq k) inheritedNames) eqn:E; [|discriminate].
  intros [= <-] Hlow. split; [reflexivity|]. apply inherited_lower; assumption.
Qed.

(** X25. How [getSkillCode] reads a skill name.  A name of the table is
    recognised whatever its letter case and wherever white space is put
    into it or left out of it.  A name that is none of them comes back in
    lower case with its white space kept (shown for names in plain
    text).  The result is a text except
    for exactly two names, which reach what the table inherits as an
    object: [constructor] and [__proto__] (letter case and white space
    apart). *)
Theorem skill_names_are_recognised (skillName : jsstring) :
  let normalizedName := withoutWhiteSpace (toLowerCase skillName) in
  (forall name code,
     (name, code) ∈ skillMap -> normalizedName = withoutWhiteSpace name ->
     getSkillCode skillName = SkillText code)
  /\ (plain skillName = true ->
      (forall name code, (name, code) ∈ skillMap ->
         normalizedName <> withoutWhiteSpace name) ->
      normalizedName <> js "constructor" -> normalizedName <> js "__proto__" ->
      getSkillCode skillName = SkillText (toLowerCase skillName))
  /\ ((exists n, getSkillCode skillName = Inherited n)
      <-> normalizedName = js "constructor" \/ normalizedName = js "__proto__").
Proof.
  intros normalizedName.
  assert (Hlow : hasUpper normalizedName = false).
  { apply withoutWhiteSpace_lower, toLowerCase_lower. }
  assert (Hsecond : forall k, k = js "constructor" \/ k = js "__proto__" ->
                      withoutWhiteSpace k = k).
  { intros k [-> | ->]; reflexivity. }
  split; [|split].
  - intros name code Hin Heq. unfold getSkillCode. fold normalizedName.
    rewrite Heq, (skillMap_found name code Hin). reflexivity.
  - intros _ Hnone Hc Hp. unfold getSkillCode. fold normalizedName.
    destruct (skillMapAt normalizedName) as [code|] eqn:H1.
    { exfalso. unfold skillMapAt in H1.
      destruct (own normalizedName skillMap) as [c|] eqn:Hown.
      - apply own_elem in Hown. apply (Hnone _ _ Hown).
        symmetry. apply withoutWhiteSpace_twice.
      - destruct (existsb _ inheritedNames) eqn:E; [|discriminate].
        destruct (inherited_lower _ E Hlow); contradiction. }
    destruct (skillMapAt (toLowerCase skillName)) as [code|] eqn:H2; [|reflexivity].
    exfalso. unfold skillMapAt in H2.
    destruct (own (toLowerCase skillName) skillMap) as [c|] eqn:Hown.
    + apply own_elem in Hown. apply (Hnone _ _ Hown). reflexivity.
    + destruct (existsb _ inheritedNames) eqn:E; [|discriminate].
      destruct (inherited_lower _ E (toLowerCase_lower skillName)) as [H|H];
        unfold normalizedName in Hc, Hp; rewrite H in Hc, Hp; contradiction.
  - split.
    + intros [n Hn]. unfold getSkillCode in Hn. fold normalizedName in Hn.
      destruct (skillMapAt normalizedName) as [code|] eqn:H1.
      { subst code. apply skillMapAt_inherited in H1; tauto. }
      destruct (skillMapAt (toLowerCase skillName)) as [code|] eqn:H2; [|discriminate].
      subst code. apply skillMapAt_inherited in H2 as [_ H2];
        [|apply toLowerCase_lower].
      unfold normalizedName. destruct H2 as [H2|H2]; rewrite H2; [left|right]; reflexivity.
    + intros [H|H]; unfold getSkillCode; fold normalizedName; rewrite H;
        eexists; vm_compute; reflexivity.
Qed.

Lemma skill_names_are_recognised_witness :
  getSkillCode (js "Sleight  Of Hand") = SkillText (js "slt")
  /\ (exists n, getSkillCode (js "Con Structor") = Inherited n).
Proof.
  split.
  - apply (proj1 (skill_names_are_recognised (js "Sleight  Of Hand"))
             (js "sleight of hand") (js "slt")).
    + do 16 right. left.
    + vm_compute. reflexivity.
  - apply (proj2 (proj2 (skill_names_are_recognised (js "Con Structor")))).
    left. vm_compute. reflexivity.
Defined.

Example sleight_of_hand :
  map getSkillCode [js "Sleight of Hand"; js " SLEIGHTOFHAND"; js "Sleight  Of Hand";
                    js "Lock Picking"; js "Con Structor"]
  = [SkillText (js "slt"); SkillText (js "slt"); SkillText (js "slt");
     SkillText (js "lock picking"); Inherited (js "constructor")].
Proof. vm_compute. reflexivity. Qed.

Lemma modifierSuffix_sign rollModifier :
  modifierSuffix rollModifier = []
  \/ exists c rest, modifierSuffix rollModifier = c :: rest /\ (c = 43%N \/ c = 45%N).
Proof.
  unfold modifierSuffix.
  destruct (negb (bool_decide (rollModifier = [])) && _) eqn:E; [|left; reflexivity].
  right. destruct rollModifier as [|c rest]; [discriminate|].
  destruct (startsWith (js "+") (c :: rest) || startsWith (js "-") (c :: rest)) eqn:Hs.
  - exists c, rest. split; [reflexivity|].
    assert (Hone : forall a, startsWith [a] (c :: rest) = (a =? c)%N).
    { intros a. cbn [startsWith]. apply andb_true_r. }
    change (js "+") with [43%N] in Hs. change (js "-") with [45%N] in Hs.
    rewrite !Hone in Hs.
    apply orb_true_iff in Hs as [Hs|Hs]; apply N.eqb_eq in Hs; auto.
  - exists 43%N, (c :: rest). split; [reflexivity|]. left. reflexivity.
Qed.

Section Requests.

Variable testUserPermission : Actor -> User -> bool.

Lemma gm_has_no_character targetPlayer g u :
  pi_user (resolveTargetPlayer testUserPermission targetPlayer g) = Some u ->
  isGM u = true ->
  pi_character (resolveTargetPlayer testUserPermission targetPlayer g) = None.
Proof.
  unfold resolveTargetPlayer. cbv zeta.
  assert (Huser : forall u', u' ∈ game_users g ->
            pi_user (userFound testUserPermission g u') = Some u -> isGM u = true ->
            pi_character (userFound testUserPermission g u') = None).
  { intros u' Hin Hu Hgm.
    destruct (userFound_facts testUserPermission g u' Hin) as (Hus & _ & _ & Hch & _).
    rewrite Hus in Hu. injection Hu as ->.
    destruct (pi_character (userFound testUserPermission g u)) as [c|]; [|reflexivity].
    destruct (Hch c eq_refl) as (_ & _ & H & _). congruence. }
  destruct (find (fun u => exactName _ (user_name u)) (game_users g)) as [u1|] eqn:Hexact.
  { apply Huser. apply find_elem in Hexact. tauto. }
  destruct (find (fun u => partialName _ (user_name u)) (game_users g))
    as [u1|] eqn:Hpartial.
  { apply Huser. apply find_elem in Hpartial. tauto. }
  match goal with
  | |- context [match ?c with Some actor => characterFound _ _ actor | None => _ end] =>
      destruct c as [actor|] eqn:Hchar
  end.
  { assert (Hin : actor ∈ game_actors g).
    { destruct (find _ (game_actors g)) as [a|] eqn:H1.
      - injection Hchar as <-. apply find_elem in H1. tauto.
      - apply find_elem in Hchar. tauto. }
    destruct (characterFound_facts testUserPermission g actor Hin)
      as (_ & _ & _ & _ & Hus & _).
    intros Hu Hgm. apply Hus in Hu. destruct Hu as (_ & _ & H & _). congruence. }
  destruct (find (fun actor => anyName _ (actor_name actor)) (game_actors g))
    as [anyCharacter|]; [|discriminate].
  destruct (hasPlayerOwner anyCharacter); discriminate.
Qed.

End Requests.

(** X26. The modifiers of a character enter a roll formula only when the
    target resolves to a character.  For a target found without one (a
    user who owns no actor, or a GM, for whom no actor is ever looked up)
    the request is drafted with the formula [1d20] followed by the
    modifier asked for, whatever the roll type and the roll target: a
    custom formula is dropped as well.  The modifier is appended with a
    sign: its first character is + or -. *)
Theorem roll_without_character_is_a_plain_d20
    (testUserPermission : Actor -> User -> bool) (data : RollRequest) (g : Game) :
  validateFoundryState g = Ok tt ->
  let info := resolveTargetPlayer testUserPermission (targetPlayer data) g in
  (forall u, pi_user info = Some u -> isGM u = true -> pi_character info = None)
  /\ (pi_found info = true -> pi_character info = None ->
      exists m,
        preparedRollRequest testUserPermission data g = Ok (Draft m)
        /\ md_rollFormula m = js "1d20" ++ modifierSuffix (rollModifier data)
        /\ md_characterId m = []
        /\ (md_rollFormula m = js "1d20"
            \/ exists sign rest, md_rollFormula m = js "1d20" ++ sign :: rest
                                 /\ (sign = 43%N \/ sign = 45%N))).
Proof.
  intros Hvalid info. split.
  - intros u Hu Hgm. eapply gm_has_no_character; eauto.
  - intros Hfound Hnone. unfold preparedRollRequest. rewrite Hvalid.
    unfold mbind, result_bind. fold info. rewrite Hfound, Hnone. simpl negb. cbv iota.
    unfold buildRollFormula, baseFormula. unfold mbind, result_bind.
    eexists. split; [reflexivity|]. cbn [md_rollFormula md_characterId idOr].
    split; [reflexivity|]. split; [reflexivity|].
    destruct (modifierSuffix_sign (rollModifier data)) as [H|(c & rest & H & Hc)];
      rewrite H.
    + left. reflexivity.
    + right. exists c, rest. auto.
Qed.

Lemma roll_without_character_is_a_plain_d20_witness :
  exists m,
    preparedRollRequest Party.owns Party.ownFormula Party.game = Ok (Draft m)
    /\ md_rollFormula m = js "1d20" ++ modifierSuffix (js "2")
    /\ md_characterId m = []
    /\ (md_rollFormula m = js "1d20"
        \/ exists sign rest, md_rollFormula m = js "1d20" ++ sign :: rest
                             /\ (sign = 43%N \/ sign = 45%N)).
Proof.
  apply (proj2 (roll_without_character_is_a_plain_d20 Party.owns Party.ownFormula
                  Party.game eq_refl)).
  - vm_compute. reflexivity.
  - vm_compute. reflexivity.
Defined.

Example own_formula_is_dropped :
  preparedRollRequest Party.owns Party.ownFormula Party.game
  = Ok (Draft {| whisper := [js "gm1"];
                 md_rollFormula := js "1d20+2";
                 md_rollLabel := js "Custom Roll (Private)";
                 md_isPublic := false;
                 md_characterId := [];
                 md_targetUserId := js "gm1" |}).
Proof. vm_compute. reflexivity. Qed.

Lemma existsb_streq i l : existsb (streq i) l = true <-> i ∈ l.
Proof.
  rewrite existsb_exists. split.
  - intros (x & Hx & He). apply streq_true in He. subst x. apply list_elem_of_In. exact Hx.
  - intros H. exists i. split; [apply list_elem_of_In; exact H|].
    unfold streq. apply bool_decide_eq_true. reflexivity.
Qed.

Lemma addGMs_spec gmUsers :
  forall targets,
    NoDup targets ->
    NoDup (addGMs gmUsers targets)
    /\ (exists more, addGMs gmUsers targets = targets ++ more)
    /\ forall i, i ∈ addGMs gmUsers targets
                 <-> i ∈ targets
                     \/ (i <> [] /\ exists gm, gm ∈ gmUsers /\ user_id gm = Some i).
Proof.
  induction gmUsers as [|gm rest IH]; intros targets Hnd; simpl.
  - split; [exact Hnd|]. split; [exists []; symmetry; apply app_nil_r|].
    intros i. split; [auto|]. intros [H|(_ & gm & Hgm & _)]; [exact H|inversion Hgm].
  - destruct (user_id gm) as [i0|] eqn:Hid.
    + destruct (negb (bool_decide (i0 = [])) && negb (existsb (streq i0) targets)) eqn:E.
      * apply andb_true_iff in E as [E1 E2].
        apply negb_true_iff, bool_decide_eq_false in E1. apply negb_true_iff in E2.
        assert (Hnot : i0 ∉ targets).
        { intros Hin. apply existsb_streq in Hin. congruence. }
        assert (Hnd' : NoDup (targets ++ [i0])).
        { apply NoDup_app. split; [exact Hnd|]. split; [|apply NoDup_singleton].
          intros x Hx Hx'. apply list_elem_of_singleton in Hx'. subst x. contradiction. }
        destruct (IH _ Hnd') as (H1 & [more H2] & H3).
        split; [exact H1|]. split.
        { exists (i0 :: more). rewrite H2, <- app_assoc. reflexivity. }
        intros i. rewrite H3, elem_of_app, list_elem_of_singleton. split.
        -- intros [[H|H]|(Hne & gm' & Hgm' & Hi)]; [left; exact H| |].
           ++ right. subst i. split; [exact E1|]. exists gm. split; [left|exact Hid].
           ++ right. split; [exact Hne|]. exists gm'. split; [right; exact Hgm'|exact Hi].
        -- intros [H|(Hne & gm' & Hgm' & Hi)]; [left; left; exact H|].
           apply elem_of_cons in Hgm' as [->|Hgm'].
           ++ left. right. congruence.
           ++ right. split; [exact Hne|]. exists gm'. auto.
      * destruct (IH _ Hnd) as (H1 & H2 & H3).
        split; [exact H1|]. split; [exact H2|].
        intros i. rewrite H3. split.
        -- intros [H|(Hne & gm' & Hgm' & Hi)]; [left; exact H|].
           right. split; [exact Hne|]. exists gm'. split; [right; exact Hgm'|exact Hi].
        -- intros [H|(Hne & gm' & Hgm' & Hi)]; [left; exact H|].
           apply elem_of_cons in Hgm' as [->|Hgm'].
           ++ left. rewrite Hid in Hi. injection Hi as ->.
              apply andb_false_iff in E as [E|E].
              ** apply negb_false_iff, bool_decide_eq_true in E. contradiction.
              ** apply negb_false_iff in E. apply existsb_streq. exact E.
           ++ right. split; [exact Hne|]. exists gm'. auto.
    + destruct (IH _ Hnd) as (H1 & H2 & H3).
      split; [exact H1|]. split; [exact H2|].
      intros i. rewrite H3. split.
      * intros [H|(Hne & gm' & Hgm' & Hi)]; [left; exact H|].
        right. split; [exact Hne|]. exists gm'. split; [right; exact Hgm'|exact Hi].
      * intros [H|(Hne & gm' & Hgm' & Hi)]; [left; exact H|].
        apply elem_of_cons in Hgm' as [->|Hgm']; [congruence|].
        right. split; [exact Hne|]. exists gm'. auto.
Qed.

(** X27. To whom a roll request is whispered.  A public request is
    whispered to nobody.  A private request is whispered to exactly the
    target user and the GMs who are logged in, as far as they have an id;
    nobody is named twice, and the target user comes first. *)
Theorem private_rolls_are_whispered
    (testUserPermission : Actor -> User -> bool) (data : RollRequest) (g : Game)
    (m : MessageData) :
  preparedRollRequest testUserPermission data g = Ok (Draft m) ->
  md_isPublic m = isPublic data
  /\ NoDup (whisper m)
  /\ (isPublic data = true -> whisper m = [])
  /\ (isPublic data = false ->
        (forall i, i ∈ whisper m
                   <-> i <> []
                       /\ (i = md_targetUserId m
                           \/ exists gm, gm ∈ game_users g /\ isGM gm = true
                                /\ active gm = true /\ user_id gm = Some i))
        /\ (md_targetUserId m <> [] -> head (whisper m) = Some (md_targetUserId m))).
Proof.
  unfold preparedRollRequest. destruct (validateFoundryState g) as [[]|e]; [|discriminate].
  unfold mbind, result_bind.
  set (info := resolveTargetPlayer testUserPermission (targetPlayer data) g).
  destruct (negb (pi_found info)); [discriminate|].
  destruct (buildRollFormula _ _ _ _) as [formula|e]; [|discriminate].
  intros [= <-]. cbn [whisper md_isPublic md_targetUserId].
  split; [reflexivity|]. unfold whisperTargets.
  destruct (isPublic data); simpl negb; cbv iota.
  { split; [constructor|]. split; [reflexivity|]. discriminate. }
  set (target := idOr user_id (pi_user info)).
  set (first := match target with [] => [] | c :: t => [c :: t] end).
  set (gms := filter (fun u => isGM u && active u) (game_users g)).
  assert (Hfirst : NoDup first).
  { subst first. destruct target; [constructor|apply NoDup_singleton]. }
  destruct (addGMs_spec gms first Hfirst) as (Hnd & [more Hmore] & Hin).
  split; [exact Hnd|]. split; [discriminate|]. intros _. split.
  - intros i. rewrite Hin. split.
    + intros [H|(Hne & gm & Hgm & Hi)].
      * subst first. destruct target as [|c t]; [inversion H|].
        apply list_elem_of_singleton in H. subst i. split; [discriminate|]. left. reflexivity.
      * split; [exact Hne|]. right. exists gm. subst gms.
        apply list_elem_of_filter in Hgm as [Hsel Hgm].
        apply Is_true_true, andb_true_iff in Hsel as [H1 H2]. auto.
    + intros [Hne [H|(gm & Hgm & H1 & H2 & Hi)]].
      * left. subst first. rewrite <- H. destruct i; [contradiction|].
        apply list_elem_of_singleton. reflexivity.
      * right. split; [exact Hne|]. exists gm. split; [|exact Hi].
        subst gms. apply list_elem_of_filter. split; [|exact Hgm].
        rewrite H1, H2. exact I.
  - intros Hne. rewrite Hmore. subst first. destruct target; [contradiction|]. reflexivity.
Qed.

Lemma private_rolls_are_whispered_witness :
  NoDup (whisper Party.sleightDraft)
  /\ head (whisper Party.sleightDraft) = Some (js "u1").
Proof.
  destruct (private_rolls_are_whispered Party.owns Party.sleight Party.game
              Party.sleightDraft) as (_ & Hnd & _ & Hprivate).
  - vm_compute. reflexivity.
  - split; [exact Hnd|]. apply (proj2 (Hprivate eq_refl)). discriminate.
Defined.

(** *** Placing tokens *)

Lemma gridSizeOf_nonzero scene : ~ (gridSizeOf scene == 0)%Q.
Proof.
  unfold gridSizeOf. destruct (grid_size scene) as [size|]; [|discriminate].
  destruct (Qeq_bool size 0) eqn:E; [discriminate|]. apply Qeq_bool_neq. exact E.
Qed.

Lemma ofNat_inj a b : (ofNat a == ofNat b)%Q -> a = b.
Proof. unfold ofNat. intros H. apply Nat2Z.inj, inject_Z_injective. exact H. Qed.

Lemma scaled_inj (g a b : Q) : ~ (g == 0)%Q -> (a * g == b * g)%Q -> (a == b)%Q.
Proof.
  intros Hg H.
  assert (H0 : ((a - b) * g == 0)%Q).
  { assert (E : ((a - b) * g == a * g - b * g)%Q) by ring. rewrite E, H. ring. }
  apply Qmult_integral in H0 as [H0|H0]; [|contradiction].
  assert (E : (a == (a - b) + b)%Q) by ring. rewrite E, H0. ring.
Qed.

Lemma grid_coordinate (g : Q) (a b : nat) :
  ~ (g == 0)%Q ->
  Qeq_bool (g + ofNat a * g * 2) (g + ofNat b * g * 2) = bool_decide (a = b).
Proof.
  intros Hg. destruct (bool_decide (a = b)) eqn:E.
  - apply bool_decide_eq_true in E. subst b. apply Qeq_bool_iff. reflexivity.
  - apply bool_decide_eq_false in E. destruct (Qeq_bool _ _) eqn:H; [|reflexivity].
    exfalso. apply E. apply Qeq_bool_iff in H. apply Qplus_inj_l in H.
    apply ofNat_inj. apply (scaled_inj (g * 2)).
    + intros H0. apply Qmult_integral in H0 as [H0|H0]; [contradiction|discriminate].
    + rewrite !Qmult_assoc. exact H.
Qed.

Lemma grid_samePlace random scene coordinates i j :
  samePlace (calculateTokenPosition random PlaceGrid scene i coordinates)
            (calculateTokenPosition random PlaceGrid scene j coordinates)
  = bool_decide ((i mod gridColumns i)%nat = (j mod gridColumns j)%nat)
    && bool_decide ((i / gridColumns i)%nat = (j / gridColumns j)%nat).
Proof.
  unfold samePlace, calculateTokenPosition. cbn [fst snd].
  rewrite !grid_coordinate by apply gridSizeOf_nonzero. reflexivity.
Qed.

Lemma gridColumns_low n c :
  (c <= n)%nat -> gridColumns (n * (n + 1) + c) = (n + 1)%nat.
Proof.
  intros Hc. unfold gridColumns. apply Nat.sqrt_up_unique; [lia|].
  replace (Nat.pred (n + 1)) with n by lia. nia.
Qed.

Lemma gridColumns_high n c :
  (1 <= c <= n)%nat -> gridColumns (n * (n + 2) + c) = (n + 2)%nat.
Proof.
  intros Hc. unfold gridColumns. apply Nat.sqrt_up_unique; [lia|].
  replace (Nat.pred (n + 2)) with (n + 1)%nat by lia. nia.
Qed.

(** X28. Grid placement puts tokens on top of each other from the fifth
    token on.  The positions of the tokens placed by one call are pairwise
    different exactly when at most four tokens are placed: the token of
    index 4 gets the position of the token of index 3, and in general the
    tokens of index n(n+1)+c and n(n+2)+c get the same position for
    1 <= c <= n. *)
Theorem grid_stacks_the_fifth_token
    (random : Q * Q) (scene : Scene) (coordinates : option (list (Q * Q))) :
  (forall count,
     (forall i j, (i < j < count)%nat ->
        samePlace (calculateTokenPosition random PlaceGrid scene i coordinates)
                  (calculateTokenPosition random PlaceGrid scene j coordinates) = false)
     <-> (count <= 4)%nat)
  /\ (forall n c, (1 <= c <= n)%nat ->
        Z.of_nat (n * (n + 2) + c) < 2 ^ 32 ->
        calculateTokenPosition random PlaceGrid scene (n * (n + 1) + c) coordinates
        = calculateTokenPosition random PlaceGrid scene (n * (n + 2) + c) coordinates).
Proof.
  split.
  - intros count. split.
    + intros Hdistinct. destruct (Nat.le_gt_cases count 4) as [H|H]; [exact H|].
      exfalso. assert (H34 : (3 < 4 < count)%nat) by lia.
      apply Hdistinct in H34. rewrite grid_samePlace in H34.
      vm_compute in H34. discriminate.
    + intros Hcount i j Hij. rewrite grid_samePlace.
      assert (Hcases : ((i = 0 /\ j = 1) \/ (i = 0 /\ j = 2) \/ (i = 0 /\ j = 3)
                        \/ (i = 1 /\ j = 2) \/ (i = 1 /\ j = 3)
                        \/ (i = 2 /\ j = 3))%nat) by lia.
      destruct Hcases as [[-> ->]|[[-> ->]|[[-> ->]|[[-> ->]|[[-> ->]|[-> ->]]]]]];
        vm_compute; reflexivity.
  - intros n c Hc _. unfold calculateTokenPosition. cbv zeta.
    rewrite gridColumns_low by lia. rewrite gridColumns_high by lia.
    assert (Hrow1 : ((n * (n + 1) + c) / (n + 1) = n)%nat).
    { symmetry. apply (Nat.div_unique _ _ n c); lia. }
    assert (Hcol1 : ((n * (n + 1) + c) mod (n + 1) = c)%nat).
    { symmetry. apply (Nat.mod_unique _ _ n c); lia. }
    assert (Hrow2 : ((n * (n + 2) + c) / (n + 2) = n)%nat).
    { symmetry. apply (Nat.div_unique _ _ n c); lia. }
    assert (Hcol2 : ((n * (n + 2) + c) mod (n + 2) = c)%nat).
    { symmetry. apply (Nat.mod_unique _ _ n c); lia. }
    rewrite Hrow1, Hcol1, Hrow2, Hcol2. reflexivity.
Qed.

(** In the hall the fifth token lands on the fourth, on the square at
    (150, 150). *)
Lemma grid_stacks_the_fifth_token_witness :
  calculateTokenPosition (0, 0)%Q PlaceGrid Party.hall 3 None
  = calculateTokenPosition (0, 0)%Q PlaceGrid Party.hall 4 None
  /\ samePlace (calculateTokenPosition (0, 0)%Q PlaceGrid Party.hall 4 None)
               (150, 150)%Q = true.
Proof.
  split; [|vm_compute; reflexivity].
  apply (proj2 (grid_stacks_the_fifth_token (0, 0)%Q Party.hall None) 1%nat 1%nat).
  - lia.
  - vm_compute. reflexivity.
Defined.

(** *** From the list of players to a roll request *)

(** X29. A player listed by [getConnectedPlayers] can be asked to roll
    under the listed name, in a game whose names are in plain text.  When
    the names of the users differ in more than letter case, the listed
    name has no white space around it and is the user's own (not the
    stand-in for a user without a name), [resolveTargetPlayer] finds that
    very user for it: the one with the listed id, logged in and not a
    GM. *)
Theorem connected_player_can_be_asked
    (testUserPermission : Actor -> User -> bool) (g : Game)
    (players : list PlayerRef) (p : PlayerRef) :
  plainGame g = true ->
  getConnectedPlayers g = Ok players ->
  p ∈ players ->
  (forall u1 u2 s1 s2, u1 ∈ game_users g -> u2 ∈ game_users g ->
     user_name u1 = Some s1 -> user_name u2 = Some s2 ->
     toLowerCase s1 = toLowerCase s2 -> u1 = u2) ->
  trim (toLowerCase (p_name p)) = toLowerCase (p_name p) ->
  p_name p <> js "Unknown" ->
  exists u,
    u ∈ game_users g /\ user_id u = Some (p_id p) /\ user_name u = Some (p_name p)
    /\ active u = true /\ isGM u = false
    /\ pi_found (resolveTargetPlayer testUserPermission (p_name p) g) = true
    /\ pi_user (resolveTargetPlayer testUserPermission (p_name p) g) = Some u.
Proof.
  intros _. unfold getConnectedPlayers.
  destruct (validateFoundryState g) as [[]|e]; [|discriminate].
  unfold mbind, result_bind. intros [= <-] Hp Hnames Htrim Hown.
  apply list_elem_of_filter in Hp as [Hid Hp].
  apply list_elem_of_fmap in Hp as (u & -> & Hu).
  apply list_elem_of_filter in Hu as [Hsel Hu].
  apply Is_true_true, andb_true_iff in Hsel as [Hactive Hgm]. apply negb_true_iff in Hgm.
  apply Is_true_true, negb_true_iff, bool_decide_eq_false in Hid.
  assert (Huid : user_id u = Some (p_id (playerRef u))).
  { revert Hid. unfold playerRef. simpl. destruct (user_id u); simpl; congruence. }
  assert (Hname : user_name u = Some (p_name (playerRef u))).
  { revert Hown. unfold playerRef. simpl. destruct (user_name u) as [[|c s]|]; simpl;
      congruence. }
  exists u. split; [exact Hu|]. split; [exact Huid|]. split; [exact Hname|].
  split; [exact Hactive|]. split; [exact Hgm|].
  unfold resolveTargetPlayer. cbv zeta. rewrite Htrim.
  destruct (find (fun u => exactName _ (user_name u)) (game_users g)) as [u'|] eqn:Hexact.
  - apply find_elem in Hexact as [Hin He].
    destruct (user_name u') as [s'|] eqn:Hs'; [|discriminate].
    simpl in He. apply streq_true in He.
    assert (u' = u) as -> by (eapply Hnames; eauto).
    destruct (userFound_facts testUserPermission g u Hu) as (Hus & Hfound & _).
    rewrite Hfound, Hus. auto.
  - exfalso. pose proof (find_nothing _ _ u Hexact Hu) as H. cbv beta in H.
    rewrite Hname in H. simpl in H. unfold streq in H.
    rewrite bool_decide_eq_false in H. apply H. reflexivity.
Qed.

Lemma connected_player_can_be_asked_witness :
  exists u,
    u ∈ game_users Party.game /\ user_id u = Some (js "u1")
    /\ user_name u = Some (js "Ann")
    /\ active u = true /\ isGM u = false
    /\ pi_found (resolveTargetPlayer Party.owns (js "Ann") Party.game) = true
    /\ pi_user (resolveTargetPlayer Party.owns (js "Ann") Party.game) = Some u.
Proof.
  apply (connected_player_can_be_asked Party.owns Party.game [playerRef Party.ann]
           (playerRef Party.ann)).
  - reflexivity.
  - vm_compute. reflexivity.
  - left.
  - intros u1 u2 s1 s2 H1 H2.
    apply list_elem_of_In in H1, H2. simpl in H1, H2.
    destruct H1 as [<-|[<-|[<-|[]]]]; destruct H2 as [<-|[<-|[<-|[]]]];
      intros [= <-] [= <-] Heq; try reflexivity; vm_compute in Heq; discriminate.
  - vm_compute. reflexivity.
  - vm_compute. discriminate.
Defined.
